(** * dev-browser: the page server, the server registry and the extension relay

    A shallow embedding of the parts of dev-browser that keep state:

    - [Js]: the JavaScript data the code handles (JSON values, truthiness,
      the insertion-ordered [Map]);
    - [Relay]: the extension background script (tab table, child-session
      table, command dispatch, the three detach paths);
    - [Config]: [config.ts] (port allocation, the persisted server registry,
      orphan detection);
    - [Server]: [external-browser.ts] (start-up validation, the page
      registry routes, the shutdown sequence).

    Calls that leave the process (the debugger API, sockets, the file
    system, Playwright) are either recorded as effects, in program order, or
    answered by an oracle that is a parameter of the model. JavaScript
    numbers that hold ports, pids and tab ids are integers ([Z]); a string is
    a sequence of code units, one [ascii] each. *)

From stdpp Require Import gmap strings list fin_maps pretty.

Set Warnings "-register-all".
Open Scope Z_scope.

(* ===================================================================== *)
(** * JavaScript data *)
(* ===================================================================== *)

Module Js.

(** A value produced by [JSON.parse]. [undefined] is not a JSON value: a
    property that may be missing is an [option JsVal]. The fields of an
    object are listed with the names [JSON.parse] has kept, each once. *)
Inductive JsVal : Type :=
| JNull
| JBool (b : bool)
| JNum (n : Z)
| JStr (s : string)
| JArr (items : list JsVal)
| JObj (fields : list (string * JsVal)).

(** [if (v)]: [null], [false], [0] and the empty string are falsy. *)
Definition truthy (v : JsVal) : bool :=
  match v with
  | JNull => false
  | JBool b => b
  | JNum n => negb (n =? 0)
  | JStr s => negb (String.eqb s "")
  | JArr _ | JObj _ => true
  end.

(** Truthiness of a possibly [undefined] value. *)
Definition truthy_opt (v : option JsVal) : bool :=
  match v with Some v => truthy v | None => false end.

(** [typeof v === "object"]; [typeof null] is ["object"] as well. *)
Definition typeof_object (v : JsVal) : bool :=
  match v with
  | JNull | JArr _ | JObj _ => true
  | _ => false
  end.

(** [typeof v === "string"]. *)
Definition typeof_string (v : JsVal) : bool :=
  match v with JStr _ => true | _ => false end.

(** First binding of [k] in a property list. *)
Fixpoint assoc {A : Type} (k : string) (l : list (string * A)) : option A :=
  match l with
  | [] => None
  | (k', v) :: l' => if String.eqb k k' then Some v else assoc k l'
  end.

(** [v.k] on a value that is neither [null] nor [undefined]: only objects
    built by [JSON.parse] carry own properties. *)
Definition get_prop (v : JsVal) (k : string) : option JsVal :=
  match v with
  | JObj fields => assoc k fields
  | _ => None
  end.

(** [k in v] for an object value [v]. *)
Definition has_prop (v : JsVal) (k : string) : bool :=
  match get_prop v k with Some _ => true | None => false end.

(** ** The insertion-ordered [Map]

    A [Map<K, V>] is the list of its entries in insertion order. [set] on a
    present key replaces the value in place, on a new key appends; iteration
    ([for ... of], [keys()], [values()]) follows the list. *)
Section JsMap.
Context {K V : Type} `{EqDecision K}.

Fixpoint jm_get (k : K) (m : list (K * V)) : option V :=
  match m with
  | [] => None
  | (k', v) :: m' => if decide (k = k') then Some v else jm_get k m'
  end.

Definition jm_has (k : K) (m : list (K * V)) : bool :=
  match jm_get k m with Some _ => true | None => false end.

Fixpoint jm_set (k : K) (v : V) (m : list (K * V)) : list (K * V) :=
  match m with
  | [] => [(k, v)]
  | (k', v') :: m' =>
      if decide (k = k') then (k, v) :: m' else (k', v') :: jm_set k v m'
  end.

Definition jm_delete (k : K) (m : list (K * V)) : list (K * V) :=
  filter (λ kv, kv.1 ≠ k) m.

Definition jm_keys (m : list (K * V)) : list K := m.*1.
Definition jm_values (m : list (K * V)) : list V := m.*2.

Lemma jm_get_set_eq k v m : jm_get k (jm_set k v m) = Some v.
Proof.
  induction m as [|[k' v'] m IH]; simpl.
  - by rewrite decide_True.
  - destruct (decide (k = k')) as [->|Hne]; simpl.
    + by rewrite decide_True.
    + by rewrite decide_False.
Qed.

Lemma jm_get_set_ne k k' v m : k ≠ k' → jm_get k' (jm_set k v m) = jm_get k' m.
Proof.
  intros Hne. induction m as [|[k0 v0] m IH]; simpl.
  - by rewrite decide_False.
  - destruct (decide (k = k0)) as [->|Hk]; simpl.
    + by rewrite !decide_False.
    + destruct (decide (k' = k0)); done.
Qed.

Lemma jm_get_delete_eq k m : jm_get k (jm_delete k m) = None.
Proof.
  unfold jm_delete. induction m as [|[k' v'] m IH]; [done|].
  rewrite filter_cons. simpl. destruct (decide (k' ≠ k)) as [Hne|Heq]; [|done].
  simpl. by rewrite decide_False.
Qed.

Lemma jm_get_delete_ne k k' m : k ≠ k' → jm_get k' (jm_delete k m) = jm_get k' m.
Proof.
  intros Hne. unfold jm_delete. induction m as [|[k0 v0] m IH]; [done|].
  rewrite filter_cons. simpl. destruct (decide (k0 ≠ k)) as [Hk|Hk]; simpl.
  - by rewrite IH.
  - apply dec_stable in Hk. subst k0. by rewrite decide_False.
Qed.

Lemma jm_delete_absent k m : jm_get k m = None → jm_delete k m = m.
Proof.
  unfold jm_delete. induction m as [|[k' v'] m IH]; [done|]. simpl.
  destruct (decide (k = k')) as [->|Hne]; [done|]. intros Hm.
  rewrite filter_cons. simpl. rewrite decide_True; [|done]. by rewrite IH.
Qed.

Lemma jm_keys_get k m : k ∈ jm_keys m ↔ is_Some (jm_get k m).
Proof.
  unfold jm_keys. induction m as [|[k' v'] m IH]; simpl.
  - split; [by intros ?%elem_of_nil | by intros [? ?]].
  - rewrite elem_of_cons. destruct (decide (k = k')) as [->|Hne].
    + split; eauto.
    + rewrite IH. split; [by intros [?|?] | by right].
Qed.

Lemma jm_has_true k m : jm_has k m = true ↔ is_Some (jm_get k m).
Proof.
  unfold jm_has. destruct (jm_get k m); split; try done; eauto.
Qed.

Lemma length_jm_delete k m : (length (jm_delete k m) ≤ length m)%nat.
Proof. apply length_filter. Qed.
End JsMap.

End Js.

(* ===================================================================== *)
(** * The extension relay (background script) *)
(* ===================================================================== *)

Module Relay.
Import Js.

Inductive TabState := connecting | connected | error.

Global Instance TabState_eq_dec : EqDecision TabState.
Proof. solve_decision. Defined.

(** [TabInfo]: [sessionId] and [targetId] are missing while a tab is
    connecting or in error. *)
Record TabInfo := mkTabInfo {
  sessionId : option string;
  targetId : option string;
  state : TabState;
  errorText : option string
}.

Global Instance TabInfo_eq_dec : EqDecision TabInfo.
Proof. solve_decision. Defined.

(** What [Target.getTargetInfo] answers, as far as the script reads it. *)
Record TargetInfo := mkTargetInfo {
  ti_targetId : string;
  ti_url : string;
  ti_attached : bool
}.

(** An argument of a [logger] call. [sendLog] renders each one as a string;
    the model keeps the argument. [LTemplate] is a template literal with one
    interpolated value. *)
Inductive LogArg :=
| LStr (s : string)
| LNum (n : Z)
| LVal (v : JsVal)
| LTemplate (prefix : string) (v : option JsVal).

Inductive EventPayload :=
| DetachedFromTarget (sessionId targetId : option string)
| AttachedToTarget (sessionId : string) (targetInfo : TargetInfo)
    (waitingForDebugger : bool)
| DebuggerParams (params : option JsVal).

(** Messages the script writes to the relay socket. *)
Inductive RelayMessage :=
| Log (level : string) (args : list LogArg)
| ForwardCDPEvent (outerSessionId : option string) (method : string)
    (params : EventPayload).

Inductive Effect :=
| Send (m : RelayMessage)        (* ws.send(JSON.stringify(m)) *)
| DebuggerDetach (tabId : Z)     (* chrome.debugger.detach({ tabId }) *)
| UpdateIcons.                   (* void updateIcons() *)

(** The module-level state: [tabs], [childSessions], whether [ws] is an
    open socket, and the session counter. *)
Record State := mkState {
  tabs : list (Z * TabInfo);
  childSessions : list (string * Z);
  wsOpen : bool;
  nextSessionId : Z
}.

Definition set_tabs (st : State) (t : list (Z * TabInfo)) : State :=
  mkState t (childSessions st) (wsOpen st) (nextSessionId st).
Definition set_childSessions (st : State) (c : list (string * Z)) : State :=
  mkState (tabs st) c (wsOpen st) (nextSessionId st).

(** [sendMessage]: written only when the socket is open. *)
Definition sendMessage (st : State) (m : RelayMessage) : list Effect :=
  if wsOpen st then [Send m] else [].

Definition logger_log (st : State) (args : list LogArg) : list Effect :=
  sendMessage st (Log "log" args).
Definition logger_debug (st : State) (args : list LogArg) : list Effect :=
  sendMessage st (Log "debug" args).

(** [getTabBySessionId]: the first tab, in table order, with that session. *)
Definition getTabBySessionId (tbl : list (Z * TabInfo)) (sid : string)
  : option (Z * TabInfo) :=
  List.find (λ e, bool_decide (sessionId e.2 = Some sid)) tbl.

(** [tab.targetId === targetId] where [targetId] is whatever JSON value the
    command carries. *)
Definition targetId_strict_eq (t : option string) (v : JsVal) : bool :=
  match t, v with
  | Some s, JStr s' => bool_decide (s = s')
  | _, _ => false
  end.

Definition getTabByTargetId (tbl : list (Z * TabInfo)) (tid : JsVal)
  : option (Z * TabInfo) :=
  List.find (λ e, targetId_strict_eq (targetId e.2) tid) tbl.

(** [msg.params] of an [ExtensionCommandMessage]. *)
Record CommandParams := mkParams {
  p_sessionId : option string;
  p_method : string;
  p_params : option JsVal
}.

Record ExtensionCommandMessage := mkMsg {
  msg_id : Z;
  msg_method : string;
  msg_params : CommandParams
}.

(** The locals [targetTabId] and [targetTab] of [handleCommand]. *)
Definition Locals : Type := option Z * option TabInfo.

(** "Find target tab by sessionId". *)
Definition findBySessionId (st : State) (p : CommandParams) (loc : Locals)
  : Locals :=
  match p_sessionId p with
  | Some sid =>
      if negb (String.eqb sid "") then
        match getTabBySessionId (tabs st) sid with
        | Some found => (Some found.1, Some found.2)
        | None => loc
        end
      else loc
  | None => loc
  end.

(** "Check child sessions (iframes, workers)". *)
Definition checkChildSessions (st : State) (p : CommandParams) (loc : Locals)
  : Locals * list Effect :=
  match loc.2, p_sessionId p with
  | None, Some sid =>
      if negb (String.eqb sid "") then
        match jm_get sid (childSessions st) with
        | Some parentTabId =>
            if negb (parentTabId =? 0) then
              ((Some parentTabId, jm_get parentTabId (tabs st)),
               logger_debug st [LStr "Found parent tab for child session:";
                                LStr sid; LStr "tabId:"; LNum parentTabId])
            else (loc, [])
        | None => (loc, [])
        end
      else (loc, [])
  | _, _ => (loc, [])
  end.

(** "Find by targetId in params". *)
Definition findByTargetIdInParams (st : State) (p : CommandParams)
    (loc : Locals) : Locals :=
  match loc.2, p_params p with
  | None, Some params =>
      if truthy params && typeof_object params then
        match get_prop params "targetId" with
        | Some tid =>
            match getTabByTargetId (tabs st) tid with
            | Some found => (Some found.1, Some found.2)
            | None => loc
            end
        | None => loc
        end
      else loc
  | _, _ => loc
  end.

(** The three look-ups of [handleCommand], in program order. *)
Definition resolveTarget (st : State) (p : CommandParams)
  : Locals * list Effect :=
  let loc1 := findBySessionId st p (None, None) in
  let '(loc2, logs) := checkChildSessions st p loc1 in
  (findByTargetIdInParams st p loc2, logs).

(** What [handleCommand] goes on to do once its synchronous part is over. *)
Inductive Outcome :=
| ReturnUndefined
| Throw (message : string)
| RuntimeEnable (tabId : Z) (params : option JsVal)
| CreateTarget (url : JsVal)
| CloseTargetNotFound
| CloseTarget (tabId : Z)
| SendCommand (tabId : Z) (session : option string) (method : string)
    (params : option JsVal).

(** A template literal prints a missing string as [undefined]. *)
Definition show_opt (s : option string) : string := default "undefined" s.

(** [(msg.params.params?.url as string) || "about:blank"]. *)
Definition createTarget_url (params : option JsVal) : JsVal :=
  match params ≫= (λ v, get_prop v "url") with
  | Some u => if truthy u then u else JStr "about:blank"
  | None => JStr "about:blank"
  end.

(** [targetTabId ? { tabId: targetTabId } : undefined]. *)
Definition debuggee_of (targetTabId : option Z) : option Z :=
  match targetTabId with
  | Some id => if negb (id =? 0) then Some id else None
  | None => None
  end.

Definition handleCommand (st : State) (msg : ExtensionCommandMessage)
  : list Effect * Outcome :=
  if negb (String.eqb (msg_method msg) "forwardCDPCommand") then
    ([], ReturnUndefined)
  else
    let p := msg_params msg in
    let '((targetTabId, targetTab), logs) := resolveTarget st p in
    let debuggee := debuggee_of targetTabId in
    if String.eqb (p_method p) "Runtime.enable" then
      match debuggee with
      | None =>
          (logs, Throw ("No debuggee found for Runtime.enable (sessionId: "
                        +:+ show_opt (p_sessionId p) +:+ ")"))
      | Some d => (logs, RuntimeEnable d (p_params p))
      end
    else if String.eqb (p_method p) "Target.createTarget" then
      let url := createTarget_url (p_params p) in
      (logs ++ logger_debug st [LStr "Creating new tab with URL:";
                               LVal url],
       CreateTarget url)
    else if String.eqb (p_method p) "Target.closeTarget" then
      match debuggee_of targetTabId (* [if (!targetTabId)] *) with
      | None =>
          (logs ++ logger_log st
             [LTemplate "Target not found: "
                (p_params p ≫= (λ v, get_prop v "targetId"))],
           CloseTargetNotFound)
      | Some id => (logs, CloseTarget id)
      end
    else
      match debuggee, targetTab with
      | Some d, Some tab =>
          (logs ++ logger_debug st [LStr "CDP command:"; LStr (p_method p);
                                   LStr "for tab:"; LNum d],
           SendCommand d
             (if decide (p_sessionId p = sessionId tab) then None
              else p_sessionId p)
             (p_method p) (p_params p))
      | _, _ =>
          (logs, Throw ("No tab found for method " +:+ p_method p
                        +:+ " sessionId: " +:+ show_opt (p_sessionId p)))
      end.

(** ** Attach and the three detach paths *)

(** The announcement both detach paths build from the tab's entry. *)
Definition detachedEvent (tab : TabInfo) : RelayMessage :=
  ForwardCDPEvent None "Target.detachedFromTarget"
    (DetachedFromTarget (sessionId tab) (targetId tab)).

(** "Clean up child sessions": the loop deletes, while iterating, every
    entry whose parent is [tabId]; the other entries keep their order. *)
Definition dropChildrenOf (tabId : Z) (c : list (string * Z))
  : list (string * Z) :=
  filter (λ e, e.2 ≠ tabId) c.

(** [attachTab], from the answer of [Target.getTargetInfo] on. *)
Definition attachTab (st : State) (tabId : Z) (targetInfo : TargetInfo)
  : State * list Effect :=
  let sid := "pw-tab-" +:+ pretty (nextSessionId st) in
  let st1 :=
    mkState
      (jm_set tabId (mkTabInfo (Some sid) (Some (ti_targetId targetInfo))
                       connected None) (tabs st))
      (childSessions st) (wsOpen st) (nextSessionId st + 1) in
  (st1,
   sendMessage st1
     (ForwardCDPEvent None "Target.attachedToTarget"
        (AttachedToTarget sid
           (mkTargetInfo (ti_targetId targetInfo) (ti_url targetInfo) true)
           false))
   ++ logger_log st1 [LStr "Tab attached:"; LNum tabId; LStr "sessionId:";
                      LStr sid; LStr "url:"; LStr (ti_url targetInfo)]
   ++ [UpdateIcons]).

Definition detachTab (st : State) (tabId : Z) (shouldDetachDebugger : bool)
  : State * list Effect :=
  match jm_get tabId (tabs st) with
  | None => (st, [])
  | Some tab =>
      let out1 := logger_debug st [LStr "Detaching tab:"; LNum tabId] in
      let out2 := sendMessage st (detachedEvent tab) in
      let st1 := set_tabs st (jm_delete tabId (tabs st)) in
      let st2 :=
        set_childSessions st1 (dropChildrenOf tabId (childSessions st1)) in
      let out3 := if shouldDetachDebugger then [DebuggerDetach tabId] else [] in
      (st2, out1 ++ out2 ++ out3 ++ [UpdateIcons])
  end.

(** [chrome.debugger.onDetach] listener; [source.tabId] may be missing. *)
Definition onDebuggerDetach (st : State) (source_tabId : option Z)
    (reason : string) : State * list Effect :=
  match source_tabId with
  | None => (st, [])
  | Some tabId =>
      if (tabId =? 0) || negb (jm_has tabId (tabs st)) then (st, [])
      else
        let out1 :=
          logger_debug st [LStr ("Debugger detached for tab " +:+ pretty tabId
                                 +:+ ": " +:+ reason)] in
        let out2 :=
          match jm_get tabId (tabs st) with
          | Some tab => sendMessage st (detachedEvent tab)
          | None => []
          end in
        let st1 :=
          set_childSessions st (dropChildrenOf tabId (childSessions st)) in
        let st2 := set_tabs st1 (jm_delete tabId (tabs st1)) in
        (st2, out1 ++ out2 ++ [UpdateIcons])
  end.

(** [chrome.tabs.onRemoved] listener. *)
Definition onTabRemoved (st : State) (tabId : Z) : State * list Effect :=
  if jm_has tabId (tabs st) then
    let out := logger_debug st [LStr "Tab closed:"; LNum tabId] in
    let '(st', out') := detachTab st tabId false in
    (st', out ++ out')
  else (st, []).

(** The source of a debugger event. *)
Record DebuggerSession := mkSource {
  src_tabId : option Z;
  src_sessionId : option string
}.

(** [params && typeof params === "object" && "sessionId" in params], then
    the session id read from it. CDP session ids are strings; a value of
    another type would become a key that no command can address and is not
    tracked here. *)
Definition eventSessionId (params : option JsVal) : option string :=
  match params with
  | Some v =>
      if truthy v && typeof_object v then
        match get_prop v "sessionId" with
        | Some (JStr s) => Some s
        | _ => None
        end
      else None
  | None => None
  end.

(** [source.sessionId || tab.sessionId]. *)
Definition eventOuterSession (source : DebuggerSession) (tab : TabInfo)
  : option string :=
  match src_sessionId source with
  | Some s => if negb (String.eqb s "") then Some s else sessionId tab
  | None => sessionId tab
  end.

(** [chrome.debugger.onEvent] listener. *)
Definition onDebuggerEvent (st : State) (source : DebuggerSession)
    (method : string) (params : option JsVal) : State * list Effect :=
  match src_tabId source with
  | None => (st, [])
  | Some tabId =>
      if tabId =? 0 then (st, [])
      else
        match jm_get tabId (tabs st) with
        | None => (st, [])
        | Some tab =>
            let out0 := logger_debug st [LStr "Forwarding CDP event:";
                                        LStr method; LStr "from tab:";
                                        LNum tabId] in
            let '(st1, out1) :=
              match (if String.eqb method "Target.attachedToTarget"
                     then eventSessionId params else None) with
              | Some sid =>
                  (set_childSessions st (jm_set sid tabId (childSessions st)),
                   logger_debug st [LStr "Child target attached:"; LStr sid;
                                   LStr "for tab:"; LNum tabId])
              | None => (st, [])
              end in
            let '(st2, out2) :=
              match (if String.eqb method "Target.detachedFromTarget"
                     then eventSessionId params else None) with
              | Some sid =>
                  (set_childSessions st1 (jm_delete sid (childSessions st1)),
                   logger_debug st1 [LStr "Child target detached:"; LStr sid])
              | None => (st1, [])
              end in
            (st2,
             out0 ++ out1 ++ out2
             ++ sendMessage st2
                  (ForwardCDPEvent (eventOuterSession source tab) method
                     (DebuggerParams params)))
        end
  end.

(** [ws.onclose]: every debugger is released and both tables are cleared. *)
Definition onSocketClose (st : State) : State * list Effect :=
  (mkState [] [] false (nextSessionId st),
   map DebuggerDetach (jm_keys (tabs st)) ++ [UpdateIcons]).

(** The two places where [onActionClicked] writes the tab table:
    [tabs.set(tab.id, { state: "connecting" })] and, when connecting failed,
    [tabs.set(tab.id, { state: "error", errorText })]. Both come after
    [if (!tab.id) return]. *)
Definition markConnecting (st : State) (tabId : Z) : State :=
  set_tabs st (jm_set tabId (mkTabInfo None None connecting None) (tabs st)).
Definition markError (st : State) (tabId : Z) (text : string) : State :=
  set_tabs st (jm_set tabId (mkTabInfo None None error (Some text)) (tabs st)).

(** One turn of the script; [tabId] is the id a guard has found truthy
    where the script writes a table under it ([attachTab] is reached only
    after [if (!tab.id)]). *)
Inductive step : State → State → Prop :=
| step_attach st tabId info :
    tabId ≠ 0 → step st (attachTab st tabId info).1
| step_connecting st tabId :
    tabId ≠ 0 → step st (markConnecting st tabId)
| step_error st tabId text :
    tabId ≠ 0 → step st (markError st tabId text)
| step_detach st tabId b : step st (detachTab st tabId b).1
| step_debugger_detach st src reason :
    step st (onDebuggerDetach st src reason).1
| step_removed st tabId : step st (onTabRemoved st tabId).1
| step_event st source method params :
    step st (onDebuggerEvent st source method params).1
| step_close st : step st (onSocketClose st).1
| step_open st :
    step st (mkState (tabs st) (childSessions st) true (nextSessionId st)).

Definition initial : State := mkState [] [] false 1.

Definition reachable (st : State) : Prop := rtc step initial st.

(** No table mentions tab id 0, which the script reads as "no tab". *)
Definition tab_ids_nonzero (st : State) : Prop :=
  Forall (λ e, e.1 ≠ 0) (tabs st) ∧ Forall (λ e, e.2 ≠ 0) (childSessions st).

(** ** The three look-ups as one function

    An intermediate form for the proofs: what the look-ups of
    [handleCommand] compute, written as one expression. *)
Definition bySessionId (st : State) (sid : string) : option (Z * TabInfo) :=
  getTabBySessionId (tabs st) sid.

Definition byChildSession (st : State) (sid : string) : option (Z * TabInfo) :=
  parent ← jm_get sid (childSessions st);
  tab ← jm_get parent (tabs st);
  Some (parent, tab).

Definition byEmbeddedTargetId (st : State) (params : option JsVal)
  : option (Z * TabInfo) :=
  v ← params;
  tid ← get_prop v "targetId";
  getTabByTargetId (tabs st) tid.

Definition resolve_in_priority_order (st : State) (p : CommandParams)
  : option (Z * TabInfo) :=
  match p_sessionId p ≫= bySessionId st with
  | Some r => Some r
  | None =>
      match p_sessionId p ≫= byChildSession st with
      | Some r => Some r
      | None => byEmbeddedTargetId st (p_params p)
      end
  end.

(** The tab [handleCommand] has resolved, if any. *)
Definition resolved (loc : Locals) : option (Z * TabInfo) :=
  match loc with
  | (Some id, Some tab) => Some (id, tab)
  | _ => None
  end.

Definition special_method (m : string) : bool :=
  String.eqb m "Runtime.enable" || String.eqb m "Target.createTarget"
  || String.eqb m "Target.closeTarget".

(** ** The resolution order in the words of the specification

    The tables are read here through membership and position only, not
    through the look-ups of the script. *)

(** [e] is the first entry of [tbl] with property [P]. *)
Definition first_entry {A} (P : A → Prop) (tbl : list A) (e : A) : Prop :=
  ∃ before after,
    tbl = before ++ e :: after ∧ P e ∧ ∀ x, x ∈ before → ¬ P x.

Definition no_entry {A} (P : A → Prop) (tbl : list A) : Prop :=
  ∀ x, x ∈ tbl → ¬ P x.

(** The tab has this session id; the tab has this target id, the value
    the command carries being that string. *)
Definition has_session (sid : string) (e : Z * TabInfo) : Prop :=
  sessionId e.2 = Some sid.
Definition has_target (tid : JsVal) (e : Z * TabInfo) : Prop :=
  ∃ s, tid = JStr s ∧ targetId e.2 = Some s.

(** The session id a command carries: a missing one and the empty string
    carry none. *)
Definition carried_sessionId (p : CommandParams) : option string :=
  match p_sessionId p with
  | Some sid => if String.eqb sid "" then None else Some sid
  | None => None
  end.

(** The [targetId] embedded in the command's params, if they are an
    object that has one. *)
Definition embedded_targetId (p : CommandParams) : option JsVal :=
  v ← p_params p; get_prop v "targetId".

(** Neither session strategy yields a tab. *)
Definition no_session_match (st : State) (p : CommandParams) : Prop :=
  ∀ sid, carried_sessionId p = Some sid →
    no_entry (has_session sid) (tabs st)
    ∧ ∀ parent, jm_get sid (childSessions st) = Some parent →
                jm_get parent (tabs st) = None.

(** The tab a command resolves to, by the three strategies in their
    order of priority. *)
Inductive resolves (st : State) (p : CommandParams)
  : option (Z * TabInfo) → Prop :=
| resolves_by_session sid e :
    carried_sessionId p = Some sid →
    first_entry (has_session sid) (tabs st) e →
    resolves st p (Some e)
| resolves_by_child_session sid parent tab :
    carried_sessionId p = Some sid →
    no_entry (has_session sid) (tabs st) →
    jm_get sid (childSessions st) = Some parent →
    jm_get parent (tabs st) = Some tab →
    resolves st p (Some (parent, tab))
| resolves_by_targetId tid e :
    no_session_match st p →
    embedded_targetId p = Some tid →
    first_entry (has_target tid) (tabs st) e →
    resolves st p (Some e)
| resolves_to_none :
    no_session_match st p →
    (∀ tid, embedded_targetId p = Some tid →
            no_entry (has_target tid) (tabs st)) →
    resolves st p None.

(** The protocol events among the effects, log lines left out. *)
Definition forwarded (out : list Effect) : list RelayMessage :=
  omap (λ e, match e with
             | Send (ForwardCDPEvent s m q) => Some (ForwardCDPEvent s m q)
             | _ => None
             end) out.

(** ** Facts about the tables *)

Lemma jm_get_elem_of {K V} `{EqDecision K} (k : K) (v : V) m :
  jm_get k m = Some v → (k, v) ∈ m.
Proof.
  induction m as [|[k' v'] m IH]; simpl; [done|].
  destruct (decide (k = k')) as [->|Hne].
  - intros [= ->]. apply elem_of_cons; by left.
  - intros Hm. apply elem_of_cons; right; auto.
Qed.

Lemma find_elem_of {A} (f : A → bool) l x :
  List.find f l = Some x → x ∈ l ∧ f x = true.
Proof.
  induction l as [|a l IH]; simpl; [done|].
  destruct (f a) eqn:Hfa.
  - intros [= ->]. split; [apply elem_of_cons; by left | done].
  - intros Hx. destruct (IH Hx). split; [apply elem_of_cons; by right | done].
Qed.

Lemma get_prop_object v k w :
  get_prop v k = Some w → truthy v && typeof_object v = true.
Proof. by destruct v. Qed.

Lemma Forall_jm_set {K V} `{EqDecision K} (P : K * V → Prop) k v m :
  P (k, v) → Forall P m → Forall P (jm_set k v m).
Proof.
  intros Hkv. induction 1 as [|[k' v'] m Hx Hm IH]; simpl.
  - by constructor.
  - destruct (decide (k = k')); constructor; auto.
Qed.

Lemma Forall_filter_keep {A} (P : A → Prop) (Q : A → Prop)
    `{∀ x, Decision (Q x)} l :
  Forall P l → Forall P (filter Q l).
Proof.
  intros HP. apply Forall_forall. intros x [_ Hx]%list_elem_of_filter.
  by eapply Forall_forall in HP.
Qed.

Lemma tab_ids_nonzero_detachTab st tabId b :
  tab_ids_nonzero st → tab_ids_nonzero (detachTab st tabId b).1.
Proof.
  intros [Ht Hc]. unfold detachTab. destruct (jm_get tabId (tabs st)); simpl.
  - split; simpl; by apply Forall_filter_keep.
  - done.
Qed.

(** Every table the script can build is free of tab id 0. *)
Lemma step_tab_ids_nonzero st st' :
  step st st' → tab_ids_nonzero st → tab_ids_nonzero st'.
Proof.
  intros Hstep [Ht Hc]. destruct Hstep; simpl.
  - split; simpl; [by apply Forall_jm_set | done].
  - split; simpl; [by apply Forall_jm_set | done].
  - split; simpl; [by apply Forall_jm_set | done].
  - by apply tab_ids_nonzero_detachTab.
  - unfold onDebuggerDetach. destruct src as [tabId|]; [|done].
    destruct ((tabId =? 0) || negb (jm_has tabId (tabs st))); [done|].
    split; simpl; by apply Forall_filter_keep.
  - unfold onTabRemoved. destruct (jm_has tabId (tabs st)); [|done].
    pose proof (tab_ids_nonzero_detachTab st tabId false (conj Ht Hc)) as H.
    by destruct (detachTab st tabId false).
  - unfold onDebuggerEvent. destruct (src_tabId source) as [tabId|]; [|done].
    destruct (tabId =? 0) eqn:Hz; [done|]. apply Z.eqb_neq in Hz.
    destruct (jm_get tabId (tabs st)); [|done].
    destruct (if String.eqb method "Target.attachedToTarget"
              then eventSessionId params else None);
      destruct (if String.eqb method "Target.detachedFromTarget"
                then eventSessionId params else None); simpl;
      (split; simpl; [done|]);
      repeat first [ done | apply Forall_filter_keep | apply Forall_jm_set ].
  - split; simpl; constructor.
  - done.
Qed.

Lemma reachable_tab_ids_nonzero st : reachable st → tab_ids_nonzero st.
Proof.
  unfold reachable. intros Hr.
  assert (Hinit : tab_ids_nonzero initial) by (split; constructor).
  revert Hinit. induction Hr as [|x y z Hxy _ IH]; [done|].
  intros Hx. apply IH. by eapply step_tab_ids_nonzero.
Qed.

(** The look-ups of [handleCommand] compute the prioritized resolver. *)
Lemma resolveTarget_priority st p :
  Forall (λ e, e.2 ≠ 0) (childSessions st) →
  p_sessionId p ≠ Some "" →
  resolved (resolveTarget st p).1 = resolve_in_priority_order st p.
Proof.
  intros Hc Hsid.
  unfold resolveTarget, resolve_in_priority_order, findBySessionId,
    checkChildSessions, findByTargetIdInParams, bySessionId, byChildSession,
    byEmbeddedTargetId.
  assert (Htarget : ∀ loc : Locals, loc.2 = None →
    resolved (match p_params p with
              | Some params =>
                  if truthy params && typeof_object params then
                    match get_prop params "targetId" with
                    | Some tid =>
                        match getTabByTargetId (tabs st) tid with
                        | Some found => (Some found.1, Some found.2)
                        | None => loc
                        end
                    | None => loc
                    end
                  else loc
              | None => loc
              end)
    = (v ← p_params p; tid ← get_prop v "targetId";
       getTabByTargetId (tabs st) tid)).
  { intros [a b]; simpl; intros ->.
    destruct (p_params p) as [v|]; simpl; [|by destruct a].
    destruct (get_prop v "targetId") as [tid|] eqn:Hp; simpl.
    - rewrite (get_prop_object _ _ _ Hp).
      destruct (getTabByTargetId (tabs st) tid) as [[i t]|]; simpl; [done|].
      by destruct a.
    - destruct (truthy v && typeof_object v); by destruct a. }
  destruct (p_sessionId p) as [sid|] eqn:Hs; simpl.
  - assert (String.eqb sid "" = false) as ->.
    { apply String.eqb_neq. congruence. }
    simpl. destruct (getTabBySessionId (tabs st) sid) as [[i t]|]; simpl; [done|].
    destruct (jm_get sid (childSessions st)) as [parent|] eqn:Hp; simpl.
    + assert (parent ≠ 0) as Hnz.
      { apply jm_get_elem_of in Hp. by eapply Forall_forall in Hc; [|done]. }
      apply Z.eqb_neq in Hnz. rewrite Hnz. simpl.
      destruct (jm_get parent (tabs st)) as [tab|] eqn:Ht; simpl; [done|].
      by rewrite (Htarget (Some parent, None)).
    + by rewrite (Htarget (None, None)).
  - by rewrite (Htarget (None, None)).
Qed.

Lemma resolved_Some (loc : Locals) i t :
  resolved loc = Some (i, t) → loc = (Some i, Some t).
Proof. destruct loc as [[?|] [?|]]; simpl; congruence. Qed.

Lemma resolved_None (loc : Locals) :
  resolved loc = None → debuggee_of loc.1 = None ∨ loc.2 = None.
Proof. destruct loc as [[?|] [?|]]; simpl; auto. discriminate. Qed.

Lemma resolve_in_priority_order_nonzero st p i t :
  tab_ids_nonzero st → resolve_in_priority_order st p = Some (i, t) → i ≠ 0.
Proof.
  intros [Ht Hc]. unfold resolve_in_priority_order, bySessionId,
    byChildSession, byEmbeddedTargetId.
  assert (Hfind : ∀ f, List.find f (tabs st) = Some (i, t) → i ≠ 0).
  { intros f [Hin _]%find_elem_of. by eapply Forall_forall in Ht; [|done]. }
  destruct (p_sessionId p) as [sid|]; simpl.
  - destruct (getTabBySessionId (tabs st) sid) eqn:H1.
    { intros [= ->]. by eapply Hfind. }
    destruct (jm_get sid (childSessions st)) as [parent|] eqn:H2; simpl.
    + destruct (jm_get parent (tabs st)) as [tab|] eqn:H3; simpl.
      * intros [= -> ->]. apply jm_get_elem_of in H3.
        by eapply Forall_forall in Ht; [|done].
      * destruct (p_params p) as [v|]; simpl; [|done].
        destruct (get_prop v "targetId"); simpl; [|done]. apply Hfind.
    + destruct (p_params p) as [v|]; simpl; [|done].
      destruct (get_prop v "targetId"); simpl; [|done]. apply Hfind.
  - destruct (p_params p) as [v|]; simpl; [|done].
    destruct (get_prop v "targetId"); simpl; [|done]. apply Hfind.
Qed.


(** ** Command dispatch *)

Lemma find_first_entry {A} (f : A → bool) l e :
  List.find f l = Some e ↔ first_entry (λ x, f x = true) l e.
Proof.
  split.
  - induction l as [|a l IH]; simpl; [done|].
    destruct (f a) eqn:Hfa.
    + intros [= ->]. exists [], l. split; [done|]. split; [done|].
      by intros x ?%elem_of_nil.
    + intros (before & after & -> & He & Hb)%IH.
      exists (a :: before), after. split; [done|]. split; [done|].
      intros x [->|Hx]%elem_of_cons; [congruence|by apply Hb].
  - intros (before & after & -> & He & Hb).
    induction before as [|a before IH]; simpl; [by rewrite He|].
    destruct (f a) eqn:Hfa.
    + destruct (Hb a); [apply elem_of_cons; by left|done].
    + apply IH. intros x Hx. apply Hb. apply elem_of_cons. by right.
Qed.

Lemma find_no_entry {A} (f : A → bool) l :
  List.find f l = None ↔ no_entry (λ x, f x = true) l.
Proof.
  split.
  - induction l as [|a l IH]; simpl; [by intros _ x ?%elem_of_nil|].
    destruct (f a) eqn:Hfa; [done|].
    intros Hl x [->|Hx]%elem_of_cons; [congruence|by apply IH].
  - intros Hno. induction l as [|a l IH]; simpl; [done|].
    destruct (f a) eqn:Hfa.
    + destruct (Hno a); [apply elem_of_cons; by left|done].
    + apply IH. intros x Hx. apply Hno. apply elem_of_cons. by right.
Qed.

Lemma first_entry_iff {A} (P Q : A → Prop) l e :
  (∀ x, P x ↔ Q x) → first_entry P l e ↔ first_entry Q l e.
Proof.
  intros HPQ. unfold first_entry.
  split; intros (before & after & -> & He & Hb); exists before, after;
    (split; [done|]); (split; [by apply HPQ|]); intros x Hx HP;
    apply (Hb x Hx); by apply HPQ.
Qed.

Lemma has_session_dec sid (e : Z * TabInfo) :
  bool_decide (sessionId e.2 = Some sid) = true ↔ has_session sid e.
Proof. apply bool_decide_eq_true. Qed.

Lemma has_target_dec tid (e : Z * TabInfo) :
  targetId_strict_eq (targetId e.2) tid = true ↔ has_target tid e.
Proof.
  unfold targetId_strict_eq, has_target. split.
  - destruct (targetId e.2) as [s|]; [|done]. destruct tid; try done.
    intros ->%bool_decide_eq_true. by eexists.
  - intros (s & -> & ->). by apply bool_decide_eq_true.
Qed.

Lemma getTabBySessionId_first tbl sid e :
  getTabBySessionId tbl sid = Some e ↔ first_entry (has_session sid) tbl e.
Proof.
  unfold getTabBySessionId. rewrite find_first_entry.
  apply first_entry_iff. intros x. apply has_session_dec.
Qed.

Lemma getTabBySessionId_none tbl sid :
  getTabBySessionId tbl sid = None ↔ no_entry (has_session sid) tbl.
Proof.
  unfold getTabBySessionId. rewrite find_no_entry. unfold no_entry.
  split; intros H x Hx Hp; apply (H x Hx); by apply has_session_dec.
Qed.

Lemma getTabByTargetId_first tbl tid e :
  getTabByTargetId tbl tid = Some e ↔ first_entry (has_target tid) tbl e.
Proof.
  unfold getTabByTargetId. rewrite find_first_entry.
  apply first_entry_iff. intros x. apply has_target_dec.
Qed.

Lemma getTabByTargetId_none tbl tid :
  getTabByTargetId tbl tid = None ↔ no_entry (has_target tid) tbl.
Proof.
  unfold getTabByTargetId. rewrite find_no_entry. unfold no_entry.
  split; intros H x Hx Hp; apply (H x Hx); by apply has_target_dec.
Qed.

(** A command with its session id as JavaScript reads it. *)
Definition as_carried (p : CommandParams) : CommandParams :=
  mkParams (carried_sessionId p) (p_method p) (p_params p).

Lemma resolveTarget_carried st p :
  (resolveTarget st p).1 = (resolveTarget st (as_carried p)).1.
Proof.
  unfold resolveTarget, findBySessionId, checkChildSessions,
    findByTargetIdInParams, as_carried, carried_sessionId. simpl.
  destruct (p_sessionId p) as [sid|]; [|done].
  destruct (String.eqb sid "") eqn:Hs; simpl; [done|]. rewrite Hs. simpl.
  destruct (getTabBySessionId (tabs st) sid) as [[i t]|]; simpl; [done|].
  destruct (jm_get sid (childSessions st)) as [parent|]; simpl; [|done].
  by destruct (negb (parent =? 0)).
Qed.

Lemma carried_sessionId_nonempty p : carried_sessionId p ≠ Some "".
Proof.
  unfold carried_sessionId. destruct (p_sessionId p) as [sid|]; [|done].
  destruct (String.eqb sid "") eqn:Hs; [done|].
  intros [= ->]. done.
Qed.

Lemma embedded_bind st p :
  byEmbeddedTargetId st (p_params p)
  = embedded_targetId p ≫= getTabByTargetId (tabs st).
Proof.
  unfold byEmbeddedTargetId, embedded_targetId. by destruct (p_params p).
Qed.

Lemma no_session_match_computed st p :
  no_session_match st p →
  resolve_in_priority_order st (as_carried p)
  = embedded_targetId p ≫= getTabByTargetId (tabs st).
Proof.
  intros Hno. unfold resolve_in_priority_order, as_carried, bySessionId,
    byChildSession. cbn [p_sessionId p_params]. rewrite embedded_bind.
  destruct (carried_sessionId p) as [sid|] eqn:Hs; simpl; [|done].
  destruct (Hno sid Hs) as [H1 H2].
  apply getTabBySessionId_none in H1. rewrite H1.
  destruct (jm_get sid (childSessions st)) as [parent|]; simpl; [|done].
  by rewrite (H2 parent eq_refl).
Qed.

(** What the look-ups compute is what the strategies, in their order,
    resolve to. *)
Lemma resolves_computed st p :
  resolves st p (resolve_in_priority_order st (as_carried p)).
Proof.
  assert (Htarget : no_session_match st p →
    resolves st p (resolve_in_priority_order st (as_carried p))).
  { intros Hno. rewrite (no_session_match_computed st p Hno).
    destruct (embedded_targetId p) as [tid|] eqn:He; simpl.
    - destruct (getTabByTargetId (tabs st) tid) as [e|] eqn:Hf.
      + apply (resolves_by_targetId _ _ tid); [done|done|].
        by apply getTabByTargetId_first.
      + apply resolves_to_none; [done|]. intros tid' Ht.
        rewrite He in Ht. injection Ht as <-.
        by apply getTabByTargetId_none.
    - apply resolves_to_none; [done|]. intros tid' Ht. congruence. }
  destruct (carried_sessionId p) as [sid|] eqn:Hs.
  2:{ apply Htarget. intros sid' Hs'. congruence. }
  destruct (getTabBySessionId (tabs st) sid) as [e|] eqn:H1.
  { unfold resolve_in_priority_order, as_carried, bySessionId.
    cbn [p_sessionId p_params]. rewrite Hs. simpl. rewrite H1.
    apply (resolves_by_session _ _ sid); [done|].
    by apply getTabBySessionId_first. }
  destruct (jm_get sid (childSessions st)) as [parent|] eqn:H2.
  2:{ apply Htarget. intros sid' Hs'. rewrite Hs in Hs'.
      injection Hs' as <-. split; [by apply getTabBySessionId_none|].
      intros q Hq. congruence. }
  destruct (jm_get parent (tabs st)) as [tab|] eqn:H3.
  2:{ apply Htarget. intros sid' Hs'. rewrite Hs in Hs'.
      injection Hs' as <-. split; [by apply getTabBySessionId_none|].
      intros q Hq. congruence. }
  unfold resolve_in_priority_order, as_carried, bySessionId, byChildSession.
  cbn [p_sessionId p_params]. rewrite Hs. simpl. rewrite H1, H2. simpl.
  rewrite H3. simpl.
  apply (resolves_by_child_session _ _ sid); [done| |done|done].
  by apply getTabBySessionId_none.
Qed.

Lemma resolves_functional st p r :
  resolves st p r → resolve_in_priority_order st (as_carried p) = r.
Proof.
  intros [sid e Hs He|sid parent tab Hs H1 H2 H3|tid e Hn He Hf|Hn Hall].
  - unfold resolve_in_priority_order, as_carried, bySessionId.
    cbn [p_sessionId p_params]. rewrite Hs. simpl.
    apply getTabBySessionId_first in He. by rewrite He.
  - unfold resolve_in_priority_order, as_carried, bySessionId, byChildSession.
    cbn [p_sessionId p_params]. rewrite Hs. simpl.
    apply getTabBySessionId_none in H1. rewrite H1, H2. simpl.
    by rewrite H3.
  - rewrite (no_session_match_computed st p Hn), He. simpl.
    by apply getTabByTargetId_first.
  - rewrite (no_session_match_computed st p Hn).
    destruct (embedded_targetId p) as [tid|] eqn:He; simpl; [|done].
    by apply getTabByTargetId_none, Hall.
Qed.

Lemma resolves_code st p r :
  tab_ids_nonzero st →
  resolves st p r → resolved (resolveTarget st p).1 = r.
Proof.
  intros [_ Hc] Hr. rewrite resolveTarget_carried.
  rewrite (resolveTarget_priority st (as_carried p) Hc
             (carried_sessionId_nonempty p)).
  by apply resolves_functional.
Qed.

(** C1. For every [forwardCDPCommand] message, in a state whose tables are
    free of tab id 0 (which every reachable state is, see
    [reachable_tab_ids_nonzero]), [handleCommand] resolves the tab by the
    session id the message carries against the tab table, then by that
    session id against the child-session table (giving the child's parent
    tab), then by a [targetId] embedded in the command's params: the tab it
    settles on is the one the three strategies resolve to in this order,
    and there is always exactly one such outcome. In particular a command
    whose session id is in neither table and whose params embed the target
    id of a tab is sent to that tab. A command that resolves is sent to the
    debugger of the resolved tab, and one that no strategy resolves, for a
    method other than the three handled specially, throws an error naming
    the method and the session id. *)
Theorem handleCommand_resolves_in_priority_order st msg :
  msg_method msg = "forwardCDPCommand" →
  tab_ids_nonzero st →
  let p := msg_params msg in
  (∃ r, resolves st p r)
  ∧ (∀ r, resolves st p r → resolved (resolveTarget st p).1 = r)
  ∧ (∀ sid tid e,
       carried_sessionId p = Some sid →
       no_entry (has_session sid) (tabs st) →
       jm_get sid (childSessions st) = None →
       embedded_targetId p = Some tid →
       first_entry (has_target tid) (tabs st) e →
       special_method (p_method p) = false →
       (handleCommand st msg).2
       = SendCommand e.1 (Some sid) (p_method p) (p_params p))
  ∧ (∀ tabId tab,
       resolves st p (Some (tabId, tab)) →
       special_method (p_method p) = false →
       (handleCommand st msg).2
       = SendCommand tabId
           (if decide (p_sessionId p = sessionId tab) then None
            else p_sessionId p)
           (p_method p) (p_params p))
  ∧ (resolves st p None →
     special_method (p_method p) = false →
     (handleCommand st msg).2
     = Throw ("No tab found for method " +:+ p_method p
              +:+ " sessionId: " +:+ show_opt (p_sessionId p))).
Proof.
  intros Hm Hnz p.
  assert (Hspecial : special_method (p_method p) = false →
    String.eqb (p_method p) "Runtime.enable" = false
    ∧ String.eqb (p_method p) "Target.createTarget" = false
    ∧ String.eqb (p_method p) "Target.closeTarget" = false).
  { unfold special_method. intros H.
    apply orb_false_elim in H as [H H3]. apply orb_false_elim in H as [H1 H2].
    done. }
  assert (Hsend : ∀ tabId tab,
    resolves st p (Some (tabId, tab)) →
    special_method (p_method p) = false →
    (handleCommand st msg).2
    = SendCommand tabId
        (if decide (p_sessionId p = sessionId tab) then None
         else p_sessionId p)
        (p_method p) (p_params p)).
  { intros tabId tab Hres [H1 [H2 H3]]%Hspecial.
    pose proof (resolves_code st p _ Hnz Hres) as Href.
    apply resolves_functional in Hres.
    pose proof (resolve_in_priority_order_nonzero _ _ _ _ Hnz Hres) as Hid.
    apply resolved_Some in Href.
    unfold handleCommand. rewrite Hm. simpl. fold p.
    destruct (resolveTarget st p) as [[a b] logs]. simpl in Href.
    injection Href as -> ->. rewrite H1, H2, H3. simpl.
    apply Z.eqb_neq in Hid. by rewrite Hid. }
  split; [eexists; apply resolves_computed|].
  split; [intros r; by apply resolves_code|]. split; [|split; [done|]].
  - intros sid tid [i tab] Hs Hno Hchild He Hfirst Hsp.
    assert (resolves st p (Some (i, tab))) as Hres.
    { apply (resolves_by_targetId _ _ tid); [|done|done].
      intros sid' Hs'. rewrite Hs in Hs'. injection Hs' as <-.
      split; [done|]. intros q Hq. congruence. }
    rewrite (Hsend i tab Hres Hsp). simpl.
    assert (p_sessionId p = Some sid) as Hp.
    { unfold carried_sessionId in Hs. destruct (p_sessionId p) as [s|]; [|done].
      by destruct (String.eqb s ""); simplify_eq. }
    rewrite Hp. rewrite decide_False; [done|].
    intros Heq. destruct Hfirst as (before & after & Htbl & _ & _).
    apply (Hno (i, tab)); [|by symmetry].
    rewrite Htbl. apply elem_of_app. right. apply elem_of_cons. by left.
  - intros Hres [H1 [H2 H3]]%Hspecial.
    pose proof (resolves_code st p _ Hnz Hres) as Href.
    apply resolved_None in Href.
    unfold handleCommand. rewrite Hm. simpl. fold p.
    destruct (resolveTarget st p) as [[a b] logs]. simpl in Href.
    rewrite H1, H2, H3.
    destruct Href as [-> | ->]; [done|]. by destruct (debuggee_of a).
Qed.

(** ** Detaching a tab *)

Lemma forwarded_app out1 out2 :
  forwarded (out1 ++ out2) = forwarded out1 ++ forwarded out2.
Proof. apply omap_app. Qed.

Lemma forwarded_log st args : forwarded (logger_debug st args) = [].
Proof. unfold logger_debug, sendMessage. by destruct (wsOpen st). Qed.

Lemma forwarded_event st tab :
  forwarded (sendMessage st (detachedEvent tab))
  = if wsOpen st then [detachedEvent tab] else [].
Proof. unfold sendMessage. by destruct (wsOpen st). Qed.

(** C3. For a tab in the tab table (the tables being free of tab id 0, see
    [reachable_tab_ids_nonzero]), the explicit detach ([detachTab]), the
    detach reported by the debugger ([onDebuggerDetach]) and the closing of
    the tab (the [tabs.onRemoved] listener) have the same effect: the one
    protocol event written to the relay is [Target.detachedFromTarget] with
    the tab's session id and target id, the three paths end in the same
    tables, the tab's entry is gone, and so is every child session whose
    parent was the tab, the other entries being kept. *)
Theorem detach_paths_agree st tabId tab reason :
  tab_ids_nonzero st →
  jm_get tabId (tabs st) = Some tab →
  let explicit := detachTab st tabId true in
  let reported := onDebuggerDetach st (Some tabId) reason in
  let closed := onTabRemoved st tabId in
  let announced := if wsOpen st then [detachedEvent tab] else [] in
  (forwarded explicit.2 = announced
   ∧ forwarded reported.2 = announced
   ∧ forwarded closed.2 = announced)
  ∧ (wsOpen st = true →
     Send (ForwardCDPEvent None "Target.detachedFromTarget"
             (DetachedFromTarget (sessionId tab) (targetId tab)))
     ∈ explicit.2)
  ∧ (reported.1 = explicit.1 ∧ closed.1 = explicit.1)
  ∧ jm_get tabId (tabs explicit.1) = None
  ∧ (∀ k, k ≠ tabId → jm_get k (tabs explicit.1) = jm_get k (tabs st))
  ∧ (∀ e, e ∈ childSessions explicit.1 ↔ e ∈ childSessions st ∧ e.2 ≠ tabId).
Proof.
  intros [Hids _] Htab. simpl.
  assert (tabId ≠ 0) as Hnz.
  { apply jm_get_elem_of in Htab. by eapply Forall_forall in Hids; [|done]. }
  assert (Hhas : jm_has tabId (tabs st) = true).
  { apply jm_has_true. eauto. }
  apply Z.eqb_neq in Hnz.
  unfold onTabRemoved, onDebuggerDetach, detachTab.
  rewrite Hhas, Hnz, Htab. simpl.
  assert (Hfw : ∀ pre post,
    forwarded (pre ++ sendMessage st (detachedEvent tab) ++ post)
    = forwarded pre ++ (if wsOpen st then [detachedEvent tab] else [])
      ++ forwarded post).
  { intros. by rewrite !forwarded_app, forwarded_event. }
  split; [split; [|split]|].
  - rewrite Hfw, forwarded_log. simpl. apply app_nil_r.
  - rewrite Hfw, forwarded_log. simpl. apply app_nil_r.
  - rewrite forwarded_app, Hfw, !forwarded_log. simpl. apply app_nil_r.
  - split; [|split; [done|split; [|split]]].
    + intros Hopen. unfold sendMessage, detachedEvent. rewrite Hopen.
      apply elem_of_app; right. apply elem_of_cons; by left.
    + apply jm_get_delete_eq.
    + intros k Hk. by apply jm_get_delete_ne.
    + intros e. unfold dropChildrenOf. rewrite list_elem_of_filter. tauto.
Qed.

(** ** A concrete relay state

    Tab 7 is attached as [pw-tab-1] with one iframe session under it; tab 9
    is attached as [pw-tab-2]. *)
Definition demo_state : State :=
  mkState
    [(7, mkTabInfo (Some "pw-tab-1") (Some "T-7") connected None);
     (9, mkTabInfo (Some "pw-tab-2") (Some "T-9") connected None)]
    [("iframe-A", 7)] true 3.

Definition demo_command (sid : option string) (method : string)
    (params : option JsVal) : ExtensionCommandMessage :=
  mkMsg 1 "forwardCDPCommand" (mkParams sid method params).

Example demo_state_reachable : reachable demo_state.
Proof.
  unfold reachable.
  eapply rtc_l; [apply step_open|].
  eapply rtc_l; [apply (step_attach _ 7 (mkTargetInfo "T-7" "about:blank" false));
                 done|].
  eapply rtc_l; [apply (step_attach _ 9 (mkTargetInfo "T-9" "about:blank" false));
                 done|].
  eapply rtc_l;
    [apply (step_event _ (mkSource (Some 7) None) "Target.attachedToTarget"
              (Some (JObj [("sessionId", JStr "iframe-A")])))|].
  vm_compute. apply rtc_refl.
Qed.

Example command_to_top_level_session :
  (handleCommand demo_state
     (demo_command (Some "pw-tab-2") "Page.navigate" None)).2
  = SendCommand 9 None "Page.navigate" None.
Proof. reflexivity. Qed.

Example command_with_unknown_session_and_target :
  (handleCommand demo_state
     (demo_command (Some "gone") "Page.navigate"
        (Some (JObj [("targetId", JStr "T-9")])))).2
  = SendCommand 9 (Some "gone") "Page.navigate"
      (Some (JObj [("targetId", JStr "T-9")])).
Proof. reflexivity. Qed.

Example command_with_unknown_session :
  (handleCommand demo_state
     (demo_command (Some "gone") "Page.navigate" None)).2
  = Throw "No tab found for method Page.navigate sessionId: gone".
Proof. reflexivity. Qed.

Lemma handleCommand_resolves_in_priority_order_witness :
  (handleCommand demo_state
     (demo_command (Some "gone") "Page.navigate"
        (Some (JObj [("targetId", JStr "T-9")])))).2
  = SendCommand 9 (Some "gone") "Page.navigate"
      (Some (JObj [("targetId", JStr "T-9")])).
Proof.
  pose proof (handleCommand_resolves_in_priority_order demo_state
    (demo_command (Some "gone") "Page.navigate"
       (Some (JObj [("targetId", JStr "T-9")])))) as H.
  simpl in H.
  destruct H as (_ & _ & Hembedded & _).
  - reflexivity.
  - split; repeat constructor; simpl; lia.
  - apply (Hembedded "gone" (JStr "T-9")
             (9, mkTabInfo (Some "pw-tab-2") (Some "T-9") connected None)).
    + reflexivity.
    + intros x Hx Hs. unfold has_session in Hs.
      apply elem_of_cons in Hx as [->|Hx]; [discriminate|].
      apply list_elem_of_singleton in Hx as ->. discriminate.
    + reflexivity.
    + reflexivity.
    + exists [(7, mkTabInfo (Some "pw-tab-1") (Some "T-7") connected None)], [].
      split; [reflexivity|]. split; [by exists "T-9"|].
      intros x ->%list_elem_of_singleton (s & [= <-] & Hs). discriminate.
    + reflexivity.
Defined.

Lemma detach_paths_agree_witness :
  forwarded (onDebuggerDetach demo_state (Some 7) "target_closed").2
  = [ForwardCDPEvent None "Target.detachedFromTarget"
       (DetachedFromTarget (Some "pw-tab-1") (Some "T-7"))]
  ∧ (onTabRemoved demo_state 7).1 = (detachTab demo_state 7 true).1
  ∧ childSessions (detachTab demo_state 7 true).1 = [].
Proof.
  pose proof (detach_paths_agree demo_state 7
    (mkTabInfo (Some "pw-tab-1") (Some "T-7") connected None)
    "target_closed") as H.
  destruct H as ((_ & Hrep & _) & _ & (_ & Hclosed) & _).
  - split; repeat constructor; simpl; lia.
  - reflexivity.
  - split; [exact Hrep|]. split; [exact Hclosed | reflexivity].
Defined.

End Relay.

(* ===================================================================== *)
(** * Ports and the server registry ([config.ts]) *)
(* ===================================================================== *)

Module Config.

Inductive ServerMode := standalone | external.

Record ServerInfo := mkServerInfo {
  pid : Z;
  cdpPort : option Z;
  browserPid : option Z;
  mode : ServerMode;
  startedAt : string
}.

(** A value of [active-servers.json]: the old format stored the pid alone. *)
Inductive FileValue :=
| LegacyPid (p : Z)
| Info (info : ServerInfo).

Record OrphanedBrowser := mkOrphan {
  orphan_cdpPort : Z;
  orphan_pid : Z
}.

Record PortRange := mkRange {
  range_start : Z;
  range_end : Z;
  range_step : Z
}.

Inductive PortResult :=
| PortFound (port : Z)
| PortError (message : string).

(** [registerServer]'s [options]. *)
Record RegisterOptions := mkRegisterOptions {
  ro_cdpPort : option Z;
  ro_browserPid : option Z;
  ro_mode : option ServerMode
}.

(** [if (n)] on an optional number: a missing number and [0] are falsy. *)
Definition truthy_num (n : option Z) : option Z :=
  match n with
  | Some n => if n =? 0 then None else Some n
  | None => None
  end.

Section Environment.
Set Default Proof Using "Type".

(** [processExists]: whether [process.kill(pid, 0)] succeeds. *)
Variable processExists : Z → bool.
(** [getProcessOnPort]: the first pid [lsof -ti:port] prints, if any. *)
Variable getProcessOnPort : Z → option Z.
(** Whether [listen(port)], respectively [listen(port, "0.0.0.0")], on a
    fresh server succeeds, for a port that [listen] accepts. *)
Variable bindDefault : Z → bool.
Variable bindIPv4 : Z → bool.
(** [new Date(s).getTime()], [None] for [NaN]; [parseInt(s, 10)]. *)
Variable dateGetTime : string → option Z.
Variable parseInt10 : string → option Z.

(** ** Port allocation *)

(** [server.listen] accepts the ports 0 to 65535; for any other number it
    throws a [RangeError] ([ERR_SOCKET_BAD_PORT]) at once, with this
    message. *)
Definition valid_port (port : Z) : bool := (0 <=? port) && (port <=? 65535).

Definition bad_port_message (port : Z) : string :=
  "options.port should be >= 0 and < 65536. Received type number ("
  +:+ pretty port +:+ ").".

(** [isPortAvailable]. [None]: [listen] throws inside the promise, the
    promise rejects and so does [isPortAvailable]. *)
Definition isPortAvailable (port : Z) : option bool :=
  if valid_port port then
    let defaultAvailable := bindDefault port in
    if negb defaultAvailable then Some false
    else
      let ipv4Available := bindIPv4 port in
      Some ipv4Available
  else None.

Definition exhausted_message (r : PortRange) : string :=
  "No available ports in range " +:+ pretty (range_start r) +:+ "-"
  +:+ pretty (range_end r) +:+ " (step " +:+ pretty (range_step r) +:+ "). "
  +:+ "Too many dev-browser servers may be running. "
  +:+ "Check ~/.dev-browser/active-servers.json for active servers.".

(** The [for] loop of [findAvailablePort] from [port] on. The loop need
    not end (a step of 0 never leaves a busy port), so it runs on fuel:
    [None] is "still looping". A rejected [isPortAvailable] rejects
    [findAvailablePort] with the same error. *)
Fixpoint findAvailablePort_from (fuel : nat) (r : PortRange) (port : Z)
  : option PortResult :=
  match fuel with
  | O => None
  | S fuel' =>
      if port <? range_end r then
        match isPortAvailable port with
        | Some true => Some (PortFound port)
        | Some false => findAvailablePort_from fuel' r (port + range_step r)
        | None => Some (PortError (bad_port_message port))
        end
      else Some (PortError (exhausted_message r))
  end.

Definition findAvailablePort (fuel : nat) (r : PortRange)
  : option PortResult :=
  findAvailablePort_from fuel r (range_start r).

(** ** The servers file

    The file is [None] when it does not exist or does not parse. Both
    clock readings of one call are taken at the same instant [now]. *)

Definition loadServersFile (now : string)
    (file : option (gmap string FileValue)) : gmap string ServerInfo :=
  match file with
  | None => ∅
  | Some data =>
      (λ value,
         match value with
         | LegacyPid p => mkServerInfo p None None standalone now
         | Info info => info
         end) <$> data
  end.

Definition saveServersFile (servers : gmap string ServerInfo)
  : option (gmap string FileValue) :=
  Some (Info <$> servers).

Definition alive (e : string * ServerInfo) : Prop :=
  processExists (pid e.2) = true.

(** [cleanupStaleEntries]: the entries whose process exists. *)
Definition cleanupStaleEntries (servers : gmap string ServerInfo)
  : gmap string ServerInfo :=
  filter alive servers.

Definition registerServer (port pid : Z) (options : option RegisterOptions)
    (now : string) (file : option (gmap string FileValue))
  : option (gmap string FileValue) :=
  let servers := loadServersFile now file in
  let servers := cleanupStaleEntries servers in
  let servers :=
    <[pretty port :=
        mkServerInfo pid (options ≫= ro_cdpPort) (options ≫= ro_browserPid)
          (default standalone (options ≫= ro_mode)) now]> servers in
  saveServersFile servers.

Definition unregisterServer (port : Z) (now : string)
    (file : option (gmap string FileValue))
  : option (gmap string FileValue) * Z :=
  let servers := loadServersFile now file in
  let servers := delete (pretty port) servers in
  let servers := cleanupStaleEntries servers in
  (saveServersFile servers, Z.of_nat (size servers)).

Definition getActiveServerCount (now : string)
    (file : option (gmap string FileValue)) : Z :=
  let servers := loadServersFile now file in
  let cleaned := cleanupStaleEntries servers in
  Z.of_nat (size cleaned).

(** The loop of [getMostRecentServer]. [Object.entries] visits the keys
    that are integers in ascending order and then the other keys in the
    order of their insertion, which the map does not record: the entries
    are visited in the order of [map_to_list] here. The order decides
    only between entries that share the latest start time; what is proved
    of the result below holds for every order. *)
Definition mostRecent_step
    (acc : option (option Z * ServerInfo) * Z) (e : string * ServerInfo)
  : option (option Z * ServerInfo) * Z :=
  match dateGetTime (startedAt e.2) with
  | Some t => if acc.2 <? t then (Some (parseInt10 e.1, e.2), t) else acc
  | None => acc
  end.

Definition getMostRecentServer (now : string)
    (file : option (gmap string FileValue))
  : option (gmap string FileValue) * option (option Z * ServerInfo) :=
  let servers := loadServersFile now file in
  let cleaned := cleanupStaleEntries servers in
  let file' :=
    if decide (size servers ≠ size cleaned) then saveServersFile cleaned
    else file in
  (file', (foldl mostRecent_step (None, 0) (map_to_list cleaned)).1).

(** The loop of [killStaleServers]: [delete servers[portStr]; killed++]. *)
Definition killStale_step
    (acc : gmap string ServerInfo * Z) (e : string * ServerInfo)
  : gmap string ServerInfo * Z :=
  if negb (processExists (pid e.2)) then (delete e.1 acc.1, acc.2 + 1)
  else acc.

Definition killStaleServers (now : string)
    (file : option (gmap string FileValue))
  : option (gmap string FileValue) * Z :=
  let servers := loadServersFile now file in
  let '(servers', killed) :=
    foldl killStale_step (servers, 0) (map_to_list servers) in
  ((if 0 <? killed then saveServersFile servers' else file), killed).

(** ** Orphan detection *)

(** "Get CDP ports that have active servers". *)
Definition activeCdpPorts (cleanedServers : gmap string ServerInfo)
  : gset Z :=
  list_to_set (omap (λ e, truthy_num (cdpPort e.2))
                 (map_to_list cleanedServers)).

Definition defaultCdpPorts : list Z := [9223; 9225; 9227; 9229; 9231].

Definition detectOrphanedBrowsers (cdpPorts : option (list Z))
    (now : string) (file : option (gmap string FileValue))
  : list OrphanedBrowser :=
  let servers := loadServersFile now file in
  let cleanedServers := cleanupStaleEntries servers in
  let active := activeCdpPorts cleanedServers in
  let portsToCheck := default defaultCdpPorts cdpPorts in
  omap (λ port,
          if decide (port ∈ active) then None
          else
            match getProcessOnPort port with
            | Some p => Some (mkOrphan port p)
            | None => None
            end) portsToCheck.


(** ** Port allocation: results *)







(** ** Orphan detection: results *)

Lemma truthy_num_Some n port :
  port ≠ 0 → truthy_num n = Some port ↔ n = Some port.
Proof.
  intros Hnz. unfold truthy_num. destruct n as [n|]; [|done].
  destruct (n =? 0) eqn:Hn.
  - apply Z.eqb_eq in Hn. subst n. split; [done | by intros [= <-]].
  - done.
Qed.

Lemma elem_of_activeCdpPorts servers port :
  port ≠ 0 →
  port ∈ activeCdpPorts (cleanupStaleEntries servers) ↔
  ∃ k info, servers !! k = Some info ∧ processExists (pid info) = true
            ∧ cdpPort info = Some port.
Proof.
  intros Hnz. unfold activeCdpPorts, cleanupStaleEntries.
  rewrite elem_of_list_to_set, list_elem_of_omap. split.
  - intros [[k info] [Hin Hport]]. simpl in Hport.
    apply elem_of_map_to_list, map_lookup_filter_Some in Hin as [Hk Ha].
    unfold alive in Ha. simpl in Ha.
    apply (proj1 (truthy_num_Some _ _ Hnz)) in Hport. by exists k, info.
  - intros (k & info & Hk & Ha & Hport). exists (k, info). split.
    + apply elem_of_map_to_list, map_lookup_filter_Some. done.
    + simpl. by apply truthy_num_Some.
Qed.

(** C6. On a machine where nothing listens on port 0, a candidate CDP port
    is reported as an orphan [{cdpPort, pid}] exactly when a process [pid]
    listens on it and no registry entry of a live process claims it. So a
    port claimed by a live entry is never reported, whoever listens on it,
    and a port claimed only by entries of dead processes is reported as
    soon as a process listens on it. *)
Theorem detectOrphanedBrowsers_iff cdpPorts now file port p :
  getProcessOnPort 0 = None →
  let servers := loadServersFile now file in
  let claimed_live :=
    ∃ k info, servers !! k = Some info ∧ processExists (pid info) = true
              ∧ cdpPort info = Some port in
  (mkOrphan port p ∈ detectOrphanedBrowsers cdpPorts now file ↔
     port ∈ default defaultCdpPorts cdpPorts
     ∧ getProcessOnPort port = Some p
     ∧ ¬ claimed_live)
  ∧ (claimed_live →
     ∀ p', mkOrphan port p' ∉ detectOrphanedBrowsers cdpPorts now file)
  ∧ ((∀ k info, servers !! k = Some info → cdpPort info = Some port →
        processExists (pid info) = false) →
     port ∈ default defaultCdpPorts cdpPorts →
     getProcessOnPort port = Some p →
     mkOrphan port p ∈ detectOrphanedBrowsers cdpPorts now file).
Proof.
  intros Hzero servers claimed_live.
  assert (Hiff : ∀ q,
    mkOrphan port q ∈ detectOrphanedBrowsers cdpPorts now file ↔
      port ∈ default defaultCdpPorts cdpPorts
      ∧ getProcessOnPort port = Some q ∧ ¬ claimed_live).
  { intros q. unfold detectOrphanedBrowsers. rewrite list_elem_of_omap.
    fold servers. destruct (decide (port = 0)) as [Hz|Hnz].
    { split.
      - intros [x [Hin Hx]]. destruct (decide (x ∈ _)); [done|].
        destruct (getProcessOnPort x) as [q'|] eqn:Hq; [|done].
        injection Hx as -> ->. rewrite Hz, Hzero in Hq. discriminate.
      - intros (_ & Hq & _). rewrite Hz, Hzero in Hq. discriminate. }
    split.
    - intros [x [Hin Hx]]. destruct (decide (x ∈ _)) as [|Hout]; [done|].
      destruct (getProcessOnPort x) as [q'|] eqn:Hq; [|done].
      injection Hx as -> ->. split; [done|]. split; [done|].
      intros Hc. apply Hout. by apply elem_of_activeCdpPorts.
    - intros (Hin & Hq & Hc). exists port. split; [done|].
      rewrite decide_False, Hq; [done|].
      intros Hact. apply Hc. by apply elem_of_activeCdpPorts in Hact. }
  split; [apply Hiff|]. split.
  - intros Hc p' Hin. apply Hiff in Hin as (_ & _ & Hn). by apply Hn.
  - intros Hdead Hin Hq. apply Hiff. split; [done|]. split; [done|].
    intros (k & info & Hk & Ha & Hport).
    specialize (Hdead k info Hk Hport). rewrite Hdead in Ha. discriminate.
Qed.


(** ** The registry: results *)

(** What pruning leaves under key [k]: the entry, if its process exists. *)
Definition kept (servers : gmap string ServerInfo) (k : string)
  : option ServerInfo :=
  servers !! k ≫= λ info, if processExists (pid info) then Some info else None.

Lemma lookup_cleanupStaleEntries servers k :
  cleanupStaleEntries servers !! k = kept servers k.
Proof.
  unfold cleanupStaleEntries, kept. rewrite map_lookup_filter.
  destruct (servers !! k) as [info|]; simpl; [|done].
  unfold alive. simpl. case_guard as Hg; simpl.
  - by rewrite Hg.
  - by destruct (processExists (pid info)).
Qed.

Lemma load_save now servers :
  loadServersFile now (saveServersFile servers) = servers.
Proof.
  unfold loadServersFile, saveServersFile. apply map_eq. intros k.
  rewrite !lookup_fmap. by destruct (servers !! k).
Qed.



Lemma killStale_fold_count l m n :
  (foldl killStale_step (m, n) l).2
  = n + Z.of_nat (length (filter (λ e, ¬ alive e) l)).
Proof.
  revert m n. induction l as [|e l IH]; intros m n; simpl; [lia|].
  unfold killStale_step at 2. rewrite filter_cons.
  destruct (decide (¬ alive e)) as [Hdead|Hlive]; unfold alive in *.
  - apply not_true_is_false in Hdead. rewrite Hdead. simpl.
    rewrite IH. lia.
  - apply dec_stable in Hlive. rewrite Hlive. simpl. apply IH.
Qed.




End Environment.


(** ** A concrete machine

    Processes 4242 and 5151 run, 6000 has died. The registry holds a live
    external server on port 19222 (CDP port 9223), a dead server on 19224
    (CDP port 9225) and an old-format entry of a live process on 19226.
    Browsers listen on the CDP ports 9223 and 9225. *)
Definition demo_processExists (p : Z) : bool := (p =? 4242) || (p =? 5151).

Definition demo_listening (port : Z) : option Z :=
  if port =? 9223 then Some 7001
  else if port =? 9225 then Some 7002
  else None.

Definition demo_live : ServerInfo :=
  mkServerInfo 4242 (Some 9223) None external "2026-11-02T10:00:00.000Z".
Definition demo_dead : ServerInfo :=
  mkServerInfo 6000 (Some 9225) None standalone "2026-11-01T09:00:00.000Z".

Definition demo_file : option (gmap string FileValue) :=
  Some (<["19222" := Info demo_live]>
          (<["19224" := Info demo_dead]> (<["19226" := LegacyPid 5151]> ∅))).

Definition demo_now : string := "2026-11-02T12:00:00.000Z".

Example demo_detectOrphanedBrowsers :
  detectOrphanedBrowsers demo_processExists demo_listening None demo_now
    demo_file
  = [mkOrphan 9225 7002].
Proof. vm_compute. reflexivity. Qed.

Example demo_unregisterServer_count :
  (unregisterServer demo_processExists 19222 demo_now demo_file).2 = 1.
Proof. vm_compute. reflexivity. Qed.

Example demo_killStaleServers_count :
  (killStaleServers demo_processExists demo_now demo_file).2 = 1.
Proof. vm_compute. reflexivity. Qed.

(** Ports 19222 and 19224 are taken, 19226 is free. *)
Definition demo_bind (port : Z) : bool :=
  negb ((port =? 19222) || (port =? 19224)).

Example demo_findAvailablePort :
  findAvailablePort demo_bind (λ _, true) 100 (mkRange 19222 19300 2)
  = Some (PortFound 19226).
Proof. vm_compute. reflexivity. Qed.

Example demo_findAvailablePort_exhausted :
  findAvailablePort demo_bind (λ _, true) 100 (mkRange 19222 19226 2)
  = Some (PortError
            ("No available ports in range 19222-19226 (step 2). "
             +:+ "Too many dev-browser servers may be running. "
             +:+ "Check ~/.dev-browser/active-servers.json for active servers.")).
Proof. vm_compute. reflexivity. Qed.

(** With a step of 0 a busy first port is probed for ever. *)
Example findAvailablePort_step_0 fuel :
  findAvailablePort demo_bind (λ _, true) fuel (mkRange 19222 19300 0) = None.
Proof. induction fuel as [|fuel IH]; [done|]. exact IH. Qed.



Lemma detectOrphanedBrowsers_iff_witness :
  mkOrphan 9225 7002
  ∈ detectOrphanedBrowsers demo_processExists demo_listening None demo_now
      demo_file
  ∧ ∀ p, mkOrphan 9223 p
         ∉ detectOrphanedBrowsers demo_processExists demo_listening None
             demo_now demo_file.
Proof.
  split.
  - pose proof (detectOrphanedBrowsers_iff demo_processExists demo_listening
                  None demo_now demo_file 9225 7002) as H.
    destruct H as (_ & _ & Hdead); [reflexivity|].
    apply Hdead.
    + intros k info Hk Hport.
      destruct (decide (k = "19224")) as [->|Hne].
      * vm_compute in Hk. by injection Hk as <-.
      * destruct (decide (k = "19222")) as [->|Hne2].
        { vm_compute in Hk. injection Hk as <-. discriminate. }
        destruct (decide (k = "19226")) as [->|Hne3].
        { vm_compute in Hk. injection Hk as <-. discriminate. }
        unfold demo_file, loadServersFile in Hk.
        rewrite lookup_fmap, !lookup_insert_ne, lookup_empty in Hk by done.
        discriminate.
    + simpl. apply elem_of_cons; right. apply elem_of_cons; by left.
    + reflexivity.
  - intros p.
    pose proof (detectOrphanedBrowsers_iff demo_processExists demo_listening
                  None demo_now demo_file 9223 p) as H.
    destruct H as (_ & Hlive & _); [reflexivity|].
    apply Hlive. exists "19222", demo_live. split; [|split]; reflexivity.
Defined.



End Config.

(* ===================================================================== *)
(** * The page server ([external-browser.ts]) *)
(* ===================================================================== *)

Module Server.
Import Js.

(** ** Start-up *)

(** A port as a caller hands it over. It is a JS number; the launcher
    script makes it with [parseInt(process.env.PORT, 10)], which gives an
    integer or [NaN]. *)
Inductive JsNumber :=
| Int (z : Z)
| NaN.

(** [`${n}`]. *)
Definition show (n : JsNumber) : string :=
  match n with
  | Int z => pretty z
  | NaN => "NaN"
  end.

(** [a < b] and [a === b] on numbers: both are false when a side is
    [NaN]. *)
Definition lt (a b : JsNumber) : bool :=
  match a, b with
  | Int x, Int y => x <? y
  | _, _ => false
  end.

Definition strict_eq (a b : JsNumber) : bool :=
  match a, b with
  | Int x, Int y => x =? y
  | _, _ => false
  end.

Record ExternalBrowserOptions := mkOptions {
  opt_port : option JsNumber;
  opt_cdpPort : option JsNumber;
  opt_browserPath : option string;
  opt_userDataDir : option string;
  opt_autoLaunch : option bool;
  opt_idleTimeout : option Z
}.

(** What the start-up reads from outside: the loaded configuration, the
    answer of [findAvailablePort(config)], whether the browser answers on
    its CDP port, the endpoint [getCdpEndpoint] obtains ([None]: it gave up)
    and whether [connectOverCDP] succeeds. *)
Record StartupEnv := mkEnv {
  env_portRange : Config.PortRange;
  env_cdpPort : Z;
  env_found : Config.PortResult;
  env_running : bool;
  env_endpoint : option string;
  env_connects : bool;
  env_pid : Z
}.

(** The calls of [serveWithExternalBrowser] that reach outside the
    function, in program order ([console.log] lines are left out).
    [LaunchBrowserDetached] is the call of [launchBrowserDetached] with
    its three arguments; the process this call starts is given by
    [Launch.launchBrowserDetached] below. *)
Inductive StartupEffect :=
| KillStaleServers
| LoadConfig
| FindAvailablePort
| IsBrowserRunning (cdpPort : JsNumber)
| LaunchBrowserDetached (path : string) (cdpPort : JsNumber)
    (userDataDir : option string)
| GetCdpEndpoint (cdpPort : JsNumber)
| ConnectOverCDP (cdpPort : JsNumber)
| Listen (port : JsNumber)
| RegisterServer (port : JsNumber) (pid : Z) (cdpPort : JsNumber)
| WritePortFile (port : JsNumber)
| OutputPortForDiscovery (port : JsNumber)
| SetIdleTimer (ms : Z)
| InstallHandlers.

Inductive StartupResult :=
| Started (port : JsNumber) (wsEndpoint : string)
| Failed (message : string).

Definition IDLE_TIMEOUT_MS : Z := 30 * 60 * 1000.

Definition invalid_port_message (port : JsNumber) : string :=
  "Invalid port: " +:+ show port +:+ ". Must be between 1 and 65535".
Definition invalid_cdpPort_message (cdpPort : JsNumber) : string :=
  "Invalid cdpPort: " +:+ show cdpPort +:+ ". Must be between 1 and 65535".
Definition same_port_message : string := "port and cdpPort must be different".

(** A non-empty string is truthy. *)
Definition truthy_path (p : option string) : option string :=
  match p with
  | Some s => if String.eqb s "" then None else Some s
  | None => None
  end.

(** What [isBrowserRunning(cdpPort)] answers and what
    [getCdpEndpoint(cdpPort)] returns. Both fetch
    [`http://127.0.0.1:${cdpPort}/json/version`]. With [NaN] for the port
    this is no URL: the fetch throws, which both functions catch, so the
    first answers [false] and the second gives up. *)
Definition answer_isBrowserRunning (env : StartupEnv) (cdpPort : JsNumber)
  : bool :=
  match cdpPort with
  | Int _ => env_running env
  | NaN => false
  end.

Definition answer_getCdpEndpoint (env : StartupEnv) (cdpPort : JsNumber)
  : option string :=
  match cdpPort with
  | Int _ => env_endpoint env
  | NaN => None
  end.

(** [app.listen(port)] throws a [RangeError] for a port that is no integer
    in [0..65535], with this message. *)
Definition listen_throws (port : JsNumber) : option string :=
  match port with
  | Int z =>
      if Config.valid_port z then None else Some (Config.bad_port_message z)
  | NaN =>
      Some "options.port should be >= 0 and < 65536. Received type number (NaN)."
  end.

(** [serveWithExternalBrowser] from the port validation on. *)
Definition serve_validated (options : ExternalBrowserOptions)
    (env : StartupEnv) (port cdpPort : JsNumber)
  : list StartupEffect * StartupResult :=
  let autoLaunch := default true (opt_autoLaunch options) in
  let idleTimeout := default IDLE_TIMEOUT_MS (opt_idleTimeout options) in
  if lt port (Int 1) || lt (Int 65535) port then
    ([], Failed (invalid_port_message port))
  else if lt cdpPort (Int 1) || lt (Int 65535) cdpPort then
    ([], Failed (invalid_cdpPort_message cdpPort))
  else if strict_eq port cdpPort then
    ([], Failed same_port_message)
  else
    let probe := [IsBrowserRunning cdpPort] in
    let launch :=
      if answer_isBrowserRunning env cdpPort then inl []
      else
        match autoLaunch, truthy_path (opt_browserPath options) with
        | true, Some path =>
            inl [LaunchBrowserDetached path cdpPort (opt_userDataDir options)]
        | true, None =>
            inr ("Browser not running on port " +:+ show cdpPort
                 +:+ " and no browserPath provided for auto-launch. "
                 +:+ "Either start the browser manually with "
                 +:+ "--remote-debugging-port=" +:+ show cdpPort
                 +:+ " or provide browserPath.")
        | false, _ =>
            inr ("Browser not running on port " +:+ show cdpPort +:+ ". "
                 +:+ "Start it with --remote-debugging-port="
                 +:+ show cdpPort)
        end in
    match launch with
    | inr message => (probe, Failed message)
    | inl launched =>
        match answer_getCdpEndpoint env cdpPort with
        | None =>
            (probe ++ launched ++ [GetCdpEndpoint cdpPort],
             Failed ("Browser did not start on port " +:+ show cdpPort
                     +:+ " within 30s"))
        | Some wsEndpoint =>
            if env_connects env then
              match listen_throws port with
              | Some message =>
                  (probe ++ launched
                   ++ [GetCdpEndpoint cdpPort; ConnectOverCDP cdpPort;
                       Listen port],
                   Failed message)
              | None =>
                  (probe ++ launched
                   ++ [GetCdpEndpoint cdpPort; ConnectOverCDP cdpPort;
                       Listen port; RegisterServer port (env_pid env) cdpPort;
                       WritePortFile port; OutputPortForDiscovery port]
                   ++ (if 0 <? idleTimeout then [SetIdleTimer idleTimeout]
                       else [])
                   ++ [InstallHandlers],
                   Started port wsEndpoint)
              end
            else
              (probe ++ launched
               ++ [GetCdpEndpoint cdpPort; ConnectOverCDP cdpPort],
               Failed "connectOverCDP failed")
        end
    end.

(** [options.port ?? await findAvailablePort(config)]: the port, or the
    message of the error [findAvailablePort] throws. *)
Definition resolve_port (options : ExternalBrowserOptions) (env : StartupEnv)
  : list StartupEffect * (JsNumber + string) :=
  match opt_port options with
  | Some port => ([], inl port)
  | None =>
      ([FindAvailablePort],
       match env_found env with
       | Config.PortFound port => inl (Int port)
       | Config.PortError message => inr message
       end)
  end.

Definition serveWithExternalBrowser (options : ExternalBrowserOptions)
    (env : StartupEnv) : list StartupEffect * StartupResult :=
  let '(probing, found) := resolve_port options env in
  let before := [KillStaleServers; LoadConfig] ++ probing in
  match found with
  | inr message => (before, Failed message)
  | inl port =>
      let cdpPort := default (Int (env_cdpPort env)) (opt_cdpPort options) in
      let '(effects, result) := serve_validated options env port cdpPort in
      (before ++ effects, result)
  end.

(** The effects the port validation must come before. *)
Definition touches_browser_or_server (e : StartupEffect) : bool :=
  match e with
  | IsBrowserRunning _ | LaunchBrowserDetached _ _ _ | GetCdpEndpoint _
  | ConnectOverCDP _ | Listen _ | RegisterServer _ _ _ => true
  | _ => false
  end.

(** ** The page registry routes *)

(** A page handle is known by its identity only. *)
Definition Page : Type := nat.

Record PageEntry := mkEntry {
  page : Page;
  targetId : string
}.

Inductive Body :=
| ErrorBody (error : string)
| PageBody (wsEndpoint name targetId mode : string)
| PagesBody (pages : list string)
| SuccessBody
| InfoBody (wsEndpoint mode : string).

(** What a route handler does to the request: it writes a JSON response
    with a status, or its promise rejects and it writes nothing. *)
Inductive Response :=
| Json (status : nat) (body : Body)
| Rejected (reason : string).

(** Calls on the browser made by a handler. *)
Inductive BrowserCall :=
| NewPage
| GetTargetId (p : Page)
| OnClose (p : Page) (name : string)
| ClosePage (p : Page).

(** The answer of the browser to the creation of a page:
    [withTimeout(context.newPage(), 30000, ...)], then [getTargetId]. *)
Inductive NewPageAnswer :=
| PageCreated (p : Page) (targetId : option string)
| PageTimedOut
| PageFailed (reason : string).

Section Routes.
Set Default Proof Using "Type".

Variable wsEndpoint : string.
(** [decodeURIComponent], [None] when it throws a [URIError]. *)
Variable decodeURIComponent : string → option string.

Definition get_root : Response :=
  Json 200 (InfoBody wsEndpoint "external-browser").

Definition get_pages (registry : list (string * PageEntry)) : Response :=
  Json 200 (PagesBody (jm_keys registry)).

(** The observer installed by [page.on("close", ...)] for the page
    created under [name]. *)
Definition onPageClose (name : string)
    (registry : list (string * PageEntry)) : list (string * PageEntry) :=
  jm_delete name registry.

(** [POST /pages]. [body] is [req.body] as [express.json()] leaves it; the
    handler is taken as one step: a second request for the same name
    that arrives while the page is being created is not modelled. *)
Definition post_pages (answer : NewPageAnswer)
    (registry : list (string * PageEntry)) (body : JsVal)
  : list (string * PageEntry) * list BrowserCall * Response :=
  let name := get_prop body "name" in
  if negb (truthy_opt name)
     || negb (match name with Some v => typeof_string v | None => false end)
  then
    (registry, [],
     Json 400 (ErrorBody "name is required and must be a string"))
  else
    match name with
    | Some (JStr name) =>
        if (String.length name =? 0)%nat then
          (registry, [], Json 400 (ErrorBody "name cannot be empty"))
        else if (256 <? String.length name)%nat then
          (registry, [],
           Json 400 (ErrorBody "name must be 256 characters or less"))
        else
          match jm_get name registry with
          | Some entry =>
              (registry, [],
               Json 200 (PageBody wsEndpoint name (targetId entry) "launch"))
          | None =>
              match answer with
              | PageCreated p (Some tid) =>
                  (jm_set name (mkEntry p tid) registry,
                   [NewPage; GetTargetId p; OnClose p name],
                   Json 200 (PageBody wsEndpoint name tid "launch"))
              | PageCreated p None =>
                  (registry, [NewPage; GetTargetId p],
                   Rejected "Target.getTargetInfo failed")
              | PageTimedOut =>
                  (registry, [NewPage],
                   Rejected "Timeout: Page creation timed out after 30s")
              | PageFailed reason => (registry, [NewPage], Rejected reason)
              end
          end
    | _ =>
        (registry, [],
         Json 400 (ErrorBody "name is required and must be a string"))
    end.

(** [DELETE /pages/:name]. [param] is [req.params.name]: the path segment
    as Express hands it over, which is after Express has decoded it.
    [closeResolves] tells whether [entry.page.close()] resolves; when it
    does, the page's close observer has run before
    [registry.delete(name)]. *)
Definition delete_page (closeResolves : bool)
    (registry : list (string * PageEntry)) (param : string)
  : list (string * PageEntry) * list BrowserCall * Response :=
  match decodeURIComponent param with
  | None => (registry, [], Rejected "URIError: URI malformed")
  | Some name =>
      match jm_get name registry with
      | Some entry =>
          if closeResolves then
            (jm_delete name (onPageClose name registry),
             [ClosePage (page entry)], Json 200 SuccessBody)
          else (registry, [ClosePage (page entry)], Rejected "page.close")
      | None => (registry, [], Json 404 (ErrorBody "page not found"))
      end
  end.


(** ** The routes: results *)

Lemma jm_delete_idemp {K V} `{EqDecision K} (k : K) (m : list (K * V)) :
  jm_delete k (jm_delete k m) = jm_delete k m.
Proof. apply jm_delete_absent, jm_get_delete_eq. Qed.

Lemma post_pages_valid answer registry body name :
  get_prop body "name" = Some (JStr name) →
  (1 ≤ String.length name ≤ 256)%nat →
  post_pages answer registry body
  = match jm_get name registry with
    | Some entry =>
        (registry, [],
         Json 200 (PageBody wsEndpoint name (targetId entry) "launch"))
    | None =>
        match answer with
        | PageCreated p (Some tid) =>
            (jm_set name (mkEntry p tid) registry,
             [NewPage; GetTargetId p; OnClose p name],
             Json 200 (PageBody wsEndpoint name tid "launch"))
        | PageCreated p None =>
            (registry, [NewPage; GetTargetId p],
             Rejected "Target.getTargetInfo failed")
        | PageTimedOut =>
            (registry, [NewPage],
             Rejected "Timeout: Page creation timed out after 30s")
        | PageFailed reason => (registry, [NewPage], Rejected reason)
        end
    end.
Proof.
  intros Hname [Hlo Hhi]. unfold post_pages. rewrite Hname. simpl.
  destruct name as [|c name]; [simpl in Hlo; lia|]. simpl.
  assert ((256 <? S (String.length name))%nat = false) as ->; [|done].
  apply Nat.ltb_ge. simpl in Hhi. lia.
Qed.

(** C2. For a valid page name that has an entry in the registry,
    [POST /pages] answers with the target id of the stored entry, makes no
    call on the browser and leaves the registry as it is. Hence, whatever
    the first of two consecutive requests with one name did, the second
    returns the same target id and the registry is the same after it, so
    its size does not grow. *)
Theorem post_pages_reuses_entry registry body name :
  get_prop body "name" = Some (JStr name) →
  (1 ≤ String.length name ≤ 256)%nat →
  (∀ answer entry,
     jm_get name registry = Some entry →
     post_pages answer registry body
     = (registry, [],
        Json 200 (PageBody wsEndpoint name (targetId entry) "launch")))
  ∧ (∀ answer1 answer2 registry1 calls ws n tid mode,
       post_pages answer1 registry body
       = (registry1, calls, Json 200 (PageBody ws n tid mode)) →
       post_pages answer2 registry1 body
       = (registry1, [], Json 200 (PageBody ws n tid mode))
       ∧ length (post_pages answer2 registry1 body).1.1 = length registry1).
Proof.
  intros Hname Hlen. split.
  - intros answer entry Hentry.
    by rewrite (post_pages_valid _ _ _ _ Hname Hlen), Hentry.
  - intros answer1 answer2 registry1 calls ws n tid mode.
    rewrite !(post_pages_valid _ _ _ _ Hname Hlen).
    destruct (jm_get name registry) as [entry|] eqn:Hentry.
    + intros [= <- <- <- <- <- <-]. by rewrite Hentry.
    + destruct answer1 as [p [t|] | | reason]; try discriminate.
      intros [= <- <- <- <- <- <-]. by rewrite jm_get_set_eq.
Qed.

(** C8. A request body without a name, with a name that is not a string,
    with the empty name, or with a name of 257 characters or more gets a
    400 response that says why, and the registry is left unchanged with no
    call made on the browser. A name of exactly 256 characters passes the
    validation: it is looked up and, if new, created; no 400 response is
    given. *)
Theorem post_pages_name_validation answer registry body :
  (get_prop body "name" = None →
   post_pages answer registry body
   = (registry, [],
      Json 400 (ErrorBody "name is required and must be a string")))
  ∧ (∀ v, get_prop body "name" = Some v → typeof_string v = false →
       post_pages answer registry body
       = (registry, [],
          Json 400 (ErrorBody "name is required and must be a string")))
  ∧ (get_prop body "name" = Some (JStr "") →
     post_pages answer registry body
     = (registry, [],
        Json 400 (ErrorBody "name is required and must be a string")))
  ∧ (∀ name, get_prop body "name" = Some (JStr name) →
       (257 ≤ String.length name)%nat →
       post_pages answer registry body
       = (registry, [],
          Json 400 (ErrorBody "name must be 256 characters or less")))
  ∧ (∀ name, get_prop body "name" = Some (JStr name) →
       String.length name = 256%nat →
       (∀ message, (post_pages answer registry body).2
                   ≠ Json 400 (ErrorBody message))
       ∧ (∀ entry, jm_get name registry = Some entry →
            post_pages answer registry body
            = (registry, [],
               Json 200 (PageBody wsEndpoint name (targetId entry) "launch")))
       ∧ (∀ p tid, jm_get name registry = None →
            answer = PageCreated p (Some tid) →
            post_pages answer registry body
            = (jm_set name (mkEntry p tid) registry,
               [NewPage; GetTargetId p; OnClose p name],
               Json 200 (PageBody wsEndpoint name tid "launch")))).
Proof.
  split; [|split; [|split; [|split]]].
  - intros Hname. unfold post_pages. by rewrite Hname.
  - intros v Hname Hv. unfold post_pages. rewrite Hname. simpl.
    by rewrite Hv, orb_true_r.
  - intros Hname. unfold post_pages. by rewrite Hname.
  - intros name Hname Hlen. unfold post_pages. rewrite Hname. simpl.
    destruct name as [|c name]; [simpl in Hlen; lia|]. simpl.
    assert ((256 <? S (String.length name))%nat = true) as ->; [|done].
    apply Nat.ltb_lt. simpl in Hlen. lia.
  - intros name Hname Hlen.
    assert (1 ≤ String.length name ≤ 256)%nat as Hvalid by lia.
    rewrite (post_pages_valid _ _ _ _ Hname Hvalid). split; [|split].
    + intros message.
      destruct (jm_get name registry); [done|].
      by destruct answer as [p [t|] | |].
    + by intros entry ->.
    + by intros p tid -> ->.
Qed.

(** For a request parameter that decodes to [name]:
    if [name] is registered, [DELETE /pages/:name] closes the page of the
    entry, removes [name] from the registry and answers
    [{ success: true }]; if it is not, the answer is 404
    [{ error: "page not found" }] and nothing changes. So after a
    successful close [GET /pages] no longer lists [name], and a second
    [DELETE] of it is answered 404. *)
Theorem delete_page_removes_mapping registry param name :
  decodeURIComponent param = Some name →
  (∀ entry, jm_get name registry = Some entry →
     delete_page true registry param
     = (jm_delete name registry, [ClosePage (page entry)],
        Json 200 SuccessBody))
  ∧ (jm_get name registry = None →
     ∀ closeResolves,
       delete_page closeResolves registry param
       = (registry, [], Json 404 (ErrorBody "page not found")))
  ∧ (∀ entry, jm_get name registry = Some entry →
     let registry' := (delete_page true registry param).1.1 in
     (∀ pages, get_pages registry' = Json 200 (PagesBody pages) →
        name ∉ pages)
     ∧ (∀ closeResolves,
          delete_page closeResolves registry' param
          = (registry', [], Json 404 (ErrorBody "page not found")))).
Proof.
  intros Hdec.
  assert (Hfound : ∀ entry, jm_get name registry = Some entry →
    delete_page true registry param
    = (jm_delete name registry, [ClosePage (page entry)],
       Json 200 SuccessBody)).
  { intros entry Hentry. unfold delete_page, onPageClose.
    by rewrite Hdec, Hentry, jm_delete_idemp. }
  assert (Hmissing : ∀ reg, jm_get name reg = None → ∀ closeResolves,
    delete_page closeResolves reg param
    = (reg, [], Json 404 (ErrorBody "page not found"))).
  { intros reg Hnone closeResolves. unfold delete_page.
    by rewrite Hdec, Hnone. }
  split; [done|]. split; [by apply Hmissing|].
  intros entry Hentry. rewrite (Hfound _ Hentry). simpl. split.
  - intros pages [= <-]. rewrite jm_keys_get, jm_get_delete_eq.
    by intros [? ?].
  - apply Hmissing, jm_get_delete_eq.
Qed.

End Routes.

(** ** [decodeURIComponent]

    Strings are taken over code units below 256. An escape sequence is
    [%XX] for a code unit below 128, or the two escapes of the UTF-8 form
    of a code unit from 128 to 255. The answer is [None] when the function
    throws a [URIError]: a [%] that two hexadecimal digits do not follow,
    or escapes that are not UTF-8. Escapes of a character above 255 have
    no decoding among these strings and get [None] as well. *)

Definition percent : Ascii.ascii := Ascii.ascii_of_nat 37.

Definition hex_digit (c : Ascii.ascii) : option N :=
  let n := Ascii.N_of_ascii c in
  if (48 <=? n)%N && (n <=? 57)%N then Some (n - 48)%N
  else if (65 <=? n)%N && (n <=? 70)%N then Some (n - 55)%N
  else if (97 <=? n)%N && (n <=? 102)%N then Some (n - 87)%N
  else None.

(** The escape [%XX] at the head of [s]: its value and what follows it. *)
Definition escape (s : string) : option (N * string) :=
  match s with
  | String p (String h (String l rest)) =>
      if Ascii.eqb p percent then
        hi ← hex_digit h; lo ← hex_digit l; Some (16 * hi + lo, rest)%N
      else None
  | _ => None
  end.

Fixpoint decode (fuel : nat) (s : string) : option string :=
  match fuel with
  | O => None
  | S fuel' =>
      match s with
      | EmptyString => Some EmptyString
      | String c rest =>
          if Ascii.eqb c percent then
            '(b, rest1) ← escape s;
            if (b <? 128)%N then
              String (Ascii.ascii_of_N b) <$> decode fuel' rest1
            else if (194 <=? b)%N && (b <=? 195)%N then
              '(b2, rest2) ← escape rest1;
              if (128 <=? b2)%N && (b2 <=? 191)%N then
                String (Ascii.ascii_of_N ((b - 192) * 64 + (b2 - 128)))
                <$> decode fuel' rest2
              else None
            else None
          else String c <$> decode fuel' rest
      end
  end.

(** Each round takes a character at least, so the length of the string
    and one more round are enough. *)
Definition decodeURIComponent (s : string) : option string :=
  decode (S (String.length s)) s.

(** A string without [%] decodes to itself. *)
Fixpoint no_percent (s : string) : bool :=
  match s with
  | EmptyString => true
  | String c rest => negb (Ascii.eqb c percent) && no_percent rest
  end.

Lemma decode_no_percent s :
  ∀ fuel, (String.length s < fuel)%nat → no_percent s = true →
          decode fuel s = Some s.
Proof.
  induction s as [|c s IH]; intros fuel Hfuel Hno.
  - destruct fuel; [simpl in Hfuel; lia|done].
  - destruct fuel as [|fuel]; [lia|]. simpl in *.
    apply andb_true_iff in Hno as [Hc Hs]. apply negb_true_iff in Hc.
    rewrite Hc, IH; [done|lia|done].
Qed.

Lemma decodeURIComponent_no_percent s :
  no_percent s = true → decodeURIComponent s = Some s.
Proof. intros Hno. apply decode_no_percent; [lia|done]. Qed.


(** For a name without [%] the second decoding changes nothing: a
    registered name is closed, removed and answered [{ success: true }],
    and a name that is not registered is answered 404. *)
Lemma delete_page_plain_name registry name :
  no_percent name = true →
  (∀ entry, jm_get name registry = Some entry →
     delete_page decodeURIComponent true registry name
     = (jm_delete name registry, [ClosePage (page entry)],
        Json 200 SuccessBody))
  ∧ (jm_get name registry = None →
     ∀ closeResolves,
       delete_page decodeURIComponent closeResolves registry name
       = (registry, [], Json 404 (ErrorBody "page not found"))).
Proof.
  intros Hplain.
  destruct (delete_page_removes_mapping decodeURIComponent registry name name
              (decodeURIComponent_no_percent name Hplain)) as (H1 & H2 & _).
  by split.
Qed.

(** ** Shutdown

    The server after start-up, as an event loop: a trigger arrives (the
    idle timer fires, a signal, an unhandled error, [stop()]) or a call that
    [cleanup] awaits settles. Requests that arrive while the server shuts
    down are not part of the model. *)

Definition Socket : Type := nat.

(** The statements of the body of [cleanup], in the order of the source. *)
Inductive CleanupEffect :=
| ClearIdleTimer              (* clearTimeout(idleTimer); idleTimer = null *)
| LogShuttingDown             (* console.log("\nShutting down...") *)
| SocketDestroy (s : Socket)  (* socket.destroy() *)
| ConnectionsClear            (* connections.clear() *)
| PageClose (p : Page)        (* await entry.page.close(), in try/catch *)
| RegistryClear               (* registry.clear() *)
| BrowserClose                (* await browser.close(), in try/catch: for a
                                 browser reached by connectOverCDP this ends
                                 the connection *)
| ServerClose                 (* server.close() *)
| UnregisterServer (port : Z) (* unregisterServer(port) *)
| LogStopped (remaining : Z). (* console.log(`Server stopped. ...`) *)

Global Instance CleanupEffect_eq_dec : EqDecision CleanupEffect.
Proof. solve_decision. Defined.

Inductive Effect :=
| Cleanup (e : CleanupEffect)
| LogIdleShutdown             (* the timer callback's console.log *)
| LogUnhandledError           (* errorHandler's console.error *)
| RemoveHandlers              (* stop(): removeHandlers() *)
| ProcessExit (code : Z)      (* process.exit(code) *)
| DefaultDisposition.         (* no handler installed: the runtime ends the
                                 process *)

Inductive Trigger := IdleTimer | Signal | UnhandledError | Stop.

Inductive Event :=
| Fire (t : Trigger)
| Settled (ok : bool).        (* the awaited call resolves or rejects *)

(** Where the one running [cleanup] is suspended. *)
Inductive CleanupPc :=
| NotRunning
| AwaitPageClose (current : string * PageEntry)
    (rest : list (string * PageEntry))
| AwaitBrowserClose
| Finished.

Record World := mkWorld {
  registry : list (string * PageEntry);
  connections : list Socket;
  idleTimer : bool;           (* [idleTimer] is not null *)
  timerPending : bool;        (* the timer can still fire *)
  cleaningUp : bool;
  handlersInstalled : bool;
  serversFile : option (gmap string Config.FileValue);
  pc : CleanupPc;
  continuation : option Z;    (* what the caller of the running cleanup does
                                 when it is over: process.exit(code), or
                                 nothing for stop() *)
  exited : bool
}.

Definition with_registry (r : list (string * PageEntry)) (w : World) : World :=
  mkWorld r (connections w) (idleTimer w) (timerPending w) (cleaningUp w)
    (handlersInstalled w) (serversFile w) (pc w) (continuation w) (exited w).
Definition with_pc (p : CleanupPc) (w : World) : World :=
  mkWorld (registry w) (connections w) (idleTimer w) (timerPending w)
    (cleaningUp w) (handlersInstalled w) (serversFile w) p (continuation w)
    (exited w).
Definition with_exited (w : World) : World :=
  mkWorld (registry w) (connections w) (idleTimer w) (timerPending w)
    (cleaningUp w) (handlersInstalled w) (serversFile w) (pc w)
    (continuation w) true.
Definition with_continuation (k : option Z) (w : World) : World :=
  mkWorld (registry w) (connections w) (idleTimer w) (timerPending w)
    (cleaningUp w) (handlersInstalled w) (serversFile w) (pc w) k (exited w).

Section Shutdown.
Set Default Proof Using "Type".

Variable processExists : Z → bool.
(** The port of this server and the clock. *)
Variable port : Z.
Variable now : string.

(** The loop over [registry.values()], from the entries not yet visited:
    close the next page and wait, or leave the loop, clear the registry
    and disconnect. No entry is added while the loop runs, so the
    iteration visits the entries present at its start. *)
Definition closePages (w : World) (entries : list (string * PageEntry))
  : World * list Effect :=
  match entries with
  | e :: rest =>
      (with_pc (AwaitPageClose e rest) w, [Cleanup (PageClose (page e.2))])
  | [] =>
      (with_pc AwaitBrowserClose (with_registry [] w),
       [Cleanup RegistryClear; Cleanup BrowserClose])
  end.

(** [cleanup] from its first statement after the guard to its first
    [await]. *)
Definition cleanup_begin (w : World) : World * list Effect :=
  let timer := if idleTimer w then [Cleanup ClearIdleTimer] else [] in
  let w1 :=
    mkWorld (registry w) [] false false true (handlersInstalled w)
      (serversFile w) (pc w) (continuation w) (exited w) in
  let '(w2, closing) := closePages w1 (registry w) in
  (w2,
   timer ++ [Cleanup LogShuttingDown]
   ++ map (λ s, Cleanup (SocketDestroy s)) (connections w)
   ++ [Cleanup ConnectionsClear] ++ closing).

(** [cleanup] after [await browser.close()], and then its caller. *)
Definition cleanup_end (w : World) : World * list Effect :=
  let '(file', remaining) :=
    Config.unregisterServer processExists port now (serversFile w) in
  let w1 :=
    mkWorld (registry w) (connections w) (idleTimer w) (timerPending w)
      (cleaningUp w) (handlersInstalled w) file' Finished (continuation w)
      (exited w) in
  let body := [Cleanup ServerClose; Cleanup (UnregisterServer port);
               Cleanup (LogStopped remaining)] in
  match continuation w with
  | Some code => (with_exited w1, body ++ [ProcessExit code])
  | None => (w1, body)
  end.

(** A call of [cleanup()] by a caller that goes on with [k] when the
    returned promise resolves. Under the guard the promise is already
    resolved, so the caller goes on at once. *)
Definition call_cleanup (k : option Z) (w : World) : World * list Effect :=
  if cleaningUp w then
    match k with
    | Some code => (with_exited w, [ProcessExit code])
    | None => (w, [])
    end
  else cleanup_begin (with_continuation k w).

Definition fire (t : Trigger) (w : World) : World * list Effect :=
  match t with
  | IdleTimer =>
      if timerPending w then
        let w1 :=
          mkWorld (registry w) (connections w) (idleTimer w) false
            (cleaningUp w) (handlersInstalled w) (serversFile w) (pc w)
            (continuation w) (exited w) in
        let '(w2, eff) := call_cleanup (Some 0) w1 in
        (w2, LogIdleShutdown :: eff)
      else (w, [])
  | Signal =>
      if handlersInstalled w then call_cleanup (Some 0) w
      else (with_exited w, [DefaultDisposition])
  | UnhandledError =>
      if handlersInstalled w then
        let '(w1, eff) := call_cleanup (Some 1) w in
        (w1, LogUnhandledError :: eff)
      else (with_exited w, [DefaultDisposition])
  | Stop =>
      let w1 :=
        mkWorld (registry w) (connections w) (idleTimer w) (timerPending w)
          (cleaningUp w) false (serversFile w) (pc w) (continuation w)
          (exited w) in
      let '(w2, eff) := call_cleanup None w1 in
      (w2, RemoveHandlers :: eff)
  end.

Definition settle (ok : bool) (w : World) : World * list Effect :=
  match pc w with
  | AwaitPageClose current rest =>
      let w1 :=
        if ok then with_registry (onPageClose current.1 (registry w)) w
        else w in
      closePages w1 rest
  | AwaitBrowserClose => cleanup_end w
  | NotRunning | Finished => (w, [])
  end.

Definition step (w : World) (ev : Event) : World * list Effect :=
  if exited w then (w, [])
  else
    match ev with
    | Fire t => fire t w
    | Settled ok => settle ok w
    end.

Fixpoint run (w : World) (events : list Event) : World * list Effect :=
  match events with
  | [] => (w, [])
  | ev :: events' =>
      let '(w1, eff1) := step w ev in
      let '(w2, eff2) := run w1 events' in
      (w2, eff1 ++ eff2)
  end.

(** The statements of [cleanup] among the effects. *)
Definition body (trace : list Effect) : list CleanupEffect :=
  omap (λ e, match e with Cleanup c => Some c | _ => None end) trace.

(** The full sequence of [cleanup] run from [w]. *)
Definition cleanup_final (w : World) : list CleanupEffect :=
  [ServerClose; UnregisterServer port;
   LogStopped
     (Config.unregisterServer processExists port now (serversFile w)).2].

Definition cleanup_tail (w : World) : list CleanupEffect :=
  [RegistryClear; BrowserClose] ++ cleanup_final w.

Definition cleanup_sequence (w : World) : list CleanupEffect :=
  (if idleTimer w then [ClearIdleTimer] else [])
  ++ [LogShuttingDown]
  ++ map SocketDestroy (connections w)
  ++ [ConnectionsClear]
  ++ map (λ e, PageClose (page e.2)) (registry w)
  ++ cleanup_tail w.

(** A trigger that the process can receive in [w]. *)
Definition enabled (w : World) (t : Trigger) : bool :=
  match t with
  | IdleTimer => timerPending w
  | Signal | UnhandledError => handlersInstalled w
  | Stop => true
  end.

(** What is left of the sequence in [w]. *)
Definition pending (w : World) : list CleanupEffect :=
  if cleaningUp w then
    match pc w with
    | AwaitPageClose _ rest =>
        map (λ e, PageClose (page e.2)) rest ++ cleanup_tail w
    | AwaitBrowserClose => cleanup_final w
    | NotRunning | Finished => []
    end
  else cleanup_sequence w.

(** The number of settlements the running [cleanup] still waits for. *)
Definition awaits (w : World) : nat :=
  match pc w with
  | AwaitPageClose _ rest => length rest + 2
  | AwaitBrowserClose => 1
  | NotRunning | Finished => 0
  end.


(** ** Shutdown: results *)

Definition consistent (w : World) : Prop :=
  cleaningUp w = false → pc w = NotRunning.

Lemma body_app t1 t2 : body (t1 ++ t2) = body t1 ++ body t2.
Proof. apply omap_app. Qed.

Lemma body_cons_cleanup c t : body (Cleanup c :: t) = c :: body t.
Proof. done. Qed.

Lemma body_sockets l :
  body (map (λ s, Cleanup (SocketDestroy s)) l) = map SocketDestroy l.
Proof. induction l as [|s l IH]; simpl; [done|]. by rewrite <- IH. Qed.

Lemma closePages_spec w entries :
  cleaningUp w = true →
  let r := closePages w entries in
  map (λ e, PageClose (page e.2)) entries ++ cleanup_tail w
  = body r.2 ++ pending r.1
  ∧ cleaningUp r.1 = true
  ∧ exited r.1 = exited w
  ∧ awaits r.1 = S (length entries).
Proof.
  intros Hc. destruct entries as [|e rest]; simpl.
  - unfold pending. simpl. by rewrite Hc.
  - unfold pending. simpl. rewrite Hc. split; [done|]. split; [done|].
    split; [done|]. unfold awaits. simpl. lia.
Qed.

Lemma cleanup_begin_spec w :
  cleaningUp w = false →
  let r := cleanup_begin w in
  cleanup_sequence w = body r.2 ++ pending r.1
  ∧ cleaningUp r.1 = true
  ∧ exited r.1 = exited w
  ∧ awaits r.1 = S (length (registry w)).
Proof.
  intros Hc. unfold cleanup_begin.
  set (w1 := mkWorld _ _ _ _ _ _ _ _ _ _).
  pose proof (closePages_spec w1 (registry w) eq_refl) as (H1 & H2 & H3 & H4).
  destruct (closePages w1 (registry w)) as [w2 closing]. simpl in *.
  split; [|done].
  change (cleanup_tail w1) with (cleanup_tail w) in H1.
  rewrite body_app, body_cons_cleanup, body_app, body_sockets,
    body_cons_cleanup.
  unfold cleanup_sequence. rewrite H1.
  destruct (idleTimer w); simpl; by rewrite <- !app_assoc.
Qed.

Lemma call_cleanup_spec k w :
  consistent w →
  let r := call_cleanup k w in
  (∃ rest, pending w = body r.2 ++ rest
           ∧ (exited r.1 = false → rest = pending r.1))
  ∧ consistent r.1
  ∧ (cleaningUp w = true → body r.2 = [])
  ∧ (cleaningUp w = false → exited w = false →
     exited r.1 = false ∧ cleaningUp r.1 = true
     ∧ awaits r.1 = S (length (registry w))
     ∧ body r.2 ++ pending r.1 = cleanup_sequence w).
Proof.
  intros Hcons. unfold call_cleanup.
  destruct (cleaningUp w) eqn:Hc.
  - destruct k as [code|]; simpl.
    + split; [by exists (pending w)|]. split; [|done].
      unfold consistent. simpl. congruence.
    + split; [by exists (pending w)|]. done.
  - pose proof (cleanup_begin_spec (with_continuation k w) Hc)
      as (H1 & H2 & H3 & H4).
    destruct (cleanup_begin (with_continuation k w)) as [w' eff].
    simpl in *. split; [|split; [|split; [done|]]].
    + exists (pending w'). split; [|done].
      rewrite <- H1. unfold pending. simpl. by rewrite Hc.
    + unfold consistent. congruence.
    + intros _ Hex. split; [congruence|]. split; [done|]. split; [done|].
      by rewrite <- H1.
Qed.

Lemma step_spec w ev :
  consistent w → exited w = false →
  let r := step w ev in
  (∃ rest, pending w = body r.2 ++ rest
           ∧ (exited r.1 = false → rest = pending r.1))
  ∧ consistent r.1.
Proof.
  intros Hcons Hex. unfold step. rewrite Hex.
  destruct ev as [t|ok].
  - destruct t; simpl.
    + destruct (timerPending w) eqn:Ht.
      * set (w1 := mkWorld _ _ _ _ _ _ _ _ _ _).
        assert (consistent w1) as Hc1 by done.
        pose proof (call_cleanup_spec (Some 0) w1 Hc1) as (H1 & H2 & _).
        destruct (call_cleanup (Some 0) w1) as [w2 eff]. simpl in *.
        split; [|done]. destruct H1 as (rest & H1 & H1').
        exists rest. split; [|done]. rewrite <- H1.
        unfold pending, cleanup_sequence, cleanup_tail, cleanup_final. done.
      * split; [by exists (pending w)|done].
    + destruct (handlersInstalled w).
      * pose proof (call_cleanup_spec (Some 0) w Hcons) as (H1 & H2 & _).
        by destruct (call_cleanup (Some 0) w).
      * split; [by exists (pending w)|done].
    + destruct (handlersInstalled w).
      * pose proof (call_cleanup_spec (Some 1) w Hcons) as (H1 & H2 & _).
        by destruct (call_cleanup (Some 1) w).
      * split; [by exists (pending w)|done].
    + set (w1 := mkWorld _ _ _ _ _ _ _ _ _ _).
      assert (consistent w1) as Hc1 by done.
      pose proof (call_cleanup_spec None w1 Hc1) as (H1 & H2 & _).
      destruct (call_cleanup None w1) as [w2 eff]. simpl in *.
      split; [|done]. destruct H1 as (rest & H1 & H1').
      exists rest. split; [|done]. rewrite <- H1.
      unfold pending, cleanup_sequence, cleanup_tail, cleanup_final. done.
  - simpl. unfold settle.
    destruct (cleaningUp w) eqn:Hc.
    2:{ rewrite (Hcons Hc). split; [by exists (pending w)|done]. }
    destruct (pc w) as [|current rest| |] eqn:Hpc.
    + split; [by exists (pending w)|done].
    + set (w1 := if ok then _ else w).
      assert (cleaningUp w1 = true) as Hc1 by (unfold w1; by destruct ok).
      assert (serversFile w1 = serversFile w) as Hf
        by (unfold w1; by destruct ok).
      assert (exited w1 = false) as Hex1 by (unfold w1; by destruct ok).
      pose proof (closePages_spec w1 rest Hc1) as (H1 & H2 & H3 & H4).
      destruct (closePages w1 rest) as [w2 eff]. simpl in *.
      split; [|unfold consistent; congruence].
      exists (pending w2). split; [|done]. rewrite <- H1.
      unfold pending. rewrite Hc, Hpc.
      unfold cleanup_tail, cleanup_final. by rewrite Hf.
    + unfold cleanup_end, pending. rewrite Hc, Hpc.
      unfold cleanup_final.
      destruct (Config.unregisterServer processExists port now
                  (serversFile w)) as [file' remaining].
      destruct (continuation w) as [code|]; simpl.
      * split; [by exists []|]. unfold consistent. simpl. congruence.
      * split; [|unfold consistent; simpl; congruence].
        by exists [].
    + split; [by exists (pending w)|done].
Qed.

Lemma run_exited w events : exited w = true → run w events = (w, []).
Proof.
  intros Hex. induction events as [|ev events IH]; simpl; [done|].
  unfold step. by rewrite Hex, IH.
Qed.

(** Whatever happens, the statements of [cleanup] that have run are an
    initial part of what was left of the one sequence. *)
Lemma run_app w events1 events2 :
  run w (events1 ++ events2)
  = let '(w1, eff1) := run w events1 in
    let '(w2, eff2) := run w1 events2 in
    (w2, eff1 ++ eff2).
Proof.
  revert w. induction events1 as [|ev events1 IH]; intros w; simpl.
  - by destruct (run w events2).
  - destruct (step w ev) as [w1 eff1]. rewrite IH.
    destruct (run w1 events1) as [w2 eff2].
    destruct (run w2 events2) as [w3 eff3]. by rewrite app_assoc.
Qed.

Lemma run_prefix events :
  ∀ w, consistent w → exited w = false →
       body (run w events).2 `prefix_of` pending w.
Proof.
  induction events as [|ev events IH]; intros w Hcons Hex; simpl.
  - by exists (pending w).
  - pose proof (step_spec w ev Hcons Hex) as ((rest & H1 & H2) & Hcons1).
    destruct (step w ev) as [w1 eff1]. simpl in *.
    destruct (exited w1) eqn:Hex1.
    + rewrite (run_exited _ _ Hex1). simpl. rewrite app_nil_r, H1.
      by exists rest.
    + specialize (IH w1 Hcons1 Hex1).
      destruct (run w1 events) as [w2 eff2]. simpl in *.
      rewrite body_app, H1, (H2 eq_refl). by apply prefix_app.
Qed.

Lemma settle_spec ok w n :
  cleaningUp w = true → exited w = false → awaits w = S n →
  let r := settle ok w in
  pending w = body r.2 ++ pending r.1
  ∧ cleaningUp r.1 = true
  ∧ awaits r.1 = n
  ∧ (n ≠ O → exited r.1 = false).
Proof.
  intros Hc Hex Hn. unfold settle, awaits in *.
  destruct (pc w) as [|current rest| |] eqn:Hpc; try discriminate.
  - set (w1 := if ok then _ else w).
    assert (cleaningUp w1 = true) as Hc1 by (unfold w1; by destruct ok).
    assert (serversFile w1 = serversFile w) as Hf
      by (unfold w1; by destruct ok).
    assert (exited w1 = false) as Hex1 by (unfold w1; by destruct ok).
    pose proof (closePages_spec w1 rest Hc1) as (H1 & H2 & H3 & H4).
    destruct (closePages w1 rest) as [w2 eff]. simpl in *.
    split; [|split; [done|split; [unfold awaits in H4; lia|congruence]]].
    rewrite <- H1. unfold pending. rewrite Hc, Hpc.
    unfold cleanup_tail, cleanup_final. by rewrite Hf.
  - injection Hn as <-. unfold cleanup_end, pending. rewrite Hc, Hpc.
    unfold cleanup_final.
    destruct (Config.unregisterServer processExists port now
                (serversFile w)) as [file' remaining].
    destruct (continuation w) as [code|]; simpl; by rewrite ?Hc.
Qed.

(** Left alone, the running [cleanup] performs all that is left. *)
Lemma run_settles outcomes :
  ∀ w, cleaningUp w = true → exited w = false →
       length outcomes = awaits w →
       body (run w (map Settled outcomes)).2 = pending w.
Proof.
  induction outcomes as [|ok outcomes IH]; intros w Hc Hex Hlen; simpl.
  - unfold pending, awaits in *. rewrite Hc.
    destruct (pc w); simpl in *; try done; lia.
  - unfold step. rewrite Hex. simpl in Hlen.
    pose proof (settle_spec ok w (length outcomes) Hc Hex (eq_sym Hlen))
      as (H1 & H2 & H3 & H4).
    destruct (settle ok w) as [w1 eff1]. simpl in *.
    destruct outcomes as [|ok' outcomes'].
    + simpl. rewrite app_nil_r. rewrite H1.
      assert (pending w1 = []) as ->; [|by rewrite app_nil_r].
      unfold pending, awaits in *. rewrite H2.
      destruct (pc w1); simpl in *; try done; lia.
    + specialize (IH w1 H2 (H4 ltac:(done)) (eq_sym H3)).
      destruct (run w1 (map Settled (ok' :: outcomes'))) as [w2 eff2].
      simpl in *. by rewrite body_app, IH.
Qed.

Lemma fire_fresh t w :
  consistent w → cleaningUp w = false → exited w = false →
  enabled w t = true →
  let r := fire t w in
  exited r.1 = false ∧ cleaningUp r.1 = true
  ∧ awaits r.1 = S (length (registry w))
  ∧ body r.2 ++ pending r.1 = cleanup_sequence w.
Proof.
  intros Hcons Hc Hex Hen.
  assert (Hcall : ∀ k w1,
    consistent w1 → cleaningUp w1 = false → exited w1 = false →
    registry w1 = registry w → cleanup_sequence w1 = cleanup_sequence w →
    exited (call_cleanup k w1).1 = false
    ∧ cleaningUp (call_cleanup k w1).1 = true
    ∧ awaits (call_cleanup k w1).1 = S (length (registry w))
    ∧ body (call_cleanup k w1).2 ++ pending (call_cleanup k w1).1
      = cleanup_sequence w).
  { intros k w1 Hcons1 Hc1 Hex1 Hreg Hseq.
    pose proof (call_cleanup_spec k w1 Hcons1) as (_ & _ & _ & H).
    destruct (H Hc1 Hex1) as (H1 & H2 & H3 & H4).
    by rewrite <- Hreg, <- Hseq. }
  destruct t; simpl in Hen; unfold fire; rewrite ?Hen.
  - set (w1 := mkWorld _ _ _ _ _ _ _ _ _ _).
    pose proof (Hcall (Some 0) w1 Hcons Hc Hex eq_refl eq_refl) as H.
    by destruct (call_cleanup (Some 0) w1).
  - by apply Hcall.
  - pose proof (Hcall (Some 1) w Hcons Hc Hex eq_refl eq_refl) as H.
    by destruct (call_cleanup (Some 1) w).
  - set (w1 := mkWorld _ _ _ _ _ _ _ _ _ _).
    pose proof (Hcall None w1 Hcons Hc Hex eq_refl eq_refl) as H.
    by destruct (call_cleanup None w1).
Qed.

(** How often the body of [cleanup] has been entered: the number of times
    its first unconditional statement has run. *)
Definition entries_of_body (l : list CleanupEffect) : nat :=
  length (filter (λ c, c = LogShuttingDown) l).

Lemma entries_of_body_app l1 l2 :
  entries_of_body (l1 ++ l2) = (entries_of_body l1 + entries_of_body l2)%nat.
Proof. unfold entries_of_body. by rewrite filter_app, length_app. Qed.

Lemma entries_of_body_map {A} (f : A → CleanupEffect) l :
  (∀ x, f x ≠ LogShuttingDown) → entries_of_body (map f l) = O.
Proof.
  intros Hf. unfold entries_of_body. induction l as [|x l IH]; simpl; [done|].
  rewrite filter_cons, decide_False by apply Hf. exact IH.
Qed.

Lemma entries_of_body_sequence w : entries_of_body (cleanup_sequence w) = 1%nat.
Proof.
  unfold cleanup_sequence. rewrite !entries_of_body_app.
  rewrite !entries_of_body_map by done.
  by destruct (idleTimer w).
Qed.

(** Take the server with [cleanup] not yet called. Whatever triggers
    arrive, in whatever number and at whatever moment of the shutdown, the
    statements of the body of [cleanup] that get executed are an initial
    part of one single run of the sequence, whose body is therefore
    entered at most once: clear the idle timer, destroy
    every open connection, close every registered page (a close that
    rejects is passed over), clear the registry, close the connection to
    the browser, stop the HTTP server, unregister the server and log the
    number of servers left. A call of [cleanup] under the [cleaningUp]
    guard executes none of them. When one trigger arrives and every
    awaited call settles, the sequence is executed whole, in this order. *)
Theorem cleanup_runs_once_in_order w events :
  cleaningUp w = false → pc w = NotRunning → exited w = false →
  body (run w events).2 `prefix_of` cleanup_sequence w
  ∧ (entries_of_body (body (run w events).2) ≤ 1)%nat
  ∧ (∀ w' k, cleaningUp w' = true → body (call_cleanup k w').2 = [])
  ∧ (∀ t outcomes,
       enabled w t = true →
       length outcomes = S (length (registry w)) →
       body (run w (Fire t :: map Settled outcomes)).2 = cleanup_sequence w)
  ∧ cleanup_sequence w
    = (if idleTimer w then [ClearIdleTimer] else [])
      ++ [LogShuttingDown]
      ++ map SocketDestroy (connections w)
      ++ [ConnectionsClear]
      ++ map (λ e, PageClose (page e.2)) (registry w)
      ++ [RegistryClear; BrowserClose; ServerClose; UnregisterServer port;
          LogStopped
            (Config.unregisterServer processExists port now
               (serversFile w)).2].
Proof.
  intros Hc Hpc Hex.
  assert (consistent w) as Hcons by (intros _; exact Hpc).
  assert (body (run w events).2 `prefix_of` cleanup_sequence w) as Hprefix.
  { pose proof (run_prefix events w Hcons Hex) as H.
    unfold pending in H. by rewrite Hc in H. }
  split; [done|]. split; [|split; [|split; [|reflexivity]]].
  - destruct Hprefix as [k Hk].
    pose proof (entries_of_body_sequence w) as Hone.
    rewrite Hk, entries_of_body_app in Hone. lia.
  - intros w' k Hc'. unfold call_cleanup. rewrite Hc'. by destruct k.
  - intros t outcomes Hen Hlen. simpl. unfold step. rewrite Hex.
    pose proof (fire_fresh t w Hcons Hc Hex Hen) as (Hex1 & Hc1 & Haw & Hfull).
    destruct (fire t w) as [w1 eff1]. simpl in *.
    pose proof (run_settles outcomes w1 Hc1 Hex1) as Hrun.
    rewrite Haw in Hrun. specialize (Hrun Hlen).
    destruct (run w1 (map Settled outcomes)) as [w2 eff2]. simpl in *.
    by rewrite body_app, Hrun.
Qed.

End Shutdown.


(** ** A concrete shutdown *)

Definition demo_world : World :=
  mkWorld [("a", mkEntry 1%nat "T-1"); ("b", mkEntry 2%nat "T-2")]
    [10%nat; 11%nat] true true false true Config.demo_file NotRunning None
    false.

Definition demo_run (events : list Event) : list Effect :=
  (run Config.demo_processExists 19222 Config.demo_now demo_world events).2.

(** One SIGTERM, every awaited call settles (the second page is already
    closed and its [close()] rejects). *)
Example shutdown_on_signal :
  demo_run [Fire Signal; Settled true; Settled false; Settled true]
  = [Cleanup ClearIdleTimer; Cleanup LogShuttingDown;
     Cleanup (SocketDestroy 10%nat); Cleanup (SocketDestroy 11%nat);
     Cleanup ConnectionsClear;
     Cleanup (PageClose 1%nat); Cleanup (PageClose 2%nat);
     Cleanup RegistryClear; Cleanup BrowserClose; Cleanup ServerClose;
     Cleanup (UnregisterServer 19222); Cleanup (LogStopped 1);
     ProcessExit 0].
Proof. vm_compute. reflexivity. Qed.

(** The idle timer fires, then a SIGINT arrives while the first page is
    being closed: the second call of [cleanup] returns under the guard and
    its caller exits the process; no statement of [cleanup] runs twice. *)
Example shutdown_with_concurrent_triggers :
  demo_run [Fire IdleTimer; Fire Signal; Settled true; Settled true;
            Settled true; Fire Signal]
  = [LogIdleShutdown;
     Cleanup ClearIdleTimer; Cleanup LogShuttingDown;
     Cleanup (SocketDestroy 10%nat); Cleanup (SocketDestroy 11%nat);
     Cleanup ConnectionsClear; Cleanup (PageClose 1%nat);
     ProcessExit 0].
Proof. vm_compute. reflexivity. Qed.

(** C4. Two SIGINTs in a row, with two pages registered. The first one
    enters [cleanup], which runs up to its first [await], the close of the
    first page. The second one calls [cleanup] again: the call returns
    under the guard and its handler goes on to [process.exit(0)]. The body
    has been entered once, but of its sequence only the part up to the
    close of the first page has been performed: the second page is not
    closed, the registry is not cleared, the connection to the browser and
    the HTTP server are not closed, and the server is still in the file of
    the active servers. Nothing that comes later changes this. *)
Theorem second_signal_cuts_cleanup_short :
  let r := run Config.demo_processExists 19222 Config.demo_now demo_world
             [Fire Signal; Fire Signal] in
  r.2 = [Cleanup ClearIdleTimer; Cleanup LogShuttingDown;
         Cleanup (SocketDestroy 10%nat); Cleanup (SocketDestroy 11%nat);
         Cleanup ConnectionsClear; Cleanup (PageClose 1%nat);
         ProcessExit 0]
  ∧ exited r.1 = true
  ∧ cleanup_sequence Config.demo_processExists 19222 Config.demo_now
      demo_world
    = body r.2 ++ [PageClose 2%nat; RegistryClear; BrowserClose; ServerClose;
                   UnregisterServer 19222; LogStopped 1]
  ∧ registry r.1 = registry demo_world
  ∧ serversFile r.1 = serversFile demo_world
  ∧ (∀ events,
       run Config.demo_processExists 19222 Config.demo_now demo_world
         ([Fire Signal; Fire Signal] ++ events) = r).
Proof.
  cbv zeta. split; [by vm_compute|]. split; [by vm_compute|].
  split; [by vm_compute|]. split; [by vm_compute|]. split; [by vm_compute|].
  intros events. rewrite run_app.
  assert (exited (run Config.demo_processExists 19222 Config.demo_now
                    demo_world [Fire Signal; Fire Signal]).1 = true) as Hex
    by (by vm_compute).
  destruct (run Config.demo_processExists 19222 Config.demo_now demo_world
              [Fire Signal; Fire Signal]) as [w1 eff1].
  rewrite run_exited by exact Hex. by rewrite app_nil_r.
Qed.

Lemma cleanup_runs_once_in_order_witness :
  body (demo_run [Fire Stop; Settled true; Settled true; Settled true])
  = [ClearIdleTimer; LogShuttingDown; SocketDestroy 10%nat;
     SocketDestroy 11%nat; ConnectionsClear; PageClose 1%nat;
     PageClose 2%nat; RegistryClear; BrowserClose; ServerClose;
     UnregisterServer 19222; LogStopped 1].
Proof.
  pose proof (cleanup_runs_once_in_order Config.demo_processExists 19222
                Config.demo_now demo_world []) as H.
  destruct H as (_ & _ & _ & Hwhole & _).
  - reflexivity.
  - reflexivity.
  - reflexivity.
  - unfold demo_run.
    etransitivity;
      [exact (Hwhole Stop [true; true; true] eq_refl eq_refl)|].
    vm_compute. reflexivity.
Defined.

(** ** Start-up: results *)

Lemma lt_Int x y : lt (Int x) (Int y) = (x <? y).
Proof. reflexivity. Qed.

Lemma strict_eq_Int x y : strict_eq (Int x) (Int y) = (x =? y).
Proof. reflexivity. Qed.

(** The three checks pass exactly for two different integers of
    [1..65535], and for [NaN] on either side with nothing out of range on
    the other. *)
Definition passes_validation (port cdpPort : JsNumber) : bool :=
  negb (lt port (Int 1) || lt (Int 65535) port)
  && negb (lt cdpPort (Int 1) || lt (Int 65535) cdpPort)
  && negb (strict_eq port cdpPort).

Lemma serve_validated_refused options env port cdpPort :
  passes_validation port cdpPort = false →
  (serve_validated options env port cdpPort).1 = [].
Proof.
  unfold passes_validation, serve_validated.
  destruct (lt port (Int 1) || lt (Int 65535) port); [done|].
  destruct (lt cdpPort (Int 1) || lt (Int 65535) cdpPort); [done|].
  by destruct (strict_eq port cdpPort).
Qed.

(** When the HTTP port the start-up has settled on is an integer outside
    [1..65535], or the CDP port is, or the two are the same integer,
    [serveWithExternalBrowser] throws an error that says so, and it has not
    yet probed or launched a browser, asked for its endpoint or connected
    to it, started the HTTP server or registered the server. *)
Lemma serveWithExternalBrowser_validates_ports options env port cdpPort :
  (resolve_port options env).2 = inl (Int port) →
  default (Int (env_cdpPort env)) (opt_cdpPort options) = Int cdpPort →
  port < 1 ∨ 65535 < port ∨ cdpPort < 1 ∨ 65535 < cdpPort ∨ port = cdpPort →
  let '(effects, result) := serveWithExternalBrowser options env in
  (result = Failed (invalid_port_message (Int port))
   ∨ result = Failed (invalid_cdpPort_message (Int cdpPort))
   ∨ result = Failed same_port_message)
  ∧ (port < 1 ∨ 65535 < port
     → result = Failed (invalid_port_message (Int port)))
  ∧ (∀ e, e ∈ effects → touches_browser_or_server e = false).
Proof.
  intros Hport Hcdp Hbad. unfold serveWithExternalBrowser.
  destruct (resolve_port options env) as [probing found] eqn:Hres.
  simpl in Hport. subst found. rewrite Hcdp.
  assert (Hprobing : ∀ e, e ∈ [KillStaleServers; LoadConfig] ++ probing ++ [] →
                          touches_browser_or_server e = false).
  { unfold resolve_port in Hres. intros e.
    destruct (opt_port options); injection Hres as <- _; simpl;
      rewrite !elem_of_cons, elem_of_nil; intros H;
      repeat destruct H as [->|H]; done. }
  unfold serve_validated. rewrite !lt_Int, strict_eq_Int.
  destruct ((port <? 1) || (65535 <? port)) eqn:Hp.
  { split; [by left|]. split; [done|]. intros e. rewrite <- (app_nil_r probing).
    rewrite app_assoc. rewrite <- app_assoc. apply Hprobing. }
  apply orb_false_elim in Hp as [Hp1 Hp2].
  apply Z.ltb_ge in Hp1. apply Z.ltb_ge in Hp2.
  destruct ((cdpPort <? 1) || (65535 <? cdpPort)) eqn:Hc.
  { split; [by right; left|]. split; [lia|]. intros e.
    rewrite <- (app_nil_r probing). rewrite app_assoc, <- app_assoc.
    apply Hprobing. }
  apply orb_false_elim in Hc as [Hc1 Hc2].
  apply Z.ltb_ge in Hc1. apply Z.ltb_ge in Hc2.
  assert (port = cdpPort) as Heq by lia.
  apply Z.eqb_eq in Heq. rewrite Heq.
  split; [by right; right|]. split; [lia|]. intros e.
  rewrite <- (app_nil_r probing). rewrite app_assoc, <- app_assoc.
  apply Hprobing.
Qed.

(** ** Concrete requests *)

Definition demo_env (found : Config.PortResult) : StartupEnv :=
  mkEnv (Config.mkRange 19222 19300 2) 9223 found true
    (Some "ws://127.0.0.1:9223/devtools/browser/1") true 4242.

Example demo_start :
  serveWithExternalBrowser (mkOptions None None None None None None)
    (demo_env (Config.PortFound 19222))
  = ([KillStaleServers; LoadConfig; FindAvailablePort;
      IsBrowserRunning (Int 9223); GetCdpEndpoint (Int 9223);
      ConnectOverCDP (Int 9223); Listen (Int 19222);
      RegisterServer (Int 19222) 4242 (Int 9223); WritePortFile (Int 19222);
      OutputPortForDiscovery (Int 19222); SetIdleTimer 1800000;
      InstallHandlers],
     Started (Int 19222) "ws://127.0.0.1:9223/devtools/browser/1").
Proof. reflexivity. Qed.

Example demo_start_port_0 :
  serveWithExternalBrowser (mkOptions (Some (Int 0)) None None None None None)
    (demo_env (Config.PortFound 19222))
  = ([KillStaleServers; LoadConfig],
     Failed "Invalid port: 0. Must be between 1 and 65535").
Proof. reflexivity. Qed.

Lemma serveWithExternalBrowser_validates_ports_witness :
  serveWithExternalBrowser
    (mkOptions (Some (Int 9223)) None None None None None)
    (demo_env (Config.PortFound 19222))
  = ([KillStaleServers; LoadConfig], Failed same_port_message).
Proof.
  pose proof (serveWithExternalBrowser_validates_ports
                (mkOptions (Some (Int 9223)) None None None None None)
                (demo_env (Config.PortFound 19222)) 9223 9223) as H.
  simpl in H. specialize (H eq_refl eq_refl).
  assert (9223 < 1 ∨ 65535 < 9223 ∨ 9223 < 1 ∨ 65535 < 9223 ∨ 9223 = 9223)
    as Hbad by (do 4 right; reflexivity).
  specialize (H Hbad). destruct H as (_ & _ & _). reflexivity.
Defined.

(** The launcher script run with [CDP_PORT=abc], or with [PORT=abc], and a
    [BROWSER_PATH]: [parseInt] gives [NaN]. *)
Definition demo_chrome : string := "/opt/google/chrome-for-testing/chrome".

Definition options_NaN_cdpPort : ExternalBrowserOptions :=
  mkOptions None (Some NaN) (Some demo_chrome) None (Some true) None.

Definition options_NaN_port : ExternalBrowserOptions :=
  mkOptions (Some NaN) None (Some demo_chrome) None (Some true) None.

(** No browser is running when the script starts; the one it launches
    answers on port 9223. *)
Definition demo_env_absent : StartupEnv :=
  mkEnv (Config.mkRange 19222 19300 2) 9223 (Config.PortFound 19222) false
    (Some "ws://127.0.0.1:9223/devtools/browser/1") true 4242.

(** C10. A port that is [NaN] is not in [1..65535], yet it passes the three
    checks, each comparison being false. With [NaN] for the CDP port the
    start-up probes for a browser, launches the one of [browserPath] with
    [NaN] for its debugging port and only fails when the endpoint does not
    come; with [NaN] for the HTTP port it probes, launches and connects to
    the browser and fails when it starts to listen. Neither error is one
    of the validation. *)
Theorem serveWithExternalBrowser_NaN_port_passes_validation :
  passes_validation (Int 19222) NaN = true
  ∧ passes_validation NaN (Int 9223) = true
  ∧ serveWithExternalBrowser options_NaN_cdpPort demo_env_absent
    = ([KillStaleServers; LoadConfig; FindAvailablePort;
        IsBrowserRunning NaN; LaunchBrowserDetached demo_chrome NaN None;
        GetCdpEndpoint NaN],
       Failed "Browser did not start on port NaN within 30s")
  ∧ serveWithExternalBrowser options_NaN_port demo_env_absent
    = ([KillStaleServers; LoadConfig;
        IsBrowserRunning (Int 9223);
        LaunchBrowserDetached demo_chrome (Int 9223) None;
        GetCdpEndpoint (Int 9223); ConnectOverCDP (Int 9223); Listen NaN],
       Failed
         "options.port should be >= 0 and < 65536. Received type number (NaN).").
Proof. repeat split. Qed.

Definition demo_ws : string := "ws://127.0.0.1:9223/devtools/browser/1".
Definition demo_decode : string → option string := decodeURIComponent.
Definition demo_body (name : string) : JsVal := JObj [("name", JStr name)].

(** The end-to-end scenario: create "a", create "a" again, list, close,
    list. *)
Example scenario_create_twice_list_close :
  let '(r1, _, a1) := post_pages demo_ws (PageCreated 1%nat (Some "T-1")) []
                        (demo_body "a") in
  let '(r2, calls2, a2) := post_pages demo_ws (PageCreated 2%nat (Some "T-2"))
                             r1 (demo_body "a") in
  let '(r3, _, a3) := delete_page demo_decode true r2 "a" in
  a1 = Json 200 (PageBody demo_ws "a" "T-1" "launch")
  ∧ a2 = a1 ∧ calls2 = [] ∧ r2 = r1
  ∧ get_pages r2 = Json 200 (PagesBody ["a"])
  ∧ a3 = Json 200 SuccessBody
  ∧ get_pages r3 = Json 200 (PagesBody []).
Proof. vm_compute. repeat split. Qed.

Lemma post_pages_reuses_entry_witness :
  post_pages demo_ws PageTimedOut [("a", mkEntry 1%nat "T-1")] (demo_body "a")
  = ([("a", mkEntry 1%nat "T-1")], [],
     Json 200 (PageBody demo_ws "a" "T-1" "launch")).
Proof.
  pose proof (post_pages_reuses_entry demo_ws [("a", mkEntry 1%nat "T-1")]
                (demo_body "a") "a") as H.
  destruct H as (Hreuse & _).
  - reflexivity.
  - simpl. lia.
  - apply (Hreuse PageTimedOut (mkEntry 1%nat "T-1")). reflexivity.
Defined.

Lemma post_pages_name_validation_witness :
  post_pages demo_ws PageTimedOut [] (JObj [("name", JNum 7)])
  = ([], [], Json 400 (ErrorBody "name is required and must be a string")).
Proof.
  pose proof (post_pages_name_validation demo_ws PageTimedOut []
                (JObj [("name", JNum 7)])) as H.
  destruct H as (_ & Hnonstring & _).
  apply (Hnonstring (JNum 7)); reflexivity.
Defined.

Lemma delete_page_removes_mapping_witness :
  delete_page demo_decode true [("a", mkEntry 1%nat "T-1")] "a"
  = ([], [ClosePage 1%nat], Json 200 SuccessBody)
  ∧ delete_page demo_decode true [] "a"
    = ([], [], Json 404 (ErrorBody "page not found")).
Proof.
  pose proof (delete_page_removes_mapping demo_decode
                [("a", mkEntry 1%nat "T-1")] "a" "a") as H.
  destruct H as (Hfound & _ & Hafter).
  - reflexivity.
  - split.
    + apply (Hfound (mkEntry 1%nat "T-1")). reflexivity.
    + destruct (Hafter (mkEntry 1%nat "T-1")) as [_ Hagain]; [reflexivity|].
      apply (Hagain true).
Defined.

(** C9. Pages named [50%] and [a%20b] have been created by [POST /pages].
    Express decodes the path segment before it calls the handler: for
    [DELETE /pages/50%25] the handler finds [50%] in [req.params.name], for
    [DELETE /pages/a%2520b] it finds [a%20b]. The handler decodes once
    more. For [50%] this throws: no answer is written, no page is closed
    and the name stays registered. For [a%20b] it gives [a b], which is
    not registered: the answer is 404 although the name of the request is
    registered, and its page stays open. *)
Theorem delete_page_decodes_twice :
  (post_pages demo_ws (PageCreated 1%nat (Some "T-1")) [] (demo_body "50%")).1.1
  = [("50%", mkEntry 1%nat "T-1")]
  ∧ (post_pages demo_ws (PageCreated 2%nat (Some "T-2")) []
       (demo_body "a%20b")).1.1
    = [("a%20b", mkEntry 2%nat "T-2")]
  ∧ decodeURIComponent "50%25" = Some "50%"
  ∧ decodeURIComponent "a%2520b" = Some "a%20b"
  ∧ (∀ closeResolves,
       delete_page decodeURIComponent closeResolves
         [("50%", mkEntry 1%nat "T-1")] "50%"
       = ([("50%", mkEntry 1%nat "T-1")], [],
          Rejected "URIError: URI malformed"))
  ∧ get_pages [("50%", mkEntry 1%nat "T-1")] = Json 200 (PagesBody ["50%"])
  ∧ (∀ closeResolves,
       delete_page decodeURIComponent closeResolves
         [("a%20b", mkEntry 2%nat "T-2")] "a%20b"
       = ([("a%20b", mkEntry 2%nat "T-2")], [],
          Json 404 (ErrorBody "page not found")))
  ∧ get_pages [("a%20b", mkEntry 2%nat "T-2")]
    = Json 200 (PagesBody ["a%20b"]).
Proof. repeat split; intros; by vm_compute. Qed.


End Server.


(* ===================================================================== *)
(** * The relay tables over time *)
(* ===================================================================== *)

Module Sessions.
Import Js Relay.

(** ** The [Map] as a list: membership and keys *)

Lemma elem_of_keys {K V} (x : K * V) (m : list (K * V)) : x ∈ m → x.1 ∈ m.*1.
Proof. intros Hx. apply list_elem_of_fmap. by exists x. Qed.

Lemma elem_of_jm_set {K V} `{EqDecision K} (k : K) (v : V) m x :
  NoDup m.*1 → x ∈ jm_set k v m → x = (k, v) ∨ (x ∈ m ∧ x.1 ≠ k).
Proof.
  induction m as [|[k' v'] m IH]; simpl.
  - intros _ ->%list_elem_of_singleton. by left.
  - intros [Hk' Hnd]%NoDup_cons. destruct (decide (k = k')) as [->|Hne].
    + intros [->|Hx]%elem_of_cons; [by left|].
      right. split; [apply elem_of_cons; by right|].
      intros Heq. apply Hk'. rewrite <- Heq. by apply elem_of_keys.
    + intros [->|Hx]%elem_of_cons.
      * right. split; [apply elem_of_cons; by left | by simpl].
      * destruct (IH Hnd Hx) as [->|[Hin Hk]]; [by left|].
        right. split; [apply elem_of_cons; by right | done].
Qed.

Lemma jm_set_keys {K V} `{EqDecision K} (k : K) (v : V) m y :
  y ∈ (jm_set k v m).*1 ↔ y = k ∨ y ∈ m.*1.
Proof.
  induction m as [|[k' v'] m IH]; simpl.
  - rewrite list_elem_of_singleton, elem_of_nil. tauto.
  - destruct (decide (k = k')) as [->|Hne]; simpl.
    + rewrite !elem_of_cons. tauto.
    + rewrite !elem_of_cons, IH. tauto.
Qed.

Lemma NoDup_jm_set {K V} `{EqDecision K} (k : K) (v : V) m :
  NoDup m.*1 → NoDup (jm_set k v m).*1.
Proof.
  induction m as [|[k' v'] m IH]; simpl.
  - intros _. apply NoDup_singleton.
  - intros [Hk' Hnd]%NoDup_cons. destruct (decide (k = k')) as [->|Hne]; simpl.
    + by apply NoDup_cons.
    + apply NoDup_cons. split; [|by apply IH].
      rewrite jm_set_keys. intros [->|Hin]; done.
Qed.

Lemma NoDup_filter_keys {K V} (P : K * V → Prop) `{∀ x, Decision (P x)}
    (m : list (K * V)) :
  NoDup m.*1 → NoDup (filter P m).*1.
Proof.
  induction m as [|[k' v'] m IH]; [done|].
  rewrite fmap_cons. intros [Hk' Hnd]%NoDup_cons. rewrite filter_cons.
  destruct (decide (P (k', v'))); [|by apply IH].
  rewrite fmap_cons. apply NoDup_cons. split; [|by apply IH].
  intros [x [Heq [_ Hin]%list_elem_of_filter]]%list_elem_of_fmap.
  apply Hk'. simpl in *. rewrite Heq. by apply elem_of_keys.
Qed.

Lemma NoDup_jm_delete {K V} `{EqDecision K} (k : K) (m : list (K * V)) :
  NoDup m.*1 → NoDup (jm_delete k m).*1.
Proof. apply NoDup_filter_keys. Qed.

Lemma jm_get_of_elem {K V} `{EqDecision K} (k : K) (v : V) m :
  NoDup m.*1 → (k, v) ∈ m → jm_get k m = Some v.
Proof.
  induction m as [|[k' v'] m IH]; simpl.
  - by intros _ ?%elem_of_nil.
  - intros [Hk' Hnd]%NoDup_cons [[= -> ->]|Hin]%elem_of_cons.
    + by rewrite decide_True.
    + rewrite decide_False; [by apply IH|].
      intros ->. apply Hk'. by apply (elem_of_keys (k', v)).
Qed.

Lemma jm_get_set {K V} `{EqDecision K} (k : K) (v : V) m k' :
  jm_get k' (jm_set k v m) = if decide (k = k') then Some v else jm_get k' m.
Proof.
  destruct (decide (k = k')) as [->|Hne];
    [apply jm_get_set_eq | by apply jm_get_set_ne].
Qed.

Lemma find_none {A} (f : A → bool) l x :
  List.find f l = None → x ∈ l → f x = false.
Proof.
  induction l as [|a l IH]; simpl; [by intros _ ?%elem_of_nil|].
  destruct (f a) eqn:Hfa; [done|].
  intros Hnone [->|Hin]%elem_of_cons; auto.
Qed.

(** ** What every reachable state satisfies *)

(** The session id [attachTab] mints from the counter. *)
Definition mint (n : Z) : string := "pw-tab-" +:+ pretty n.

Lemma mint_inj a b : mint a = mint b → a = b.
Proof.
  unfold mint. intros H. apply (inj pretty).
  by simplify_eq/=.
Qed.

Record well_formed (st : State) : Prop := mkWf {
  wf_counter : 1 ≤ nextSessionId st;
  wf_keys : NoDup (tabs st).*1;
  wf_child_keys : NoDup (childSessions st).*1;
  wf_minted : ∀ i tab s,
    (i, tab) ∈ tabs st → sessionId tab = Some s →
    ∃ k, 1 ≤ k < nextSessionId st ∧ s = mint k;
  wf_distinct : ∀ i j ti tj s,
    (i, ti) ∈ tabs st → (j, tj) ∈ tabs st →
    sessionId ti = Some s → sessionId tj = Some s → i = j;
  wf_children : ∀ sid parent,
    (sid, parent) ∈ childSessions st → is_Some (jm_get parent (tabs st))
}.

Lemma well_formed_initial : well_formed initial.
Proof.
  split; simpl; try apply NoDup_nil_2; try lia;
    intros; match goal with H : _ ∈ [] |- _ => by apply elem_of_nil in H end.
Qed.

(** A tab is written without a session ([connecting], [error]). *)
Lemma well_formed_mark st tabId info :
  sessionId info = None →
  well_formed st →
  well_formed (set_tabs st (jm_set tabId info (tabs st))).
Proof.
  intros Hnone [Hn Hk Hck Hm Hd Hc]. split; simpl.
  - done.
  - by apply NoDup_jm_set.
  - done.
  - intros i tab s [[= -> ->]|[Hin _]]%elem_of_jm_set Hs; [congruence| |done].
    eauto.
  - intros i j ti tj s [[= -> ->]|[Hi _]]%elem_of_jm_set; [congruence| |done].
    intros [[= -> ->]|[Hj _]]%elem_of_jm_set; [congruence| |done]. eauto.
  - intros sid parent Hin. rewrite jm_get_set.
    destruct (decide (tabId = parent)); eauto.
Qed.

(** A tab is written with the session minted from the counter. *)
Lemma well_formed_attach st tabId info :
  well_formed st → well_formed (attachTab st tabId info).1.
Proof.
  intros [Hn Hk Hck Hm Hd Hc]. unfold attachTab. split; simpl.
  - lia.
  - by apply NoDup_jm_set.
  - done.
  - intros i tab s [[= -> ->]|[Hin _]]%elem_of_jm_set; [| |done].
    + intros [= <-]. exists (nextSessionId st). split; [lia|done].
    + intros Hs. destruct (Hm _ _ _ Hin Hs) as (k & Hk1 & ->).
      exists k. split; [lia|done].
  - assert (Hfresh : ∀ j tj, (j, tj) ∈ tabs st →
                             sessionId tj ≠ Some (mint (nextSessionId st))).
    { intros j tj Hin Hs. destruct (Hm _ _ _ Hin Hs) as (k & Hk1 & Heq).
      apply mint_inj in Heq. lia. }
    intros i j ti tj s [[= -> ->]|[Hi Hik]]%elem_of_jm_set; [| |done];
      intros [[= -> ->]|[Hj Hjk]]%elem_of_jm_set; try done.
    + simpl. intros [= <-] Hs. by destruct (Hfresh _ _ Hj).
    + simpl. intros Hs [= <-]. by destruct (Hfresh _ _ Hi).
    + eauto.
  - intros sid parent Hin. rewrite jm_get_set.
    destruct (decide (tabId = parent)); eauto.
Qed.

(** A tab is removed together with the child sessions under it. *)
Lemma well_formed_remove st tabId :
  well_formed st →
  well_formed (mkState (jm_delete tabId (tabs st))
                 (dropChildrenOf tabId (childSessions st)) (wsOpen st)
                 (nextSessionId st)).
Proof.
  intros [Hn Hk Hck Hm Hd Hc]. split; simpl.
  - done.
  - by apply NoDup_jm_delete.
  - by apply NoDup_filter_keys.
  - intros i tab s [_ Hin]%list_elem_of_filter. eauto.
  - intros i j ti tj s [_ Hi]%list_elem_of_filter [_ Hj]%list_elem_of_filter.
    eauto.
  - intros sid parent [Hne Hin]%list_elem_of_filter. simpl in Hne.
    rewrite jm_get_delete_ne by done. eauto.
Qed.

(** The child-session table changes under a tab that is in the table. *)
Lemma well_formed_children st c :
  well_formed st →
  NoDup c.*1 →
  (∀ sid parent, (sid, parent) ∈ c → is_Some (jm_get parent (tabs st))) →
  well_formed (set_childSessions st c).
Proof. intros [Hn Hk Hck Hm Hd Hc] Hnd Hall. by split. Qed.

Lemma well_formed_detachTab st tabId b :
  well_formed st → well_formed (detachTab st tabId b).1.
Proof.
  intros Hwf. unfold detachTab. destruct (jm_get tabId (tabs st)); [|done].
  exact (well_formed_remove st tabId Hwf).
Qed.

Lemma well_formed_step st st' : step st st' → well_formed st → well_formed st'.
Proof.
  intros Hstep Hwf. destruct Hstep.
  - by apply well_formed_attach.
  - by apply well_formed_mark.
  - by apply well_formed_mark.
  - by apply well_formed_detachTab.
  - unfold onDebuggerDetach. destruct src as [tabId|]; [|done].
    destruct ((tabId =? 0) || negb (jm_has tabId (tabs st))); [done|].
    exact (well_formed_remove st tabId Hwf).
  - unfold onTabRemoved. destruct (jm_has tabId (tabs st)); [|done].
    pose proof (well_formed_detachTab st tabId false Hwf) as H.
    by destruct (detachTab st tabId false).
  - unfold onDebuggerEvent. destruct (src_tabId source) as [tabId|]; [|done].
    destruct (tabId =? 0); [done|].
    destruct (jm_get tabId (tabs st)) as [tab|] eqn:Htab; [|done].
    set (c1 := match (if String.eqb method "Target.attachedToTarget"
                      then eventSessionId params else None) with
               | Some sid => jm_set sid tabId (childSessions st)
               | None => childSessions st
               end).
    assert (well_formed (set_childSessions st c1)) as Hwf1.
    { apply well_formed_children; [done| |]; unfold c1;
        destruct (if String.eqb method "Target.attachedToTarget"
                  then eventSessionId params else None) as [sid|].
      - apply NoDup_jm_set, Hwf.
      - apply Hwf.
      - intros s p [[= -> ->]|[Hin _]]%elem_of_jm_set; [eauto| |apply Hwf].
        by eapply wf_children.
      - by apply wf_children. }
    destruct (if String.eqb method "Target.attachedToTarget"
              then eventSessionId params else None) as [sid|];
      destruct (if String.eqb method "Target.detachedFromTarget"
                then eventSessionId params else None) as [sid'|]; simpl;
      try exact Hwf1; try exact Hwf.
    + apply (well_formed_children (set_childSessions st c1)); [done| |].
      * apply NoDup_jm_delete, Hwf1.
      * intros s p [_ Hin]%list_elem_of_filter.
        by eapply (wf_children _ Hwf1).
    + apply (well_formed_children (set_childSessions st c1)); [done| |].
      * apply NoDup_jm_delete, Hwf1.
      * intros s p [_ Hin]%list_elem_of_filter.
        by eapply (wf_children _ Hwf1).
  - destruct Hwf. split; simpl; try apply NoDup_nil_2; try done;
      intros; match goal with H : _ ∈ [] |- _ => by apply elem_of_nil in H end.
  - by destruct Hwf.
Qed.

Lemma reachable_well_formed st : reachable st → well_formed st.
Proof.
  unfold reachable. intros Hr. pose proof well_formed_initial as Hinit.
  revert Hinit. induction Hr as [|x y z Hxy _ IH]; [done|].
  intros Hx. apply IH. by eapply well_formed_step.
Qed.

Lemma step_counter st st' : step st st' → nextSessionId st ≤ nextSessionId st'.
Proof.
  intros Hstep. destruct Hstep; try (simpl; lia).
  - unfold detachTab. destruct (jm_get tabId (tabs st)); simpl; lia.
  - unfold onDebuggerDetach. destruct src as [tabId|]; [|simpl; lia].
    destruct ((tabId =? 0) || negb (jm_has tabId (tabs st))); simpl; lia.
  - unfold onTabRemoved, detachTab. destruct (jm_has tabId (tabs st)); [|simpl; lia].
    destruct (jm_get tabId (tabs st)); simpl; lia.
  - unfold onDebuggerEvent. destruct (src_tabId source) as [tabId|]; [|simpl; lia].
    destruct (tabId =? 0); [simpl; lia|].
    destruct (jm_get tabId (tabs st)); [|simpl; lia].
    destruct (if String.eqb method "Target.attachedToTarget"
              then eventSessionId params else None);
      destruct (if String.eqb method "Target.detachedFromTarget"
                then eventSessionId params else None); simpl; lia.
Qed.

Lemma steps_counter st st' :
  rtc step st st' → nextSessionId st ≤ nextSessionId st'.
Proof.
  induction 1 as [|x y z Hxy _ IH]; [lia|].
  pose proof (step_counter _ _ Hxy). lia.
Qed.

(** ** Dispatch, read off the locals *)

Lemma special_method_false m :
  special_method m = false →
  String.eqb m "Runtime.enable" = false
  ∧ String.eqb m "Target.createTarget" = false
  ∧ String.eqb m "Target.closeTarget" = false.
Proof.
  unfold special_method. intros H.
  apply orb_false_elim in H as [H H3]. apply orb_false_elim in H as [H1 H2].
  done.
Qed.

Lemma handleCommand_forwards st id p i tab :
  (resolveTarget st p).1 = (Some i, Some tab) →
  i ≠ 0 →
  special_method (p_method p) = false →
  (handleCommand st (mkMsg id "forwardCDPCommand" p)).2
  = SendCommand i
      (if decide (p_sessionId p = sessionId tab) then None else p_sessionId p)
      (p_method p) (p_params p).
Proof.
  intros Hres Hi (H1 & H2 & H3)%special_method_false.
  unfold handleCommand. simpl.
  destruct (resolveTarget st p) as [[a b] logs]. simpl in Hres.
  injection Hres as -> ->. rewrite H1, H2, H3. simpl.
  apply Z.eqb_neq in Hi. by rewrite Hi.
Qed.

Lemma handleCommand_no_tab st id p a :
  (resolveTarget st p).1 = (a, None) →
  special_method (p_method p) = false →
  (handleCommand st (mkMsg id "forwardCDPCommand" p)).2
  = Throw ("No tab found for method " +:+ p_method p
           +:+ " sessionId: " +:+ show_opt (p_sessionId p)).
Proof.
  intros Hres (H1 & H2 & H3)%special_method_false.
  unfold handleCommand. simpl.
  destruct (resolveTarget st p) as [[a' b] logs]. simpl in Hres.
  injection Hres as -> ->. rewrite H1, H2, H3.
  by destruct (debuggee_of a).
Qed.

Lemma mint_nonempty k : mint k ≠ "".
Proof. done. Qed.

(** X1. In every state the script can reach, a child session refers to a tab
    that is in the tab table, and that tab's id is not 0. *)
Theorem child_sessions_have_attached_parent st sid parent :
  reachable st →
  jm_get sid (childSessions st) = Some parent →
  parent ≠ 0 ∧ ∃ tab,
    jm_get parent (tabs st) = Some tab
    ∧ byChildSession st sid = Some (parent, tab).
Proof.
  intros Hr Hsid.
  pose proof (reachable_well_formed _ Hr) as Hwf.
  pose proof (reachable_tab_ids_nonzero _ Hr) as [_ Hnz].
  pose proof (jm_get_elem_of _ _ _ Hsid) as Hin. split.
  - by eapply Forall_forall in Hnz; [|done].
  - destruct (wf_children _ Hwf _ _ Hin) as [tab Htab]. exists tab.
    split; [done|]. unfold byChildSession. rewrite Hsid. simpl.
    by rewrite Htab.
Qed.

Lemma well_formed_lookup st i tab s :
  well_formed st →
  jm_get i (tabs st) = Some tab →
  sessionId tab = Some s →
  getTabBySessionId (tabs st) s = Some (i, tab).
Proof.
  intros Hwf Htab Hs.
  apply jm_get_elem_of in Htab as Hin.
  unfold getTabBySessionId.
  destruct (List.find _ (tabs st)) as [[j tj]|] eqn:Hfind.
  - apply find_elem_of in Hfind as [Hj Hsj]. simpl in Hsj.
    apply bool_decide_eq_true in Hsj.
    pose proof (wf_distinct _ Hwf _ _ _ _ _ Hj Hin Hsj Hs) as ->.
    apply (jm_get_of_elem _ _ _ (wf_keys _ Hwf)) in Hj. congruence.
  - apply (find_none _ _ _ Hfind) in Hin. simpl in Hin.
    apply bool_decide_eq_false in Hin. done.
Qed.

(** X2. In every reachable state a session id belongs to one tab only:
    looking up the session id of a tab of the table gives that tab, and no
    other tab of the table has this session id. *)
Theorem session_lookup_unambiguous st i tab s :
  reachable st →
  jm_get i (tabs st) = Some tab →
  sessionId tab = Some s →
  getTabBySessionId (tabs st) s = Some (i, tab)
  ∧ ∀ j other, jm_get j (tabs st) = Some other →
               sessionId other = Some s → j = i.
Proof.
  intros Hr Htab Hs.
  pose proof (reachable_well_formed _ Hr) as Hwf.
  split; [by apply well_formed_lookup|].
  intros j other Hj Hso.
  apply jm_get_elem_of in Hj. apply jm_get_elem_of in Htab.
  by eapply (wf_distinct _ Hwf).
Qed.

(** X3. A session id is not used twice: the id [attachTab] gives to a tab
    differs from the session id of every tab of every earlier state. *)
Theorem session_ids_never_reused st1 st2 i tab s tabId info :
  reachable st1 → rtc step st1 st2 →
  jm_get i (tabs st1) = Some tab →
  sessionId tab = Some s →
  ∃ new,
    jm_get tabId (tabs (attachTab st2 tabId info).1) = Some new
    ∧ sessionId new = Some (mint (nextSessionId st2))
    ∧ mint (nextSessionId st2) ≠ s.
Proof.
  intros Hr Hsteps Htab Hs.
  pose proof (reachable_well_formed _ Hr) as Hwf.
  pose proof (steps_counter _ _ Hsteps) as Hle.
  apply jm_get_elem_of in Htab.
  destruct (wf_minted _ Hwf _ _ _ Htab Hs) as (k & Hk & ->).
  eexists. split; [apply jm_get_set_eq|]. split; [done|].
  intros Heq%mint_inj. lia.
Qed.

(** X4. In a reachable state, a command that carries the session id of a
    tab, for a method that is not handled specially, is sent to the
    debugger of that tab, and without a session id (the tab's own session is
    the debugger's root session). *)
Theorem command_to_tab_session_is_flat st id i tab s method params :
  reachable st →
  jm_get i (tabs st) = Some tab →
  sessionId tab = Some s →
  special_method method = false →
  (handleCommand st
     (mkMsg id "forwardCDPCommand" (mkParams (Some s) method params))).2
  = SendCommand i None method params.
Proof.
  intros Hr Htab Hs Hm.
  pose proof (reachable_well_formed _ Hr) as Hwf.
  pose proof (reachable_tab_ids_nonzero _ Hr) as [Hnz _].
  pose proof (well_formed_lookup _ _ _ _ Hwf Htab Hs) as Hlook.
  apply jm_get_elem_of in Htab as Hin.
  assert (i ≠ 0) as Hi by (by eapply Forall_forall in Hnz; [|done]).
  destruct (wf_minted _ Hwf _ _ _ Hin Hs) as (k & _ & ->).
  rewrite (handleCommand_forwards st id _ i tab); simpl.
  - rewrite Hs. by rewrite decide_True.
  - unfold resolveTarget, findBySessionId, checkChildSessions,
      findByTargetIdInParams. simpl. by rewrite Hlook.
  - done.
  - done.
Qed.



(** X7. When the relay socket closes, the debugger of every tab of the table
    is released, both tables are emptied, nothing is written to the relay
    (no detach announcement), and from then on every forwarded command for a
    method that is not handled specially throws the "No tab found" error,
    whatever session id or target id it carries. *)
Theorem socket_close_forgets_all_tabs st :
  let st' := (onSocketClose st).1 in
  let out := (onSocketClose st).2 in
  tabs st' = [] ∧ childSessions st' = [] ∧ wsOpen st' = false
  ∧ nextSessionId st' = nextSessionId st
  ∧ (∀ i, DebuggerDetach i ∈ out ↔ is_Some (jm_get i (tabs st)))
  ∧ (∀ m, Send m ∉ out)
  ∧ (∀ id p, special_method (p_method p) = false →
       (handleCommand st' (mkMsg id "forwardCDPCommand" p)).2
       = Throw ("No tab found for method " +:+ p_method p
                +:+ " sessionId: " +:+ show_opt (p_sessionId p))).
Proof.
  simpl. split; [done|]. split; [done|]. split; [done|]. split; [done|].
  split; [|split].
  - intros i. rewrite elem_of_app, list_elem_of_fmap, <- jm_keys_get. split.
    + intros [(j & [= ->] & Hj)|Hu]; [done|].
      apply list_elem_of_singleton in Hu. discriminate.
    + intros Hi. left. by exists i.
  - intros m [(j & Hj & _)%list_elem_of_fmap|Hu%list_elem_of_singleton]
      %elem_of_app; discriminate.
  - intros id p Hm.
    apply (handleCommand_no_tab _ id p None); [|done].
    unfold resolveTarget, findBySessionId, checkChildSessions,
      findByTargetIdInParams. simpl.
    destruct (p_sessionId p) as [sid|]; simpl.
    + destruct (String.eqb sid ""); simpl;
        destruct (p_params p) as [v|]; simpl; try done;
        destruct (truthy v && typeof_object v); try done;
        by destruct (get_prop v "targetId").
    + destruct (p_params p) as [v|]; simpl; try done.
      destruct (truthy v && typeof_object v); try done.
      by destruct (get_prop v "targetId").
Qed.



(** ** The demo state again *)

Lemma child_sessions_have_attached_parent_witness :
  byChildSession demo_state "iframe-A"
  = Some (7, mkTabInfo (Some "pw-tab-1") (Some "T-7") connected None).
Proof.
  destruct (child_sessions_have_attached_parent demo_state "iframe-A" 7
              demo_state_reachable eq_refl) as (_ & tab & Htab & Hchild).
  rewrite Hchild. f_equal. f_equal. vm_compute in Htab. congruence.
Defined.

Lemma session_lookup_unambiguous_witness :
  getTabBySessionId (tabs demo_state) "pw-tab-2"
  = Some (9, mkTabInfo (Some "pw-tab-2") (Some "T-9") connected None).
Proof.
  exact (proj1 (session_lookup_unambiguous demo_state 9 _ "pw-tab-2"
                  demo_state_reachable eq_refl eq_refl)).
Defined.

Lemma session_ids_never_reused_witness :
  ∃ new,
    jm_get 7 (tabs (attachTab demo_state 7
                      (mkTargetInfo "T-7b" "about:blank" false)).1) = Some new
    ∧ sessionId new = Some "pw-tab-3" ∧ "pw-tab-3" ≠ "pw-tab-1".
Proof.
  exact (session_ids_never_reused demo_state demo_state 7 _ "pw-tab-1" 7
           (mkTargetInfo "T-7b" "about:blank" false)
           demo_state_reachable (rtc_refl _ _) eq_refl eq_refl).
Defined.

Lemma command_to_tab_session_is_flat_witness :
  (handleCommand demo_state
     (demo_command (Some "pw-tab-1") "Page.reload" None)).2
  = SendCommand 7 None "Page.reload" None.
Proof.
  exact (command_to_tab_session_is_flat demo_state 1 7 _ "pw-tab-1"
           "Page.reload" None demo_state_reachable eq_refl eq_refl eq_refl).
Defined.



Lemma socket_close_forgets_all_tabs_witness :
  (handleCommand (onSocketClose demo_state).1
     (demo_command (Some "pw-tab-1") "Page.reload" None)).2
  = Throw "No tab found for method Page.reload sessionId: pw-tab-1".
Proof.
  destruct (socket_close_forgets_all_tabs demo_state)
    as (_ & _ & _ & _ & _ & _ & Hthrow).
  exact (Hthrow 1 (mkParams (Some "pw-tab-1") "Page.reload" None) eq_refl).
Defined.


End Sessions.


(* ===================================================================== *)
(** * The relay connection and the toolbar button *)
(* ===================================================================== *)

Module Connection.
Import Js Relay.

(** ** The reconnection loop

    [setTimeout] hands out handles 1, 2, ...; [pending] lists the timers
    that have been set and have neither fired nor been cleared. *)
Record Timers := mkTimers {
  reconnectTimer : option nat;
  pending : list nat;
  nextHandle : nat
}.

Definition clearTimeout (t : nat) (l : list nat) : list nat :=
  filter (λ x, x ≠ t) l.

(** [maintainConnection]: clear the timer in [reconnectTimer] if there is
    one, start [tryConnect] without waiting for it, set the next timer. The
    result counts the [tryConnect] calls started. *)
Definition maintainConnection (tm : Timers) : Timers * nat :=
  let tm1 :=
    match reconnectTimer tm with
    | Some t =>
        if (t =? 0)%nat then tm
        else mkTimers None (clearTimeout t (pending tm)) (nextHandle tm)
    | None => tm
    end in
  let t := nextHandle tm1 in
  (mkTimers (Some t) (t :: pending tm1) (S t), 1%nat).

Inductive LoopEvent :=
| TimerFires (t : nat)        (* runs [maintainConnection] *)
| SocketCloses.               (* [ws.onclose] ends with [maintainConnection()] *)

Definition loop_step (tm : Timers) (ev : LoopEvent) : Timers * nat :=
  match ev with
  | TimerFires t =>
      if bool_decide (t ∈ pending tm) then
        maintainConnection
          (mkTimers (reconnectTimer tm) (clearTimeout t (pending tm))
             (nextHandle tm))
      else (tm, O)
  | SocketCloses => maintainConnection tm
  end.

Fixpoint loop_run (tm : Timers) (evs : list LoopEvent) : Timers * nat :=
  match evs with
  | [] => (tm, O)
  | ev :: evs' =>
      let '(tm1, n1) := loop_step tm ev in
      let '(tm2, n2) := loop_run tm1 evs' in
      (tm2, (n1 + n2)%nat)
  end.

(** The script ends its start-up with [maintainConnection()]. *)
Definition started : Timers := (maintainConnection (mkTimers None [] 1)).1.

(** ** Connecting *)

(** How one connection attempt goes when the socket is not open:
    the [HEAD] probe of the relay fails, or the socket opens, or the socket
    fails to open (timeout, error, close) with a message. *)
Inductive Attempt :=
| RelayUnreachable
| Opens
| OpenFails (message : string).

Inductive ConnEffect :=
| FetchHead                   (* fetch("http://localhost:9222", HEAD) *)
| NewWebSocket                (* new WebSocket(RELAY_URL) *)
| AddDebuggerListeners
| Sleep (ms : Z).

Inductive Outcome (A : Type) :=
| Resolves (a : A)
| Rejects (message : string).
Arguments Resolves {A} a.
Arguments Rejects {A} message.

(** [tryConnect]: the state, with [wsOpen] set when the socket opened. *)
Definition tryConnect (st : State) (a : Attempt)
  : State * list (ConnEffect + Effect) * Outcome unit :=
  if wsOpen st then (st, [], Resolves ())
  else
    match a with
    | RelayUnreachable => (st, [inl FetchHead], Resolves ())
    | OpenFails message =>
        (st, [inl FetchHead; inl NewWebSocket], Rejects message)
    | Opens =>
        let st1 :=
          mkState (tabs st) (childSessions st) true (nextSessionId st) in
        (st1,
         [inl FetchHead; inl NewWebSocket; inl AddDebuggerListeners]
         ++ map inr (logger_log st1 [LStr "Connected to relay server"])
         ++ [inr UpdateIcons],
         Resolves ())
    end.

(** [ensureConnection]; [first] and [second] tell how its attempts go. *)
Definition ensureConnection (st : State) (first second : Attempt)
  : State * list (ConnEffect + Effect) * Outcome unit :=
  if wsOpen st then (st, [], Resolves ())
  else
    let '(st1, eff1, r1) := tryConnect st first in
    match r1 with
    | Rejects message => (st1, eff1, Rejects message)
    | Resolves _ =>
        if wsOpen st1 then (st1, eff1, Resolves ())
        else
          let '(st2, eff2, r2) := tryConnect st1 second in
          let eff := eff1 ++ [inl (Sleep 1000)] ++ eff2 in
          match r2 with
          | Rejects message => (st2, eff, Rejects message)
          | Resolves _ =>
              if wsOpen st2 then (st2, eff, Resolves ())
              else (st2, eff, Rejects "Could not connect to relay server")
          end
    end.

(** ** The toolbar button *)

Record Tab := mkTab {
  tab_id : option Z;
  tab_url : option string
}.

Definition restrictedPrefixes : list string :=
  ["chrome://"; "chrome-extension://"; "devtools://"; "edge://"].

Definition isRestrictedUrl (url : option string) : bool :=
  match url with
  | None => true
  | Some u =>
      if String.eqb u "" then true
      else existsb (λ prefix, String.prefix prefix u) restrictedPrefixes
  end.

(** How [attachTab] goes up to the answer of [Target.getTargetInfo]. *)
Inductive AttachAnswer :=
| AttachRejected (message : string)   (* chrome.debugger.attach rejects *)
| InfoRejected (message : string)     (* attached, getTargetInfo rejects *)
| Attached (info : TargetInfo).

Inductive ClickEffect :=
| Conn (e : ConnEffect)
| Relayed (e : Effect)
| DebuggerAttach (tabId : Z).         (* chrome.debugger.attach *)

Definition lift (l : list (ConnEffect + Effect)) : list ClickEffect :=
  map (λ e, match e with inl c => Conn c | inr r => Relayed r end) l.

Definition logger_error (st : State) (args : list LogArg) : list Effect :=
  sendMessage st (Log "error" args).

(** An argument that may be [undefined]. *)
Definition opt_arg (s : option string) : LogArg :=
  match s with Some s => LStr s | None => LTemplate "" None end.

(** The [catch] of [onActionClicked]; the error is known by its message. *)
Definition clickFailed (st : State) (tabId : Z) (message : string)
  : State * list ClickEffect :=
  (markError st tabId message,
   map Relayed (logger_error st [LStr "Failed to connect:"; LStr message])
   ++ [Relayed UpdateIcons]).

(** [onActionClicked], taken as one step: what else happens while it waits
    is not modelled. [first] and [second] tell how the connection attempts
    go, [answer] how attaching the debugger goes. *)
Definition onActionClicked (st : State) (tab : Tab) (first second : Attempt)
    (answer : AttachAnswer) : State * list ClickEffect :=
  match Config.truthy_num (tab_id tab) with
  | None => (st, map Relayed (logger_debug st [LStr "No tab ID available"]))
  | Some tabId =>
      if isRestrictedUrl (tab_url tab) then
        (st, map Relayed
               (logger_debug st [LStr "Cannot attach to restricted URL:";
                                 opt_arg (tab_url tab)]))
      else if bool_decide (state <$> jm_get tabId (tabs st) = Some connected)
      then
        let '(st', eff) := detachTab st tabId true in
        (st', map Relayed eff)
      else
        let st1 := markConnecting st tabId in
        let '(st2, eff2, r) := ensureConnection st1 first second in
        let before := Relayed UpdateIcons :: lift eff2 in
        match r with
        | Rejects message =>
            let '(st3, eff3) := clickFailed st2 tabId message in
            (st3, before ++ eff3)
        | Resolves _ =>
            let attaching :=
              map Relayed (logger_debug st2 [LStr "Attaching debugger to tab:";
                                            LNum tabId])
              ++ [DebuggerAttach tabId] in
            match answer with
            | AttachRejected message | InfoRejected message =>
                let '(st3, eff3) := clickFailed st2 tabId message in
                (st3, before ++ attaching ++ eff3)
            | Attached info =>
                let '(st3, eff3) := attachTab st2 tabId info in
                (st3, before ++ attaching ++ map Relayed eff3)
            end
        end
  end.


(** ** The reconnection loop: results *)

Definition one_timer (tm : Timers) : Prop :=
  ∃ t, pending tm = [t] ∧ reconnectTimer tm = Some t
       ∧ t ≠ O ∧ (t < nextHandle tm)%nat.

Lemma clearTimeout_single t : clearTimeout t [t] = [].
Proof. unfold clearTimeout. rewrite filter_cons, decide_False; [done|]. auto. Qed.

Lemma maintainConnection_one_timer tm t :
  reconnectTimer tm = Some t → t ≠ O → (t < nextHandle tm)%nat →
  pending tm = [t] ∨ pending tm = [] →
  one_timer (maintainConnection tm).1.
Proof.
  intros Ht Hnz Hlt Hp. unfold maintainConnection. rewrite Ht.
  apply Nat.eqb_neq in Hnz as Hnz'. rewrite Hnz'. simpl.
  exists (nextHandle tm). simpl.
  destruct Hp as [-> | ->]; rewrite ?clearTimeout_single; simpl;
    (split; [done|split; [done|split; lia]]).
Qed.

Lemma loop_step_one_timer tm ev : one_timer tm → one_timer (loop_step tm ev).1.
Proof.
  intros (t & Hp & Ht & Hnz & Hlt). destruct ev as [t'|]; simpl.
  - case_bool_decide as Hin; [|by exists t].
    rewrite Hp in Hin. apply list_elem_of_singleton in Hin. subst t'.
    apply (maintainConnection_one_timer _ t); simpl; try done.
    right. by rewrite Hp, clearTimeout_single.
  - apply (maintainConnection_one_timer _ t); auto.
Qed.

(** X9. From the start of the script on, whatever timers fire and however
    often the socket closes, exactly one reconnection timer is pending, the
    one held in [reconnectTimer]: the loop neither stops nor doubles. *)
Theorem reconnect_loop_keeps_one_timer evs :
  ∃ t, pending (loop_run started evs).1 = [t]
       ∧ reconnectTimer (loop_run started evs).1 = Some t.
Proof.
  assert (Hgen : ∀ tm, one_timer tm → one_timer (loop_run tm evs).1).
  { induction evs as [|ev evs IH]; intros tm Htm; simpl; [done|].
    pose proof (loop_step_one_timer tm ev Htm) as H1.
    destruct (loop_step tm ev) as [tm1 n1]. simpl in H1.
    specialize (IH tm1 H1). by destruct (loop_run tm1 evs). }
  destruct (Hgen started) as (t & Hp & Ht & _).
  - exists 1%nat. unfold started. simpl. repeat split; lia.
  - by exists t.
Qed.

(** ** Connecting: results *)

Lemma tryConnect_spec st a :
  let '(st', eff, r) := tryConnect st a in
  tabs st' = tabs st ∧ childSessions st' = childSessions st
  ∧ nextSessionId st' = nextSessionId st
  ∧ (wsOpen st = true → st' = st ∧ eff = [] ∧ r = Resolves ())
  ∧ (wsOpen st = false →
     (wsOpen st' = true ↔ a = Opens)
     ∧ (r = Resolves () ↔ ∀ message, a ≠ OpenFails message)
     ∧ (inl NewWebSocket ∈ eff ↔ a ≠ RelayUnreachable)).
Proof.
  unfold tryConnect. destruct (wsOpen st) eqn:Hopen.
  - repeat split; done.
  - destruct a as [| |message]; simpl; (do 3 (split; [done|]));
      (split; [done|]); intros _; rewrite ?Hopen.
    + split; [done|]. split; [done|]. split; [|done].
      intros [=]%list_elem_of_singleton.
    + split; [done|]. split; [done|]. split; [done|].
      intros _. apply elem_of_cons; right. apply elem_of_cons; by left.
    + split; [done|]. split.
      * split; [done|]. intros H. by destruct (H message).
      * split; [done|]. intros _. apply elem_of_cons; right.
        apply elem_of_cons; by left.
Qed.

(** X10. [ensureConnection] resolves exactly when the relay socket is open at
    its end, and then the tables are as before. With the socket already
    open it does nothing. Otherwise it makes one attempt and, only if that
    one found the relay unreachable, a second one a second later; it
    rejects with "Could not connect to relay server" when both found the
    relay unreachable, and with the error of the socket when an attempt
    failed to open. *)
Theorem ensureConnection_outcome st first second :
  let '(st', eff, r) := ensureConnection st first second in
  tabs st' = tabs st ∧ childSessions st' = childSessions st
  ∧ nextSessionId st' = nextSessionId st
  ∧ (r = Resolves () ↔ wsOpen st' = true)
  ∧ (wsOpen st = true → st' = st ∧ eff = [])
  ∧ (wsOpen st = false →
     (inl (Sleep 1000) ∈ eff ↔ first = RelayUnreachable)
     ∧ match first, second with
       | Opens, _ | RelayUnreachable, Opens => r = Resolves ()
       | OpenFails message, _ | RelayUnreachable, OpenFails message =>
           r = Rejects message
       | RelayUnreachable, RelayUnreachable =>
           r = Rejects "Could not connect to relay server"
       end).
Proof.
  unfold ensureConnection. destruct (wsOpen st) eqn:Hopen.
  { repeat split; try done. }
  unfold tryConnect. rewrite Hopen.
  destruct first as [| |m1]; simpl; rewrite ?Hopen.
  - destruct second as [| |m2]; simpl; rewrite ?Hopen;
      (do 3 (split; [done|])); (split; [split; done|]); (split; [done|]);
      intros _; (split; [|done]); (split; [done|]); intros _;
      apply elem_of_cons; right; apply elem_of_cons; by left.
  - (do 3 (split; [done|])). split; [done|]. split; [done|]. intros _.
    split; [|done]. split; [|done].
    rewrite !elem_of_cons, elem_of_nil. intuition discriminate.
  - (do 3 (split; [done|])). split; [rewrite ?Hopen; split; done|].
    split; [done|]. intros _. split; [|done]. split; [|done].
    rewrite !elem_of_cons, elem_of_nil. intros [?|[?|?]]; done.
Qed.


(** ** The toolbar button: results *)

Lemma ensureConnection_state st first second :
  (ensureConnection st first second).1.1 = st
  ∨ (ensureConnection st first second).1.1
    = mkState (tabs st) (childSessions st) true (nextSessionId st).
Proof.
  unfold ensureConnection, tryConnect. destruct (wsOpen st) eqn:Hopen; [by left|].
  destruct first; simpl; rewrite ?Hopen; [|by right|by left].
  destruct second; simpl; rewrite ?Hopen; [by left|by right|by left].
Qed.


Lemma ensureConnection_resolves st first second :
  (ensureConnection st first second).2 = Resolves () →
  wsOpen (ensureConnection st first second).1.1 = true.
Proof.
  unfold ensureConnection, tryConnect. destruct (wsOpen st) eqn:Hopen; [done|].
  destruct first; simpl; rewrite ?Hopen; [|done|done].
  destruct second; simpl; rewrite ?Hopen; done.
Qed.

Lemma elem_of_lift e l : e ∈ lift l → ∀ i, e ≠ DebuggerAttach i.
Proof.
  unfold lift. intros (x & -> & _)%list_elem_of_fmap i. by destruct x.
Qed.

Lemma elem_of_Relayed e (l : list Effect) :
  e ∈ map Relayed l → ∀ i, e ≠ DebuggerAttach i.
Proof. by intros (x & -> & _)%list_elem_of_fmap i. Qed.



(** X12. The debugger is attached only to the clicked tab, only when its id
    is truthy and its URL not restricted, only when the tab was not
    connected before the click, and only once the relay connection is
    open. *)
Theorem debugger_attached_only_when_connected st tab first second answer i :
  DebuggerAttach i ∈ (onActionClicked st tab first second answer).2 →
  tab_id tab = Some i ∧ i ≠ 0
  ∧ isRestrictedUrl (tab_url tab) = false
  ∧ state <$> jm_get i (tabs st) ≠ Some connected
  ∧ (ensureConnection (markConnecting st i) first second).2 = Resolves ()
  ∧ wsOpen (ensureConnection (markConnecting st i) first second).1.1 = true.
Proof.
  unfold onActionClicked.
  destruct (Config.truthy_num (tab_id tab)) as [tabId|] eqn:Hid.
  2:{ intros H. by destruct (elem_of_Relayed _ _ H i). }
  destruct (isRestrictedUrl (tab_url tab)) eqn:Hurl.
  { intros H. by destruct (elem_of_Relayed _ _ H i). }
  assert (Hnz : tab_id tab = Some tabId ∧ tabId ≠ 0).
  { unfold Config.truthy_num in Hid. destruct (tab_id tab) as [n|]; [|done].
    destruct (n =? 0) eqn:Hn; [done|]. apply Z.eqb_neq in Hn. by simplify_eq. }
  case_bool_decide as Hconn.
  { destruct (detachTab st tabId true) as [st' eff].
    intros H. by destruct (elem_of_Relayed _ _ H i). }
  pose proof (ensureConnection_resolves (markConnecting st tabId) first second)
    as Hres.
  destruct (ensureConnection (markConnecting st tabId) first second)
    as [[st2 eff2] r] eqn:Hens.
  assert (Hbefore : DebuggerAttach i ∈ Relayed UpdateIcons :: lift eff2 → False).
  { intros [?|H]%elem_of_cons; [done|]. by destruct (elem_of_lift _ _ H i). }
  assert (Hfailed : ∀ message,
            DebuggerAttach i ∈ (clickFailed st2 tabId message).2 → False).
  { intros message. unfold clickFailed. simpl.
    intros [H|H]%elem_of_app.
    - by destruct (elem_of_Relayed _ _ H i).
    - by apply list_elem_of_singleton in H. }
  assert (Hattaching : ∀ l,
    DebuggerAttach i ∈ map Relayed l ++ [DebuggerAttach tabId] → i = tabId).
  { intros l [H|H]%elem_of_app.
    - by destruct (elem_of_Relayed _ _ H i).
    - apply list_elem_of_singleton in H. by simplify_eq. }
  assert (Hgoal : i = tabId → r = Resolves () →
    tab_id tab = Some i ∧ i ≠ 0 ∧ false = false
    ∧ state <$> jm_get i (tabs st) ≠ Some connected
    ∧ (ensureConnection (markConnecting st i) first second).2 = Resolves ()
    ∧ wsOpen (ensureConnection (markConnecting st i) first second).1.1 = true).
  { intros -> ->. destruct Hnz as [H1 H2]. rewrite Hens. simpl.
    repeat split; try done. by apply Hres. }
  destruct r as [[]|message].
  - destruct answer as [message|message|info].
    + pose proof (Hfailed message) as Hf.
      destruct (clickFailed st2 tabId message) as [st3 eff3].
      cbv zeta. intros [H|[H|H]%elem_of_app]%elem_of_app.
      * by destruct (Hbefore H).
      * apply Hgoal; [by eapply Hattaching|done].
      * by destruct (Hf H).
    + pose proof (Hfailed message) as Hf.
      destruct (clickFailed st2 tabId message) as [st3 eff3].
      cbv zeta. intros [H|[H|H]%elem_of_app]%elem_of_app.
      * by destruct (Hbefore H).
      * apply Hgoal; [by eapply Hattaching|done].
      * by destruct (Hf H).
    + destruct (attachTab st2 tabId info) as [st3 eff3].
      cbv zeta. intros [H|[H|H]%elem_of_app]%elem_of_app.
      * by destruct (Hbefore H).
      * apply Hgoal; [by eapply Hattaching|done].
      * by destruct (elem_of_Relayed _ _ H i).
  - pose proof (Hfailed message) as Hf.
    destruct (clickFailed st2 tabId message) as [st3 eff3].
    cbv zeta. intros [H|H]%elem_of_app.
    + by destruct (Hbefore H).
    + by destruct (Hf H).
Qed.


Lemma debugger_attached_only_when_connected_witness :
  wsOpen (ensureConnection (markConnecting initial 5) RelayUnreachable Opens).1.1
  = true.
Proof.
  apply (debugger_attached_only_when_connected initial
           (mkTab (Some 5) (Some "https://example.org/"))
           RelayUnreachable Opens
           (Attached (mkTargetInfo "T5" "https://example.org/" false)) 5).
  vm_compute. repeat constructor.
Defined.



(** X14. A click is made of turns of the script: from a reachable state it
    leads to a reachable state, so what holds of every reachable state
    holds after any number of clicks. *)
Theorem click_preserves_reachable st tab first second answer :
  reachable st → reachable (onActionClicked st tab first second answer).1.
Proof.
  intros Hst. unfold onActionClicked.
  destruct (Config.truthy_num (tab_id tab)) as [tabId|] eqn:Hid; [|done].
  destruct (isRestrictedUrl (tab_url tab)); [done|].
  assert (Hnz : tabId ≠ 0).
  { unfold Config.truthy_num in Hid. destruct (tab_id tab) as [n|]; [|done].
    destruct (n =? 0) eqn:Hn; [done|]. apply Z.eqb_neq in Hn. by simplify_eq. }
  case_bool_decide as Hconn.
  { pose proof (step_detach st tabId true) as Hstep.
    destruct (detachTab st tabId true) as [st' eff].
    eapply rtc_r; [exact Hst|exact Hstep]. }
  assert (H1 : reachable (markConnecting st tabId)).
  { eapply rtc_r; [exact Hst|]. by apply step_connecting. }
  assert (H2 : reachable (ensureConnection (markConnecting st tabId)
                            first second).1.1).
  { destruct (ensureConnection_state (markConnecting st tabId) first second)
      as [-> | ->]; [done|].
    eapply rtc_r; [exact H1|]. apply step_open. }
  destruct (ensureConnection (markConnecting st tabId) first second)
    as [[st2 eff2] r]. simpl in H2.
  assert (Hfailed : ∀ message, reachable (clickFailed st2 tabId message).1).
  { intros message. eapply rtc_r; [exact H2|]. by apply step_error. }
  destruct r as [[]|message].
  - destruct answer as [message|message|info].
    + pose proof (Hfailed message) as Hf.
      by destruct (clickFailed st2 tabId message).
    + pose proof (Hfailed message) as Hf.
      by destruct (clickFailed st2 tabId message).
    + pose proof (step_attach st2 tabId info Hnz) as Hstep.
      destruct (attachTab st2 tabId info) as [st3 eff3].
      eapply rtc_r; [exact H2|exact Hstep].
  - pose proof (Hfailed message) as Hf.
    by destruct (clickFailed st2 tabId message).
Qed.

Lemma click_preserves_reachable_witness :
  reachable (onActionClicked initial
               (mkTab (Some 5) (Some "https://example.org/"))
               Opens Opens
               (Attached (mkTargetInfo "T5" "https://example.org/" false))).1.
Proof.
  apply (click_preserves_reachable initial). apply rtc_refl.
Defined.


Lemma reconnect_loop_keeps_one_timer_witness :
  ∃ t, pending (loop_run started
                  [TimerFires 1; SocketCloses; TimerFires 2; TimerFires 3]).1
       = [t]
       ∧ reconnectTimer
           (loop_run started
              [TimerFires 1; SocketCloses; TimerFires 2; TimerFires 3]).1
         = Some t.
Proof.
  apply (reconnect_loop_keeps_one_timer
           [TimerFires 1; SocketCloses; TimerFires 2; TimerFires 3]).
Defined.

Lemma ensureConnection_outcome_witness :
  (ensureConnection initial RelayUnreachable Opens).2 = Resolves ()
  ∧ wsOpen (ensureConnection initial RelayUnreachable Opens).1.1 = true.
Proof.
  pose proof (ensureConnection_outcome initial RelayUnreachable Opens) as H.
  destruct (ensureConnection initial RelayUnreachable Opens) as [[st' eff] r].
  destruct H as (_ & _ & _ & Hiff & _ & Hclosed).
  destruct (Hclosed eq_refl) as [_ Hr]. simpl in *.
  split; [exact Hr|]. by apply Hiff.
Defined.

End Connection.

(* ===================================================================== *)
(** * The life of the server ([external-browser.ts]): start-up, idle
      timer, page names, shutdown *)
(* ===================================================================== *)

Module Lifecycle.
Import Js Server.

(** ** Waiting for the browser *)

Inductive EndpointEffect :=
| FetchVersion (cdpPort : Z)    (* fetch(`http://127.0.0.1:${cdpPort}/json/version`) *)
| Wait (ms : Z).                (* await new Promise(r => setTimeout(r, ms)) *)

Inductive EndpointResult :=
| Endpoint (webSocketDebuggerUrl : string)
| EndpointError (message : string).

(** [maxRetries * 0.5] as the template literal prints it, for a count. *)
Definition half (n : nat) : string :=
  if Nat.even n then pretty (Z.of_nat (n / 2))
  else pretty (Z.of_nat (n / 2)) +:+ ".5".

Definition did_not_start (cdpPort : Z) (maxRetries : nat) : string :=
  "Browser did not start on port " +:+ pretty cdpPort +:+ " within "
  +:+ half maxRetries +:+ "s".

(** The [for] loop of [getCdpEndpoint] from iteration [i], with [n]
    iterations left. [probe i] is what iteration [i] gets: the
    [webSocketDebuggerUrl] of an ok response, or [None] when the response
    is not ok, the fetch throws or the body does not parse. *)
Fixpoint getCdpEndpoint_from (probe : nat → option string) (cdpPort : Z)
    (n i : nat) : list EndpointEffect * option string :=
  match n with
  | O => ([], None)
  | S n' =>
      match probe i with
      | Some url => ([FetchVersion cdpPort], Some url)
      | None =>
          let '(eff, r) := getCdpEndpoint_from probe cdpPort n' (S i) in
          (FetchVersion cdpPort :: Wait 500 :: eff, r)
      end
  end.

Definition getCdpEndpoint (probe : nat → option string) (cdpPort : Z)
    (maxRetries : nat) : list EndpointEffect * EndpointResult :=
  let '(eff, r) := getCdpEndpoint_from probe cdpPort maxRetries O in
  (eff,
   match r with
   | Some url => Endpoint url
   | None => EndpointError (did_not_start cdpPort maxRetries)
   end).

(** [k] failed rounds: a probe and a wait of half a second each. *)
Definition failed_rounds (cdpPort : Z) (k : nat) : list EndpointEffect :=
  mjoin (replicate k [FetchVersion cdpPort; Wait 500]).

Lemma getCdpEndpoint_from_ready probe cdpPort url :
  ∀ (k n i : nat),
    (k < n)%nat → probe (i + k)%nat = Some url →
    (∀ j, (j < k)%nat → probe (i + j)%nat = None) →
    getCdpEndpoint_from probe cdpPort n i
    = (failed_rounds cdpPort k ++ [FetchVersion cdpPort], Some url).
Proof.
  induction k as [|k IH]; intros n i Hk Hurl Hnone.
  - destruct n as [|n]; [lia|]. simpl.
    replace (i + 0)%nat with i in Hurl by lia. by rewrite Hurl.
  - destruct n as [|n]; [lia|]. simpl.
    specialize (Hnone O ltac:(lia)) as H0.
    replace (i + 0)%nat with i in H0 by lia. rewrite H0.
    rewrite (IH n (S i)); [done|lia| |].
    + by replace (S i + k)%nat with (i + S k)%nat by lia.
    + intros j Hj. replace (S i + j)%nat with (i + S j)%nat by lia.
      apply Hnone. lia.
Qed.

Lemma getCdpEndpoint_from_never probe cdpPort :
  ∀ (n i : nat),
    (∀ j, (j < n)%nat → probe (i + j)%nat = None) →
    getCdpEndpoint_from probe cdpPort n i = (failed_rounds cdpPort n, None).
Proof.
  induction n as [|n IH]; intros i Hnone; [done|]. simpl.
  specialize (Hnone O ltac:(lia)) as H0.
  replace (i + 0)%nat with i in H0 by lia. rewrite H0.
  rewrite (IH (S i)); [done|].
  intros j Hj. replace (S i + j)%nat with (i + S j)%nat by lia.
  apply Hnone. lia.
Qed.

(** X15. [getCdpEndpoint] returns the endpoint of the first probe that is
    answered, after one probe and one wait of 500 ms for each probe before
    it. When none of the [maxRetries] probes is answered it throws, after
    [maxRetries] probes and as many waits, an error that names the port and
    half as many seconds as there were probes; for the 60 probes of the
    default that is the 30 s of the start-up's error. *)
Theorem getCdpEndpoint_first_answer probe cdpPort maxRetries :
  (∀ k url,
     (k < maxRetries)%nat → probe k = Some url →
     (∀ j, (j < k)%nat → probe j = None) →
     getCdpEndpoint probe cdpPort maxRetries
     = (failed_rounds cdpPort k ++ [FetchVersion cdpPort], Endpoint url))
  ∧ ((∀ j, (j < maxRetries)%nat → probe j = None) →
     getCdpEndpoint probe cdpPort maxRetries
     = (failed_rounds cdpPort maxRetries,
        EndpointError (did_not_start cdpPort maxRetries)))
  ∧ did_not_start cdpPort 60
    = "Browser did not start on port " +:+ pretty cdpPort +:+ " within 30s".
Proof.
  split; [|split].
  - intros k url Hk Hurl Hnone. unfold getCdpEndpoint.
    by rewrite (getCdpEndpoint_from_ready probe cdpPort url k maxRetries O).
  - intros Hnone. unfold getCdpEndpoint.
    by rewrite (getCdpEndpoint_from_never probe cdpPort maxRetries O).
  - reflexivity.
Qed.


Definition demo_probe (i : nat) : option string :=
  if (i =? 2)%nat then Some "ws://127.0.0.1:9223/devtools/browser/b1" else None.

Lemma getCdpEndpoint_first_answer_witness :
  getCdpEndpoint demo_probe 9223 60
  = ([FetchVersion 9223; Wait 500; FetchVersion 9223; Wait 500;
      FetchVersion 9223],
     Endpoint "ws://127.0.0.1:9223/devtools/browser/b1").
Proof.
  apply (proj1 (getCdpEndpoint_first_answer demo_probe 9223 60) 2%nat).
  - lia.
  - reflexivity.
  - intros j Hj. destruct j as [|[|j]]; [reflexivity|reflexivity|lia].
Defined.

(** ** Start-up: what a started server has done *)

(** The calls of [launchBrowserDetached] among the effects, each with its
    arguments. *)
Definition launches (effects : list StartupEffect)
  : list (string * JsNumber * option string) :=
  omap (λ e, match e with
             | LaunchBrowserDetached path cdpPort userDataDir =>
                 Some (path, cdpPort, userDataDir)
             | _ => None
             end) effects.

(** A port the three checks let through. *)
Definition in_range_or_NaN (n : JsNumber) : Prop :=
  match n with
  | Int z => 1 ≤ z ≤ 65535
  | NaN => True
  end.

Lemma passes_validation_iff port cdpPort :
  passes_validation port cdpPort = true
  ↔ in_range_or_NaN port ∧ in_range_or_NaN cdpPort
    ∧ (port ≠ cdpPort ∨ port = NaN).
Proof.
  unfold passes_validation.
  destruct port as [p|], cdpPort as [c|]; cbn [lt strict_eq in_range_or_NaN];
    rewrite ?andb_true_iff, ?negb_true_iff, ?orb_false_iff, ?Z.ltb_ge,
      ?Z.eqb_neq.
  - split.
    + intros [[[??] [??]] ?]. repeat split; try lia. left. congruence.
    + intros [[??] [[??] [Hne|Hne]]]; [|done]. repeat split; try lia.
      intros ->. by apply Hne.
  - split.
    + intros [[[??] _] _]. repeat split; try lia. by left.
    + intros [[??] _]. repeat split; lia.
  - split.
    + intros [[_ [??]] _]. repeat split; try lia. by right.
    + intros [_ [[??] _]]. repeat split; lia.
  - split; [|done]. intros _. repeat split. by right.
Qed.

Lemma launches_app l1 l2 : launches (l1 ++ l2) = launches l1 ++ launches l2.
Proof. apply omap_app. Qed.

Lemma serve_validated_launches options env port cdpPort :
  launches (serve_validated options env port cdpPort).1
  = if passes_validation port cdpPort
       && negb (answer_isBrowserRunning env cdpPort)
       && default true (opt_autoLaunch options)
    then match truthy_path (opt_browserPath options) with
         | Some path => [(path, cdpPort, opt_userDataDir options)]
         | None => []
         end
    else [].
Proof.
  unfold passes_validation, serve_validated.
  destruct (lt port (Int 1) || lt (Int 65535) port); [done|].
  destruct (lt cdpPort (Int 1) || lt (Int 65535) cdpPort); [done|].
  destruct (strict_eq port cdpPort); [done|]. cbv zeta.
  destruct (answer_isBrowserRunning env cdpPort);
    [|destruct (default true (opt_autoLaunch options));
      [destruct (truthy_path (opt_browserPath options)) as [path|]|
       destruct (truthy_path (opt_browserPath options)) as [path|]]];
    try done;
    (destruct (answer_getCdpEndpoint env cdpPort) as [e|];
     [destruct (env_connects env); [destruct (listen_throws port)|]|]);
    cbn [fst snd negb andb]; try done;
    by destruct (0 <? default IDLE_TIMEOUT_MS (opt_idleTimeout options)).
Qed.

Lemma truthy_path_Some p path :
  truthy_path p = Some path ↔ p = Some path ∧ path ≠ "".
Proof.
  unfold truthy_path. destruct p as [s|].
  - destruct (String.eqb s "") eqn:Hs.
    + apply String.eqb_eq in Hs. subst s. split; [done|].
      intros [[= <-] Hne]. by destruct Hne.
    + apply String.eqb_neq in Hs. split.
      * by intros [= <-].
      * by intros [[= <-] _].
  - split; [done|]. by intros [? _].
Qed.

Lemma serveWithExternalBrowser_launches options env :
  launches (serveWithExternalBrowser options env).1
  = match (resolve_port options env).2 with
    | inl port =>
        launches
          (serve_validated options env port
             (default (Int (env_cdpPort env)) (opt_cdpPort options))).1
    | inr _ => []
    end.
Proof.
  unfold serveWithExternalBrowser, resolve_port.
  destruct (opt_port options) as [port|]; cbn [fst snd].
  - by destruct (serve_validated options env port _).
  - destruct (env_found env) as [port|message]; [|done].
    by destruct (serve_validated options env (Int port) _).
Qed.

Lemma serve_validated_started options env port cdpPort n ws :
  (serve_validated options env port cdpPort).2 = Started n ws →
  ∃ p c,
    n = Int p ∧ port = Int p ∧ cdpPort = Int c
    ∧ 1 ≤ p ≤ 65535 ∧ 1 ≤ c ≤ 65535 ∧ p ≠ c
    ∧ env_endpoint env = Some ws ∧ env_connects env = true
    ∧ (env_running env = true
       ∨ ∃ path, LaunchBrowserDetached path cdpPort (opt_userDataDir options)
                 ∈ (serve_validated options env port cdpPort).1)
    ∧ Listen port ∈ (serve_validated options env port cdpPort).1
    ∧ RegisterServer port (env_pid env) cdpPort
      ∈ (serve_validated options env port cdpPort).1.
Proof.
  unfold serve_validated.
  destruct (lt port (Int 1) || lt (Int 65535) port) eqn:H1; [done|].
  destruct (lt cdpPort (Int 1) || lt (Int 65535) cdpPort) eqn:H2; [done|].
  destruct (strict_eq port cdpPort) eqn:H3; [done|].
  cbv zeta.
  assert (Hin : ∀ launched tail,
    Listen port ∈ [IsBrowserRunning cdpPort] ++ launched
      ++ [GetCdpEndpoint cdpPort; ConnectOverCDP cdpPort; Listen port;
          RegisterServer port (env_pid env) cdpPort; WritePortFile port;
          OutputPortForDiscovery port] ++ tail
    ∧ RegisterServer port (env_pid env) cdpPort
      ∈ [IsBrowserRunning cdpPort] ++ launched
        ++ [GetCdpEndpoint cdpPort; ConnectOverCDP cdpPort; Listen port;
            RegisterServer port (env_pid env) cdpPort; WritePortFile port;
            OutputPortForDiscovery port] ++ tail).
  { intros launched tail. rewrite !elem_of_app, !elem_of_cons. tauto. }
  destruct cdpPort as [c|].
  2:{ cbn [answer_isBrowserRunning answer_getCdpEndpoint].
      destruct (default true (opt_autoLaunch options));
        [destruct (truthy_path (opt_browserPath options))|]; done. }
  destruct port as [p|].
  2:{ cbn [listen_throws answer_isBrowserRunning answer_getCdpEndpoint].
      destruct (env_running env);
        [|destruct (default true (opt_autoLaunch options));
          [destruct (truthy_path (opt_browserPath options))|]]; try done;
        (destruct (env_endpoint env); [destruct (env_connects env)|]); done. }
  cbn [lt strict_eq] in H1, H2, H3.
  apply orb_false_iff in H1 as [H1a H1b]. apply orb_false_iff in H2 as [H2a H2b].
  apply Z.ltb_ge in H1a, H1b, H2a, H2b. apply Z.eqb_neq in H3.
  cbn [answer_isBrowserRunning answer_getCdpEndpoint].
  destruct (env_running env) eqn:Hrun.
  - destruct (env_endpoint env) as [e|]; [|done].
    destruct (env_connects env); [|done].
    destruct (listen_throws (Int p)); [done|]. cbn [fst snd].
    intros [= <- <-]. destruct (Hin [] (
      (if 0 <? default IDLE_TIMEOUT_MS (opt_idleTimeout options)
       then [SetIdleTimer (default IDLE_TIMEOUT_MS (opt_idleTimeout options))]
       else []) ++ [InstallHandlers])) as [Hl Hr].
    exists p, c. repeat split; try done; try lia; by left.
  - destruct (default true (opt_autoLaunch options));
      [destruct (truthy_path (opt_browserPath options)) as [path|]|];
      [|done|done].
    destruct (env_endpoint env) as [e|]; [|done].
    destruct (env_connects env); [|done].
    destruct (listen_throws (Int p)); [done|]. cbn [fst snd].
    intros [= <- <-]. destruct (Hin
      [LaunchBrowserDetached path (Int c) (opt_userDataDir options)] (
      (if 0 <? default IDLE_TIMEOUT_MS (opt_idleTimeout options)
       then [SetIdleTimer (default IDLE_TIMEOUT_MS (opt_idleTimeout options))]
       else []) ++ [InstallHandlers])) as [Hl Hr].
    exists p, c. repeat split; try done; try lia;
      (right; exists path; rewrite !elem_of_app, !elem_of_cons; tauto).
Qed.

Lemma serve_validated_registered options env port cdpPort p pid c :
  RegisterServer p pid c ∈ (serve_validated options env port cdpPort).1 →
  ∃ ws, (serve_validated options env port cdpPort).2 = Started p ws.
Proof.
  unfold serve_validated.
  destruct (lt port (Int 1) || lt (Int 65535) port); [by intros ?%elem_of_nil|].
  destruct (lt cdpPort (Int 1) || lt (Int 65535) cdpPort);
    [by intros ?%elem_of_nil|].
  destruct (strict_eq port cdpPort); [by intros ?%elem_of_nil|].
  cbv zeta.
  destruct (answer_isBrowserRunning env cdpPort);
    [|destruct (default true (opt_autoLaunch options));
      [destruct (truthy_path (opt_browserPath options)) as [path|]|]];
    try (intros [?|?%elem_of_nil]%elem_of_cons; done);
    (destruct (answer_getCdpEndpoint env cdpPort) as [e|];
     [destruct (env_connects env); [destruct (listen_throws port)|]|]);
    cbn [fst snd];
    rewrite ?elem_of_app, ?elem_of_cons, ?elem_of_app, ?elem_of_cons,
      ?elem_of_nil;
    try (intuition discriminate);
    (destruct (0 <? default IDLE_TIMEOUT_MS (opt_idleTimeout options));
     rewrite ?elem_of_cons, ?elem_of_nil);
    intros H; exists e;
    (assert (RegisterServer p pid c = RegisterServer port (env_pid env) cdpPort)
       as [= -> -> ->] by intuition discriminate); done.
Qed.

(** X17. A start-up that succeeds has settled on an HTTP port and a CDP port
    that are integers, both lie in [1..65535] and differ, has found a
    browser running or launched one, has got the endpoint it returns and
    connected, and has started to listen on the port and registered the
    server under it with its own pid and the CDP port. Conversely the
    server is registered only by a start-up that succeeds. *)
Theorem started_server_is_registered options env :
  let cdpPort := default (Int (env_cdpPort env)) (opt_cdpPort options) in
  let effects := (serveWithExternalBrowser options env).1 in
  let result := (serveWithExternalBrowser options env).2 in
  (∀ n ws,
     result = Started n ws →
     ∃ port c,
       n = Int port ∧ cdpPort = Int c
       ∧ (resolve_port options env).2 = inl (Int port)
       ∧ 1 ≤ port ≤ 65535 ∧ 1 ≤ c ≤ 65535 ∧ port ≠ c
       ∧ env_endpoint env = Some ws ∧ env_connects env = true
       ∧ (env_running env = true
          ∨ ∃ path, LaunchBrowserDetached path cdpPort (opt_userDataDir options)
                    ∈ effects)
       ∧ Listen n ∈ effects
       ∧ RegisterServer n (env_pid env) cdpPort ∈ effects)
  ∧ (∀ p pid c, RegisterServer p pid c ∈ effects →
       ∃ ws, result = Started p ws).
Proof.
  cbv zeta. unfold serveWithExternalBrowser.
  destruct (resolve_port options env) as [probing found] eqn:Hres.
  assert (Hbefore : ∀ p pid c, RegisterServer p pid c
                    ∈ [KillStaleServers; LoadConfig] ++ probing → False).
  { intros p pid c. unfold resolve_port in Hres.
    destruct (opt_port options); injection Hres as <- <-;
      rewrite ?elem_of_cons, ?elem_of_nil; simpl;
      rewrite ?elem_of_cons, ?elem_of_nil; intuition discriminate. }
  destruct found as [port|message].
  2:{ split; [done|]. intros p pid c H. by destruct (Hbefore p pid c H). }
  pose proof (serve_validated_started options env port
                (default (Int (env_cdpPort env)) (opt_cdpPort options))) as Hs.
  pose proof (serve_validated_registered options env port
                (default (Int (env_cdpPort env)) (opt_cdpPort options))) as Hr.
  destruct (serve_validated options env port
              (default (Int (env_cdpPort env)) (opt_cdpPort options)))
    as [effects result]. cbn [fst snd] in *. split.
  - intros n ws Hres'.
    destruct (Hs n ws Hres')
      as (p & c & -> & -> & Hc & H1 & H2 & H3 & H4 & H5 & H6 & H7 & H8).
    exists p, c.
    split; [done|]. split; [done|]. split; [done|]. split; [done|].
    split; [done|]. split; [done|]. split; [done|]. split; [done|].
    split; [|split].
    + destruct H6 as [H6|[path H6]]; [by left|]. right. exists path.
      apply elem_of_app. by right.
    + apply elem_of_app. by right.
    + apply elem_of_app. by right.
  - intros p pid c [H|H]%elem_of_app; [by destruct (Hbefore p pid c H)|].
    by apply (Hr p pid c).
Qed.


Definition demo_launch_options : ExternalBrowserOptions :=
  mkOptions (Some (Int 19222)) None
    (Some "/opt/google/chrome-for-testing/chrome")
    (Some "/tmp/profile") None None.

Definition demo_cold_env : StartupEnv :=
  mkEnv (Config.mkRange 19222 19300 2) 9223 (Config.PortFound 19222) false
    (Some demo_ws) true 4242.

Lemma started_server_is_registered_witness :
  ∃ port c,
    Int 19222 = Int port
    ∧ default (Int (env_cdpPort demo_cold_env))
        (opt_cdpPort demo_launch_options) = Int c
    ∧ (resolve_port demo_launch_options demo_cold_env).2 = inl (Int port)
    ∧ 1 ≤ port ≤ 65535 ∧ 1 ≤ c ≤ 65535 ∧ port ≠ c
    ∧ env_endpoint demo_cold_env = Some demo_ws
    ∧ env_connects demo_cold_env = true
    ∧ (env_running demo_cold_env = true
       ∨ ∃ path,
           LaunchBrowserDetached path
             (default (Int (env_cdpPort demo_cold_env))
                (opt_cdpPort demo_launch_options))
             (opt_userDataDir demo_launch_options)
           ∈ (serveWithExternalBrowser demo_launch_options demo_cold_env).1)
    ∧ Listen (Int 19222)
      ∈ (serveWithExternalBrowser demo_launch_options demo_cold_env).1
    ∧ RegisterServer (Int 19222) (env_pid demo_cold_env)
        (default (Int (env_cdpPort demo_cold_env))
           (opt_cdpPort demo_launch_options))
      ∈ (serveWithExternalBrowser demo_launch_options demo_cold_env).1.
Proof.
  apply (proj1 (started_server_is_registered demo_launch_options demo_cold_env)
           (Int 19222) demo_ws).
  reflexivity.
Defined.


(** ** The idle timer

    [setTimeout] hands out handles 1, 2, ...; [armed] lists the timers that
    have been set and neither fired nor been cleared, each with the moment
    it is due. *)
Record Idle := mkIdle {
  lastActivityTime : Z;
  idle_handle : option nat;       (* [idleTimer]; a handle is truthy *)
  armed : list (nat * Z);
  idle_next : nat
}.

(** The delay [setTimeout] uses: one longer than [2^31 - 1] ms or shorter
    than 1 ms is set to 1 ms. *)
Definition setTimeout_delay (ms : Z) : Z :=
  if (ms <? 1) || (2147483647 <? ms) then 1 else ms.

(** [if (idleTimeout > 0) idleTimer = setTimeout(..., idleTimeout)]. *)
Definition arm (idleTimeout now : Z) (st : Idle) : Idle :=
  if 0 <? idleTimeout then
    mkIdle (lastActivityTime st) (Some (idle_next st))
      ((idle_next st, now + setTimeout_delay idleTimeout) :: armed st)
      (S (idle_next st))
  else st.

Definition clearIdle (t : nat) (st : Idle) : Idle :=
  mkIdle (lastActivityTime st) (idle_handle st)
    (filter (λ e, e.1 ≠ t) (armed st)) (idle_next st).

(** The start-up: [lastActivityTime = Date.now()] at [created], the
    initial timer at [started]. *)
Definition idle_start (idleTimeout created started : Z) : Idle :=
  arm idleTimeout started (mkIdle created None [] 1).

(** The idle middleware, run at the moment [now]. *)
Definition middleware (idleTimeout now : Z) (st : Idle) : Idle :=
  let st1 :=
    mkIdle now (idle_handle st) (armed st) (idle_next st) in
  let st2 :=
    match idle_handle st1 with
    | Some t => clearIdle t st1
    | None => st1
    end in
  arm idleTimeout now st2.

(** A request that arrives at the moment [now]. [express.json()] is
    mounted before the idle middleware: it passes the request on, or it
    refuses the body (one that does not parse or is too large) and hands
    the error to the error handling, and then the idle middleware does
    not run. *)
Inductive Arrival :=
| Passed (now : Z)
| Refused (now : Z).

Definition on_request (idleTimeout : Z) (st : Idle) (a : Arrival) : Idle :=
  match a with
  | Passed now => middleware idleTimeout now st
  | Refused _ => st
  end.

(** The requests that arrive, in this order. *)
Definition serve_requests (idleTimeout : Z) (st : Idle)
    (arrivals : list Arrival) : Idle :=
  foldl (on_request idleTimeout) st arrivals.

(** The moments of the requests that reached the idle middleware. *)
Definition passed (arrivals : list Arrival) : list Z :=
  omap (λ a, match a with Passed now => Some now | Refused _ => None end)
    arrivals.

Definition idle_ok (idleTimeout latest : Z) (st : Idle) : Prop :=
  if 0 <? idleTimeout then
    ∃ t, idle_handle st = Some t
         ∧ armed st = [(t, latest + setTimeout_delay idleTimeout)]
  else idle_handle st = None ∧ armed st = [].

Lemma middleware_idle_ok idleTimeout latest now st :
  idle_ok idleTimeout latest st →
  idle_ok idleTimeout now (middleware idleTimeout now st)
  ∧ lastActivityTime (middleware idleTimeout now st) = now.
Proof.
  unfold idle_ok, middleware, arm. destruct (0 <? idleTimeout) eqn:Hpos.
  - intros (t & Ht & Ha). cbn [idle_handle]. rewrite Ht.
    unfold clearIdle. cbn. rewrite Ha, filter_cons, decide_False, filter_nil;
      [|simpl; auto].
    split; [|done]. by eexists.
  - intros [Ht Ha]. cbn [idle_handle]. by rewrite Ht.
Qed.

Lemma serve_requests_idle_ok idleTimeout :
  ∀ arrivals st latest seen,
    idle_ok idleTimeout latest st → lastActivityTime st = seen →
    idle_ok idleTimeout (default latest (last (passed arrivals)))
      (serve_requests idleTimeout st arrivals)
    ∧ lastActivityTime (serve_requests idleTimeout st arrivals)
      = default seen (last (passed arrivals)).
Proof.
  induction arrivals as [|a arrivals IH]; intros st latest seen Hok Hseen;
    [done|].
  destruct a as [now|now].
  - destruct (middleware_idle_ok idleTimeout latest now st Hok) as [Hok' Hl'].
    destruct (IH _ now now Hok' Hl') as [H1 H2].
    unfold serve_requests in *. cbn [foldl on_request].
    change (passed (Passed now :: arrivals)) with (now :: passed arrivals).
    destruct (passed arrivals) as [|now' times] eqn:Hp; [done|].
    rewrite !last_cons_cons.
    destruct (last (now' :: times)) eqn:Hlast; [done|].
    by apply last_None in Hlast.
  - apply (IH st latest seen Hok Hseen).
Qed.

(** X18. Every request that reaches the idle middleware postpones the idle
    shutdown; a request whose body [express.json()] refuses does not, it
    leaves the timer as it is. After the start-up and any requests, with a
    positive [idleTimeout] exactly one idle timer is armed, the one
    [idleTimer] holds, and it is due [idleTimeout] milliseconds after the
    latest request that reached the middleware (after the start-up when
    there was none); [lastActivityTime] is the moment of that request.
    With an [idleTimeout] of 0 or less no timer is ever armed. *)
Theorem idle_timer_follows_latest_request idleTimeout created started
    arrivals :
  let st := serve_requests idleTimeout
              (idle_start idleTimeout created started) arrivals in
  let latest := default started (last (passed arrivals)) in
  lastActivityTime st = default created (last (passed arrivals))
  ∧ (0 < idleTimeout →
     ∃ t, idle_handle st = Some t
          ∧ armed st = [(t, latest + setTimeout_delay idleTimeout)])
  ∧ (0 < idleTimeout ≤ 2147483647 → setTimeout_delay idleTimeout = idleTimeout)
  ∧ (idleTimeout ≤ 0 → armed st = [])
  ∧ (∀ st' more now,
       serve_requests idleTimeout st' (Refused now :: more)
       = serve_requests idleTimeout st' more)
  ∧ (∀ now,
       lastActivityTime
         (serve_requests idleTimeout st [Passed now]) = now
       ∧ (0 < idleTimeout →
          ∃ t, armed (serve_requests idleTimeout st [Passed now])
               = [(t, now + setTimeout_delay idleTimeout)])).
Proof.
  cbv zeta.
  assert (Hstart : idle_ok idleTimeout started
                     (idle_start idleTimeout created started)).
  { unfold idle_ok, idle_start, arm.
    destruct (0 <? idleTimeout); [by eexists|done]. }
  assert (Hseen : lastActivityTime (idle_start idleTimeout created started)
                  = created).
  { unfold idle_start, arm. by destruct (0 <? idleTimeout). }
  destruct (serve_requests_idle_ok idleTimeout arrivals _ _ _ Hstart Hseen)
    as [Hok Hl].
  split; [done|]. split; [|split; [|split; [|split]]].
  - intros Hpos. unfold idle_ok in Hok. apply Z.ltb_lt in Hpos.
    by rewrite Hpos in Hok.
  - intros [H1 H2]. unfold setTimeout_delay.
    assert ((idleTimeout <? 1) = false) as -> by (apply Z.ltb_ge; lia).
    assert ((2147483647 <? idleTimeout) = false) as -> by (apply Z.ltb_ge; lia).
    done.
  - intros Hneg. unfold idle_ok in Hok. apply Z.ltb_ge in Hneg.
    rewrite Hneg in Hok. by destruct Hok.
  - done.
  - intros now.
    destruct (middleware_idle_ok idleTimeout _ now _ Hok) as [Hok' Hl'].
    split; [done|]. intros Hpos. unfold idle_ok in Hok'.
    apply Z.ltb_lt in Hpos. rewrite Hpos in Hok'.
    destruct Hok' as (t & _ & Ha). by exists t.
Qed.

Lemma idle_timer_follows_latest_request_witness :
  armed (serve_requests IDLE_TIMEOUT_MS
           (idle_start IDLE_TIMEOUT_MS 1000 1005)
           [Passed 2000; Passed 61000; Refused 90000])
  = [(3%nat, 61000 + IDLE_TIMEOUT_MS)].
Proof.
  destruct (idle_timer_follows_latest_request IDLE_TIMEOUT_MS 1000 1005
              [Passed 2000; Passed 61000; Refused 90000]) as (_ & Harmed & _).
  destruct Harmed as (t & Ht & Ha); [reflexivity|].
  vm_compute in Ht. injection Ht as <-. exact Ha.
Defined.


(** ** Page names

    The registry under the requests the server gets and the pages that
    get closed from outside, one after the other. *)
Inductive Request :=
| PostPages (body : JsVal) (answer : NewPageAnswer)
| DeletePage (param : string) (closeResolves : bool)
| PageClosed (name : string)    (* the close observer installed for [name] *)
| GetPages.

Section PageNames.
Set Default Proof Using "Type".

Variable wsEndpoint : string.
Variable decodeURIComponent : string → option string.

Definition handle (registry : list (string * PageEntry)) (req : Request)
  : list (string * PageEntry) :=
  match req with
  | PostPages body answer => (post_pages wsEndpoint answer registry body).1.1
  | DeletePage param closeResolves =>
      (delete_page decodeURIComponent closeResolves registry param).1.1
  | PageClosed name => onPageClose name registry
  | GetPages => registry
  end.

Definition serve (requests : list Request) : list (string * PageEntry) :=
  foldl handle [] requests.

(** [POST /pages] up to its first [await]: the response it gives at once,
    or the name it starts to create a page for. *)
Definition post_begin (registry : list (string * PageEntry)) (body : JsVal)
  : Response + string :=
  let name := get_prop body "name" in
  if negb (truthy_opt name)
     || negb (match name with Some v => typeof_string v | None => false end)
  then inl (Json 400 (ErrorBody "name is required and must be a string"))
  else
    match name with
    | Some (JStr name) =>
        if (String.length name =? 0)%nat then
          inl (Json 400 (ErrorBody "name cannot be empty"))
        else if (256 <? String.length name)%nat then
          inl (Json 400 (ErrorBody "name must be 256 characters or less"))
        else
          match jm_get name registry with
          | Some entry =>
              inl (Json 200 (PageBody wsEndpoint name (targetId entry) "launch"))
          | None => inr name
          end
    | _ => inl (Json 400 (ErrorBody "name is required and must be a string"))
    end.

(** ... and from the answer of the browser on, with the registry as it is
    by then. *)
Definition post_finish (answer : NewPageAnswer)
    (registry : list (string * PageEntry)) (name : string)
  : list (string * PageEntry) * list BrowserCall * Response :=
  match answer with
  | PageCreated p (Some tid) =>
      (jm_set name (mkEntry p tid) registry,
       [NewPage; GetTargetId p; OnClose p name],
       Json 200 (PageBody wsEndpoint name tid "launch"))
  | PageCreated p None =>
      (registry, [NewPage; GetTargetId p],
       Rejected "Target.getTargetInfo failed")
  | PageTimedOut =>
      (registry, [NewPage],
       Rejected "Timeout: Page creation timed out after 30s")
  | PageFailed reason => (registry, [NewPage], Rejected reason)
  end.

Definition valid_name (name : string) : Prop :=
  (1 ≤ String.length name ≤ 256)%nat.

Lemma post_pages_registry answer registry body :
  (post_pages wsEndpoint answer registry body).1.1 = registry
  ∨ ∃ name entry,
      valid_name name
      ∧ (post_pages wsEndpoint answer registry body).1.1
        = jm_set name entry registry.
Proof.
  unfold post_pages.
  destruct (negb (truthy_opt (get_prop body "name")) || _); [by left|].
  destruct (get_prop body "name") as [[| | |name| |]|]; try by left.
  destruct (String.length name =? 0)%nat eqn:H0; [by left|].
  destruct (256 <? String.length name)%nat eqn:H256; [by left|].
  apply Nat.eqb_neq in H0. apply Nat.ltb_ge in H256.
  destruct (jm_get name registry); [by left|].
  destruct answer as [p [tid|]| |]; try by left.
  right. exists name, (mkEntry p tid). split; [|done].
  unfold valid_name. lia.
Qed.

Lemma delete_page_registry closeResolves registry param :
  (delete_page decodeURIComponent closeResolves registry param).1.1 = registry
  ∨ ∃ name,
      (delete_page decodeURIComponent closeResolves registry param).1.1
      = jm_delete name registry.
Proof.
  unfold delete_page, onPageClose.
  destruct (decodeURIComponent param) as [name|]; [|by left].
  destruct (jm_get name registry); [|by left].
  destruct closeResolves; [|by left].
  right. exists name. simpl. apply jm_delete_idemp.
Qed.

Definition names_ok (registry : list (string * PageEntry)) : Prop :=
  NoDup (jm_keys registry) ∧ Forall valid_name (jm_keys registry).

Lemma names_ok_delete name registry :
  names_ok registry → names_ok (jm_delete name registry).
Proof.
  intros [Hnd Hall]. split; [by apply Sessions.NoDup_jm_delete|].
  unfold jm_keys, jm_delete in *. rewrite Forall_forall in *.
  intros k [x [-> [_ Hx]%list_elem_of_filter]]%list_elem_of_fmap.
  apply Hall. by apply Sessions.elem_of_keys.
Qed.

Lemma names_ok_handle registry req :
  names_ok registry → names_ok (handle registry req).
Proof.
  intros Hok. destruct req as [body answer|param ok|name|]; simpl.
  - destruct (post_pages_registry answer registry body)
      as [->|(name & entry & Hvalid & ->)]; [done|].
    destruct Hok as [Hnd Hall]. split; [by apply Sessions.NoDup_jm_set|].
    unfold jm_keys in *. rewrite Forall_forall in *. intros k Hk.
    apply Sessions.jm_set_keys in Hk as [->|Hk]; [done|by apply Hall].
  - destruct (delete_page_registry ok registry param) as [->|(name & ->)];
      [done|by apply names_ok_delete].
  - by apply names_ok_delete.
  - done.
Qed.

(** X19. Whatever requests the server has answered and whatever pages were
    closed from outside, [GET /pages] lists no name twice, and every name
    it lists has between 1 and 256 characters. *)
Theorem listed_names_are_valid requests pages :
  get_pages (serve requests) = Json 200 (PagesBody pages) →
  NoDup pages ∧ ∀ name, name ∈ pages → (1 ≤ String.length name ≤ 256)%nat.
Proof.
  intros [= <-].
  assert (Hgen : ∀ registry, names_ok registry →
                             names_ok (foldl handle registry requests)).
  { induction requests as [|req requests IH]; intros registry Hok; [done|].
    simpl. by apply IH, names_ok_handle. }
  destruct (Hgen [] ) as [Hnd Hall].
  { split; [apply NoDup_nil_2|apply Forall_nil_2]. }
  split; [done|]. intros name Hin.
  rewrite Forall_forall in Hall. by apply Hall.
Qed.

Lemma jm_delete_set_absent (name : string) (entry : PageEntry) registry :
  jm_get name registry = None →
  jm_delete name (jm_set name entry registry) = registry.
Proof.
  unfold jm_delete. induction registry as [|[k v] registry IH]; simpl.
  - intros _. by rewrite filter_cons, decide_False by (simpl; auto).
  - destruct (decide (name = k)) as [->|Hne]; [done|]. intros Hget.
    rewrite filter_cons, decide_True by (simpl; auto). by rewrite IH.
Qed.

(** X20. Creating a page under a name that is free and closing it again
    through [DELETE /pages/:name] leaves the registry exactly as it was
    before; the page closed is the page created. And once the name is free
    again, by that or by the page being closed from outside, the next
    [POST /pages] for it creates a new page and answers with the target id
    of that page. *)
Theorem create_then_close_restores_registry
    registry body name param p tid p' tid' :
  get_prop body "name" = Some (JStr name) →
  (1 ≤ String.length name ≤ 256)%nat →
  decodeURIComponent param = Some name →
  jm_get name registry = None →
  let '(r1, calls1, a1) :=
    post_pages wsEndpoint (PageCreated p (Some tid)) registry body in
  let '(r2, calls2, a2) := delete_page decodeURIComponent true r1 param in
  calls1 = [NewPage; GetTargetId p; OnClose p name]
  ∧ a1 = Json 200 (PageBody wsEndpoint name tid "launch")
  ∧ calls2 = [ClosePage p] ∧ a2 = Json 200 SuccessBody
  ∧ r2 = registry
  ∧ onPageClose name r1 = registry
  ∧ post_pages wsEndpoint (PageCreated p' (Some tid')) r2 body
    = (jm_set name (mkEntry p' tid') registry,
       [NewPage; GetTargetId p'; OnClose p' name],
       Json 200 (PageBody wsEndpoint name tid' "launch")).
Proof.
  intros Hname Hlen Hdec Hfree.
  rewrite (post_pages_valid _ _ _ _ _ Hname Hlen), Hfree.
  unfold delete_page, onPageClose. rewrite Hdec, jm_get_set_eq.
  rewrite jm_delete_idemp, (jm_delete_set_absent _ _ _ Hfree).
  rewrite (post_pages_valid _ _ _ _ _ Hname Hlen), Hfree. done.
Qed.

(** X21. [POST /pages] looks the name up before it waits for the browser and
    stores the entry after. Taken alone the two halves make up the whole
    handler. When two requests for one free name are both begun before
    either is finished, both create a page and each is answered with the
    target id of its own page; the registry keeps one entry for the name,
    that of the request finished last; and when the page of the other
    request gets closed, its close observer removes that entry. *)
Theorem overlapping_creations_share_the_name
    registry body name p1 t1 p2 t2 :
  get_prop body "name" = Some (JStr name) →
  (1 ≤ String.length name ≤ 256)%nat →
  jm_get name registry = None →
  (∀ answer registry',
     post_pages wsEndpoint answer registry' body
     = match post_begin registry' body with
       | inl response => (registry', [], response)
       | inr name' => post_finish answer registry' name'
       end)
  ∧ post_begin registry body = inr name
  ∧ let '(r1, calls1, a1) :=
      post_finish (PageCreated p1 (Some t1)) registry name in
    let '(r2, calls2, a2) := post_finish (PageCreated p2 (Some t2)) r1 name in
    NewPage ∈ calls1 ∧ NewPage ∈ calls2
    ∧ a1 = Json 200 (PageBody wsEndpoint name t1 "launch")
    ∧ a2 = Json 200 (PageBody wsEndpoint name t2 "launch")
    ∧ jm_get name r2 = Some (mkEntry p2 t2)
    ∧ length r2 = S (length registry)
    ∧ OnClose p1 name ∈ calls1
    ∧ jm_get name (onPageClose name r2) = None.
Proof.
  intros Hname Hlen Hfree.
  assert (Hbegin : ∀ registry',
    post_begin registry' body
    = match jm_get name registry' with
      | Some entry =>
          inl (Json 200 (PageBody wsEndpoint name (targetId entry) "launch"))
      | None => inr name
      end).
  { intros registry'. unfold post_begin. rewrite Hname. simpl.
    destruct name as [|c name]; [simpl in Hlen; lia|]. simpl.
    assert ((256 <? S (String.length name))%nat = false) as ->; [|done].
    apply Nat.ltb_ge. simpl in Hlen. lia. }
  split; [|split].
  - intros answer registry'.
    rewrite (post_pages_valid _ _ _ _ _ Hname Hlen), Hbegin.
    by destruct (jm_get name registry').
  - by rewrite Hbegin, Hfree.
  - simpl. split; [apply elem_of_cons; by left|].
    split; [apply elem_of_cons; by left|]. split; [done|]. split; [done|].
    split; [by rewrite jm_get_set_eq|]. split.
    + clear Hname Hlen. induction registry as [|[k v] registry IH]; simpl.
      * by rewrite decide_True.
      * simpl in Hfree. destruct (decide (name = k)) as [->|Hne]; [done|].
        simpl. rewrite decide_False by done. simpl. f_equal. by apply IH.
    + split; [do 2 (apply elem_of_cons; right); apply elem_of_cons; by left|].
      unfold onPageClose. apply jm_get_delete_eq.
Qed.

End PageNames.

Lemma listed_names_are_valid_witness :
  NoDup ["b"; "a"] ∧ ∀ name, name ∈ ["b"; "a"] → (1 ≤ String.length name ≤ 256)%nat.
Proof.
  apply (listed_names_are_valid demo_ws demo_decode
           [PostPages (demo_body "a") (PageCreated 1%nat (Some "T-1"));
            PostPages (demo_body "b") (PageCreated 2%nat (Some "T-2"));
            PageClosed "a";
            PostPages (demo_body "") (PageCreated 3%nat (Some "T-3"));
            PostPages (demo_body "a") (PageCreated 4%nat (Some "T-4"));
            GetPages]).
  reflexivity.
Defined.

Lemma create_then_close_restores_registry_witness :
  (delete_page demo_decode true
     (post_pages demo_ws (PageCreated 2%nat (Some "T-2"))
        [("a", mkEntry 1%nat "T-1")] (demo_body "b")).1.1 "b").1.1
  = [("a", mkEntry 1%nat "T-1")].
Proof.
  pose proof (create_then_close_restores_registry demo_ws demo_decode
                [("a", mkEntry 1%nat "T-1")] (demo_body "b") "b" "b"
                2%nat "T-2" 3%nat "T-3" eq_refl) as H.
  cbv beta in H. specialize (H ltac:(simpl; lia) eq_refl eq_refl).
  destruct (post_pages demo_ws (PageCreated 2%nat (Some "T-2"))
              [("a", mkEntry 1%nat "T-1")] (demo_body "b")) as [[r1 c1] a1].
  cbn [fst]. destruct (delete_page demo_decode true r1 "b") as [[r2 c2] a2].
  cbn [fst]. by destruct H as (_ & _ & _ & _ & -> & _).
Defined.

Lemma overlapping_creations_share_the_name_witness :
  post_begin demo_ws [] (demo_body "a") = inr "a"
  ∧ jm_get "a"
      (post_finish demo_ws (PageCreated 2%nat (Some "T-2"))
         (post_finish demo_ws (PageCreated 1%nat (Some "T-1")) [] "a").1.1
         "a").1.1
    = Some (mkEntry 2%nat "T-2").
Proof.
  destruct (overlapping_creations_share_the_name demo_ws [] (demo_body "a")
              "a" 1%nat "T-1" 2%nat "T-2" eq_refl)
    as (_ & Hbegin & Hrace); [simpl; lia|reflexivity|].
  split; [exact Hbegin|].
  destruct (post_finish demo_ws (PageCreated 1%nat (Some "T-1")) [] "a")
    as [[r1 c1] a1].
  cbn [fst]. destruct (post_finish demo_ws (PageCreated 2%nat (Some "T-2")) r1 "a")
    as [[r2 c2] a2].
  cbn [fst]. by destruct Hrace as (_ & _ & _ & _ & -> & _).
Defined.


(** ** Shutdown: where it ends *)

Section ShutdownEnd.
Set Default Proof Using "Type".

Variable processExists : Z → bool.
Variable port : Z.
Variable now : string.

(** What the caller of the one [cleanup] does last. *)
Definition final_effect (w : World) : Effect :=
  match continuation w with
  | Some code => ProcessExit code
  | None =>
      Cleanup (LogStopped
                 (Config.unregisterServer processExists port now
                    (serversFile w)).2)
  end.

(** The world when the [cleanup] suspended in [w] is over. *)
Definition final_world (w : World) : World :=
  mkWorld [] (connections w) (idleTimer w) (timerPending w) true
    (handlersInstalled w)
    (Config.unregisterServer processExists port now (serversFile w)).1
    Finished (continuation w)
    (match continuation w with Some _ => true | None => false end).

Lemma run_settles_final outcomes :
  ∀ w, cleaningUp w = true → exited w = false →
       (pc w = AwaitBrowserClose → registry w = []) →
       (0 < awaits w)%nat → length outcomes = awaits w →
       (run processExists port now w (map Settled outcomes)).1 = final_world w
       ∧ last (run processExists port now w (map Settled outcomes)).2
         = Some (final_effect w).
Proof.
  induction outcomes as [|ok outcomes IH]; intros w Hc Hex Hreg Hpos Hlen;
    [simpl in Hlen; lia|].
  simpl. unfold step. rewrite Hex. unfold settle.
  destruct (pc w) as [|current rest| |] eqn:Hpc;
    try (unfold awaits in Hpos; rewrite Hpc in Hpos; lia).
  - set (w1 := if ok then _ else w).
    assert (Hw1 : cleaningUp w1 = true ∧ exited w1 = false
                  ∧ connections w1 = connections w
                  ∧ idleTimer w1 = idleTimer w
                  ∧ timerPending w1 = timerPending w
                  ∧ handlersInstalled w1 = handlersInstalled w
                  ∧ serversFile w1 = serversFile w
                  ∧ continuation w1 = continuation w).
    { unfold w1. by destruct ok. }
    destruct Hw1 as (Hc1 & Hex1 & E1 & E2 & E3 & E4 & E5 & E6).
    unfold awaits in Hlen. rewrite Hpc in Hlen. simpl in Hlen.
    destruct rest as [|e rest']; simpl.
    + set (w2 := with_pc AwaitBrowserClose (with_registry [] w1)).
      destruct (IH w2) as [H1 H2]; try done.
      { unfold awaits. simpl. lia. }
      { unfold awaits. simpl in *. lia. }
      destruct (run processExists port now w2 (map Settled outcomes))
        as [w3 eff3]. simpl in *. split.
      * rewrite H1. unfold final_world, w2. simpl.
        by rewrite E1, E2, E3, E4, E5, E6.
      * destruct eff3 as [|x eff3]; [done|].
        rewrite ?last_cons_cons, H2. unfold final_effect, w2. simpl.
        by rewrite E5, E6.
    + set (w2 := with_pc (AwaitPageClose e rest') w1).
      destruct (IH w2) as [H1 H2]; try done.
      { unfold awaits. simpl. lia. }
      { unfold awaits. simpl in *. lia. }
      destruct (run processExists port now w2 (map Settled outcomes))
        as [w3 eff3]. simpl in *. split.
      * rewrite H1. unfold final_world, w2. simpl.
        by rewrite E1, E2, E3, E4, E5, E6.
      * destruct eff3 as [|x eff3]; [done|].
        rewrite ?last_cons_cons, H2. unfold final_effect, w2. simpl.
        by rewrite E5, E6.
  - unfold awaits in Hlen. rewrite Hpc in Hlen. simpl in Hlen.
    destruct outcomes; [|simpl in Hlen; lia]. simpl.
    unfold cleanup_end, final_world, final_effect.
    destruct (Config.unregisterServer processExists port now (serversFile w))
      as [file' remaining].
    rewrite (Hreg eq_refl), Hc.
    destruct (continuation w) as [code|] eqn:Hk; unfold with_exited; simpl;
      by rewrite ?Hk, ?Hex.
Qed.

(** X22. When one trigger arrives at the running server and every awaited
    call settles, the shutdown ends with no page registered, no connection
    tracked, no idle timer armed, and no entry under the port of this
    server in the servers file. After the idle timer or a signal the last
    thing done is [process.exit(0)], after an unhandled error
    [process.exit(1)]; after [stop()] the process is not exited, its
    handlers are removed and the last thing done is the log of the number
    of servers left. *)
Theorem shutdown_ends_unregistered w t outcomes :
  cleaningUp w = false → pc w = NotRunning → exited w = false →
  enabled w t = true →
  length outcomes = S (length (registry w)) →
  let r := run processExists port now w (Fire t :: map Settled outcomes) in
  registry r.1 = [] ∧ connections r.1 = []
  ∧ idleTimer r.1 = false ∧ timerPending r.1 = false
  ∧ serversFile r.1
    = (Config.unregisterServer processExists port now (serversFile w)).1
  ∧ Config.loadServersFile now (serversFile r.1) !! pretty port = None
  ∧ match t with
    | IdleTimer | Signal => exited r.1 = true ∧ last r.2 = Some (ProcessExit 0)
    | UnhandledError => exited r.1 = true ∧ last r.2 = Some (ProcessExit 1)
    | Stop =>
        exited r.1 = false ∧ handlersInstalled r.1 = false
        ∧ last r.2
          = Some (Cleanup (LogStopped
                    (Config.unregisterServer processExists port now
                       (serversFile w)).2))
    end.
Proof.
  intros Hc Hpc Hex Hen Hlen.
  assert (Hunreg :
    Config.loadServersFile now
      (Config.unregisterServer processExists port now (serversFile w)).1
    !! pretty port = None).
  { unfold Config.unregisterServer. cbn [fst].
    rewrite Config.load_save, Config.lookup_cleanupStaleEntries.
    unfold Config.kept. by rewrite lookup_delete_eq. }
  assert (Hcall : ∀ k w0,
    cleaningUp w0 = false → exited w0 = false →
    registry w0 = registry w → serversFile w0 = serversFile w →
    let r := run processExists port now (call_cleanup k w0).1
               (map Settled outcomes) in
    r.1 = mkWorld [] [] false false true (handlersInstalled w0)
            (Config.unregisterServer processExists port now (serversFile w)).1
            Finished k (match k with Some _ => true | None => false end)
    ∧ last r.2
      = Some (match k with
              | Some code => ProcessExit code
              | None =>
                  Cleanup (LogStopped
                    (Config.unregisterServer processExists port now
                       (serversFile w)).2)
              end)).
  { intros k w0 Hc0 Hex0 Hreg0 Hfile0. unfold call_cleanup.
    rewrite Hc0. unfold cleanup_begin. cbn [registry with_continuation].
    rewrite Hreg0.
    destruct (registry w) as [|e rest] eqn:Hr; cbn [closePages fst].
    - match goal with
      | |- context [run _ _ _ ?w2 _] =>
          destruct (run_settles_final outcomes w2) as [H1 H2]; try done
      end.
      { unfold awaits. simpl. lia. }
      cbv zeta. rewrite H1, H2. unfold final_world, final_effect. simpl.
      by rewrite Hfile0.
    - match goal with
      | |- context [run _ _ _ ?w2 _] =>
          destruct (run_settles_final outcomes w2) as [H1 H2]; try done
      end.
      { unfold awaits. simpl. lia. }
      { unfold awaits. simpl in *. lia. }
      cbv zeta. rewrite H1, H2. unfold final_world, final_effect. simpl.
      by rewrite Hfile0. }
  assert (Hlast : ∀ (x : Effect) l1 l2,
            last l2 = Some x → last (l1 ++ l2) = Some x).
  { intros x l1 l2 H. destruct l2 as [|y l2]; [done|].
    rewrite last_app_cons. exact H. }
  cbv zeta. simpl. unfold step. rewrite Hex. unfold fire.
  destruct t; simpl in Hen; rewrite ?Hen.
  - set (w0 := mkWorld _ _ _ _ _ _ _ _ _ _).
    destruct (Hcall (Some 0) w0) as [H1 H2]; try done.
    destruct (call_cleanup (Some 0) w0) as [w1 eff1]. cbn [fst snd] in *.
    destruct (run processExists port now w1 (map Settled outcomes))
      as [w2 eff2]. cbn [fst snd] in *. subst w2. simpl.
    repeat split; try done.
    change (LogIdleShutdown :: eff1 ++ eff2)
      with ((LogIdleShutdown :: eff1) ++ eff2).
    by apply Hlast.
  - destruct (Hcall (Some 0) w) as [H1 H2]; try done.
    destruct (call_cleanup (Some 0) w) as [w1 eff1]. cbn [fst snd] in *.
    destruct (run processExists port now w1 (map Settled outcomes))
      as [w2 eff2]. cbn [fst snd] in *. subst w2. simpl.
    repeat split; try done. by apply Hlast.
  - destruct (Hcall (Some 1) w) as [H1 H2]; try done.
    destruct (call_cleanup (Some 1) w) as [w1 eff1]. cbn [fst snd] in *.
    destruct (run processExists port now w1 (map Settled outcomes))
      as [w2 eff2]. cbn [fst snd] in *. subst w2. simpl.
    repeat split; try done.
    change (LogUnhandledError :: eff1 ++ eff2)
      with ((LogUnhandledError :: eff1) ++ eff2).
    by apply Hlast.
  - set (w0 := mkWorld _ _ _ _ _ _ _ _ _ _).
    destruct (Hcall None w0) as [H1 H2]; try done.
    destruct (call_cleanup None w0) as [w1 eff1]. cbn [fst snd] in *.
    destruct (run processExists port now w1 (map Settled outcomes))
      as [w2 eff2]. cbn [fst snd] in *. subst w2. simpl.
    repeat split; try done.
    change (RemoveHandlers :: eff1 ++ eff2)
      with ((RemoveHandlers :: eff1) ++ eff2).
    by apply Hlast.
Qed.

End ShutdownEnd.

Lemma shutdown_ends_unregistered_witness :
  last (demo_run [Fire UnhandledError; Settled true; Settled false;
                  Settled true])
  = Some (ProcessExit 1).
Proof.
  pose proof (shutdown_ends_unregistered Config.demo_processExists 19222
                Config.demo_now demo_world UnhandledError [true; false; true]
                eq_refl eq_refl eq_refl eq_refl eq_refl) as H.
  cbv zeta in H. destruct H as (_ & _ & _ & _ & _ & _ & _ & H). exact H.
Defined.

End Lifecycle.

(* ===================================================================== *)
(** * The server registry in use ([config.ts]) *)
(* ===================================================================== *)

Module Registry.
Import Config.

Section Entries.
Set Default Proof Using "Type".

Variable processExists : Z → bool.
Variable getProcessOnPort : Z → option Z.
Variable dateGetTime : string → option Z.
Variable parseInt10 : string → option Z.
(** Whether [process.kill(pid, "SIGTERM")] returns rather than throws. *)
Variable killSucceeds : Z → bool.

(** The live entries of the file. *)
Definition live (now : string) (file : option (gmap string FileValue))
  : gmap string ServerInfo :=
  cleanupStaleEntries processExists (loadServersFile now file).

(** ** The most recent server *)

Lemma mostRecent_fold_max l acc :
  let r := foldl (mostRecent_step dateGetTime parseInt10) acc l in
  (∀ e t, e ∈ l → dateGetTime (startedAt e.2) = Some t → t ≤ r.2)
  ∧ acc.2 ≤ r.2
  ∧ (r = acc
     ∨ ∃ e, e ∈ l ∧ dateGetTime (startedAt e.2) = Some r.2
            ∧ r.1 = Some (parseInt10 e.1, e.2) ∧ acc.2 < r.2).
Proof.
  revert acc. induction l as [|e l IH]; intros acc; simpl.
  - split; [by intros e t ?%elem_of_nil|]. split; [lia|by left].
  - destruct (IH (mostRecent_step dateGetTime parseInt10 acc e))
      as (Hmax & Hle & Hwho).
    set (r := foldl _ _ l) in *.
    assert (Hstep : acc.2 ≤ (mostRecent_step dateGetTime parseInt10 acc e).2
      ∧ (∀ t, dateGetTime (startedAt e.2) = Some t →
              t ≤ (mostRecent_step dateGetTime parseInt10 acc e).2)
      ∧ (mostRecent_step dateGetTime parseInt10 acc e = acc
         ∨ (dateGetTime (startedAt e.2)
            = Some (mostRecent_step dateGetTime parseInt10 acc e).2
            ∧ (mostRecent_step dateGetTime parseInt10 acc e).1
              = Some (parseInt10 e.1, e.2)
            ∧ acc.2 < (mostRecent_step dateGetTime parseInt10 acc e).2))).
    { unfold mostRecent_step.
      destruct (dateGetTime (startedAt e.2)) as [t|];
        [|split; [lia|split; [done|by left]]].
      destruct (acc.2 <? t) eqn:Hlt; simpl.
      - apply Z.ltb_lt in Hlt. split; [lia|]. split; [|by right].
        intros t' [= <-]. lia.
      - apply Z.ltb_ge in Hlt. split; [lia|]. split; [|by left].
        intros t' [= <-]. lia. }
    destruct Hstep as (Hle1 & Hmax1 & Hwho1).
    split; [|split; [lia|]].
    + intros e' t [->|Hin]%elem_of_cons Ht.
      * specialize (Hmax1 t Ht). lia.
      * by apply (Hmax e').
    + destruct Hwho as [Hsame|(e' & Hin & Ht & Hr & Hlt)].
      * rewrite Hsame. destruct Hwho1 as [->|(Ht & Hr & Hlt)]; [by left|].
        right. exists e. split; [apply elem_of_cons; by left|done].
      * right. exists e'. split; [apply elem_of_cons; by right|].
        split; [done|]. split; [done|lia].
Qed.

(** X23. [getMostRecentServer] returns a live entry whose start time is
    after the epoch and is not before the start time of any live entry;
    entries whose [startedAt] is no date are passed over. It returns
    [null] exactly when no live entry has a start time after the epoch. *)
Theorem getMostRecentServer_is_latest now file :
  let result := (getMostRecentServer processExists dateGetTime parseInt10
                   now file).2 in
  (∀ p info,
     result = Some (p, info) →
     ∃ k t, live now file !! k = Some info ∧ p = parseInt10 k
            ∧ dateGetTime (startedAt info) = Some t ∧ 0 < t
            ∧ ∀ k' info' t',
                live now file !! k' = Some info' →
                dateGetTime (startedAt info') = Some t' → t' ≤ t)
  ∧ (result = None ↔
     ∀ k info t, live now file !! k = Some info →
                 dateGetTime (startedAt info) = Some t → t ≤ 0).
Proof.
  cbv zeta. unfold getMostRecentServer, live. cbn [snd].
  set (cleaned := cleanupStaleEntries processExists (loadServersFile now file)).
  destruct (mostRecent_fold_max (map_to_list cleaned) (None, 0))
    as (Hmax & Hle & Hwho).
  set (r := foldl _ _ _) in *. simpl in Hle. split.
  - intros p info Hres.
    destruct Hwho as [Hsame|([k i] & Hin & Ht & Hr & Hlt)];
      [rewrite Hsame in Hres; done|].
    rewrite Hres in Hr. injection Hr as -> ->. simpl in *.
    exists k, r.2. apply elem_of_map_to_list in Hin.
    split; [done|]. split; [done|]. split; [done|]. split; [done|].
    intros k' info' t' Hk' Ht'.
    apply (Hmax (k', info') t'); [by apply elem_of_map_to_list|done].
  - split.
    + intros Hnone k info t Hk Ht.
      destruct Hwho as [Hsame|(e & _ & _ & Hr & _)]; [|congruence].
      rewrite Hsame in Hmax. simpl in Hmax.
      apply (Hmax (k, info) t); [by apply elem_of_map_to_list|done].
    + intros Hall.
      destruct Hwho as [Hsame|([k i] & Hin & Ht & Hr & Hlt)];
        [by rewrite Hsame|].
      apply elem_of_map_to_list in Hin. simpl in *.
      specialize (Hall k i r.2 Hin Ht). lia.
Qed.


(** ** Registering and unregistering *)

Lemma live_lookup now file k info :
  live now file !! k = Some info ↔
  loadServersFile now file !! k = Some info ∧ processExists (pid info) = true.
Proof. unfold live, cleanupStaleEntries. by rewrite map_lookup_filter_Some. Qed.

Lemma cleanupStaleEntries_live servers :
  cleanupStaleEntries processExists (cleanupStaleEntries processExists servers)
  = cleanupStaleEntries processExists servers.
Proof.
  unfold cleanupStaleEntries. apply map_filter_id. intros k info.
  by intros [_ ?]%map_lookup_filter_Some.
Qed.

Lemma killStaleServers_nothing_stale now servers :
  cleanupStaleEntries processExists servers = servers →
  killStaleServers processExists now (saveServersFile servers)
  = (saveServersFile servers, 0).
Proof.
  intros Hall. unfold killStaleServers. rewrite load_save.
  pose proof (killStale_fold_count processExists (map_to_list servers)
                servers 0) as Hc.
  destruct (foldl (killStale_step processExists) (servers, 0)
              (map_to_list servers)) as [servers' killed].
  simpl in Hc.
  match type of Hc with
  | context [length ?l] => destruct l as [|[k info] stale] eqn:Hstale
  end.
  - simpl in Hc. subst killed. done.
  - assert ((k, info) ∈ (k, info) :: stale) as Hin by (apply elem_of_cons; by left).
    rewrite <- Hstale in Hin. apply list_elem_of_filter in Hin as [Hdead Hin].
    apply elem_of_map_to_list in Hin. rewrite <- Hall in Hin.
    unfold cleanupStaleEntries in Hin.
    by apply map_lookup_filter_Some in Hin as [_ ?].
Qed.

(** X24. A server that registers and later unregisters leaves in the file
    exactly the live entries of the other ports: [unregisterServer]
    returns their number, which is also what [getActiveServerCount] then
    counts, and a [killStaleServers] after it finds nothing to remove and
    does not write. In between, [getActiveServerCount] counts one more,
    provided the registered pid is that of a process that exists. *)
Theorem register_then_unregister now file port newPid options :
  let file1 := registerServer processExists port newPid options now file in
  let file2 := (unregisterServer processExists port now file1).1 in
  let others := delete (pretty port) (live now file) in
  loadServersFile now file2 = others
  ∧ (unregisterServer processExists port now file1).2 = Z.of_nat (size others)
  ∧ getActiveServerCount processExists now file2 = Z.of_nat (size others)
  ∧ getActiveServerCount processExists now file1
    = Z.of_nat (size others) + (if processExists newPid then 1 else 0)
  ∧ killStaleServers processExists now file2 = (file2, 0).
Proof.
  cbv zeta. unfold registerServer, unregisterServer, getActiveServerCount.
  cbn [fst snd]. rewrite !load_save. fold (live now file).
  set (info := mkServerInfo _ _ _ _ _). set (k := pretty port).
  assert (Hlive : cleanupStaleEntries processExists (delete k (live now file))
                  = delete k (live now file)).
  { unfold cleanupStaleEntries at 1. rewrite map_filter_delete. f_equal.
    apply cleanupStaleEntries_live. }
  rewrite !delete_insert_eq, !Hlive.
  split; [done|]. split; [done|]. split; [done|]. split.
  - unfold cleanupStaleEntries at 1. rewrite map_filter_insert.
    fold (cleanupStaleEntries processExists (live now file)).
    fold (cleanupStaleEntries processExists (delete k (live now file))).
    unfold live at 1. rewrite cleanupStaleEntries_live. fold (live now file).
    case_decide as Halive; unfold alive in Halive; simpl in Halive.
    + rewrite Halive, <- insert_delete_eq, map_size_insert_None
        by apply lookup_delete_eq. lia.
    + apply not_true_is_false in Halive. rewrite Halive, Hlive. lia.
  - by apply killStaleServers_nothing_stale.
Qed.

(** ** Orphaned browsers *)

Inductive OrphanEffect :=
| LogCleaningUp (cdpPort pid : Z)
| Kill (pid : Z)                 (* process.kill(pid, SIGTERM) *)
| WarnNotKilled (pid : Z).

(** One turn of the loop of [cleanupOrphanedBrowsers]. *)
Definition cleanupOrphan_step (acc : list OrphanEffect * Z)
    (orphan : OrphanedBrowser) : list OrphanEffect * Z :=
  let attempt :=
    [LogCleaningUp (orphan_cdpPort orphan) (orphan_pid orphan);
     Kill (orphan_pid orphan)] in
  if killSucceeds (orphan_pid orphan) then (acc.1 ++ attempt, acc.2 + 1)
  else (acc.1 ++ attempt ++ [WarnNotKilled (orphan_pid orphan)], acc.2).

Definition cleanupOrphanedBrowsers (cdpPorts : option (list Z))
    (now : string) (file : option (gmap string FileValue))
  : list OrphanEffect * Z :=
  foldl cleanupOrphan_step ([], 0)
    (detectOrphanedBrowsers processExists getProcessOnPort cdpPorts now file).

(** The processes signalled, in order. *)
Definition signalled (effects : list OrphanEffect) : list Z :=
  omap (λ e, match e with Kill p => Some p | _ => None end) effects.

Lemma cleanupOrphan_fold orphans acc :
  signalled (foldl cleanupOrphan_step acc orphans).1
  = signalled acc.1 ++ (orphan_pid <$> orphans)
  ∧ (foldl cleanupOrphan_step acc orphans).2
    = acc.2 + Z.of_nat (length (filter (λ o, killSucceeds (orphan_pid o) = true)
                                  orphans)).
Proof.
  revert acc. induction orphans as [|o orphans IH]; intros acc; simpl.
  - rewrite app_nil_r. split; [done|lia].
  - destruct (IH (cleanupOrphan_step acc o)) as [-> ->].
    unfold cleanupOrphan_step. rewrite filter_cons.
    destruct (killSucceeds (orphan_pid o)) eqn:Hk; simpl.
    + unfold signalled. rewrite omap_app. simpl. rewrite <- app_assoc.
      split; [done|lia].
    + unfold signalled. rewrite omap_app. simpl. rewrite <- app_assoc.
      split; [done|lia].
Qed.

(** X25. [cleanupOrphanedBrowsers] signals only processes that listen on
    one of the ports to check, and none that listens on a port which the
    entry of a live server claims as its CDP port. It signals each orphan
    found once, in the order of the ports, and returns the number of
    signals that were delivered. *)
Theorem cleanupOrphanedBrowsers_spares_claimed_ports cdpPorts now file :
  let orphans :=
    detectOrphanedBrowsers processExists getProcessOnPort cdpPorts now file in
  let r := cleanupOrphanedBrowsers cdpPorts now file in
  signalled r.1 = orphan_pid <$> orphans
  ∧ r.2 = Z.of_nat (length (filter (λ o, killSucceeds (orphan_pid o) = true)
                              orphans))
  ∧ ∀ p, Kill p ∈ r.1 →
      ∃ port, port ∈ default defaultCdpPorts cdpPorts
              ∧ getProcessOnPort port = Some p
              ∧ (port ≠ 0 →
                 ∀ k info, live now file !! k = Some info →
                           cdpPort info ≠ Some port).
Proof.
  cbv zeta. unfold cleanupOrphanedBrowsers.
  destruct (cleanupOrphan_fold
              (detectOrphanedBrowsers processExists getProcessOnPort cdpPorts
                 now file) ([], 0)) as [Hs Hc].
  simpl in Hs, Hc. split; [done|]. split; [done|].
  intros p Hkill.
  assert (p ∈ signalled (foldl cleanupOrphan_step ([], 0)
            (detectOrphanedBrowsers processExists getProcessOnPort cdpPorts
               now file)).1) as Hin.
  { unfold signalled. apply list_elem_of_omap. by exists (Kill p). }
  rewrite Hs in Hin.
  apply list_elem_of_fmap in Hin as (o & -> & Hin).
  unfold detectOrphanedBrowsers in Hin.
  apply list_elem_of_omap in Hin as (port & Hport & Ho).
  destruct (decide (port ∈ _)) as [|Hout]; [done|].
  destruct (getProcessOnPort port) as [q|] eqn:Hq; [|done].
  injection Ho as <-. simpl. exists port. split; [done|]. split; [done|].
  intros Hnz k info [Hk Halive]%live_lookup Hclaim. apply Hout.
  apply elem_of_activeCdpPorts; [done|]. by exists k, info.
Qed.

End Entries.


(** ** The concrete machine of [Config], with a clock *)

Definition demo_dateGetTime (s : string) : option Z :=
  if String.eqb s "2026-11-02T10:00:00.000Z" then Some 1793613600000
  else if String.eqb s "2026-11-02T12:00:00.000Z" then Some 1793620800000
  else if String.eqb s "2026-11-01T09:00:00.000Z" then Some 1793523600000
  else None.

Definition demo_parseInt10 (s : string) : option Z :=
  if String.eqb s "19222" then Some 19222
  else if String.eqb s "19224" then Some 19224
  else if String.eqb s "19226" then Some 19226
  else None.

Definition demo_migrated : ServerInfo :=
  mkServerInfo 5151 None None standalone demo_now.

Lemma getMostRecentServer_is_latest_witness :
  ∃ k t, live demo_processExists demo_now demo_file !! k = Some demo_migrated
         ∧ Some 19226 = demo_parseInt10 k
         ∧ demo_dateGetTime (startedAt demo_migrated) = Some t ∧ 0 < t
         ∧ ∀ k' info' t',
             live demo_processExists demo_now demo_file !! k' = Some info' →
             demo_dateGetTime (startedAt info') = Some t' → t' ≤ t.
Proof.
  apply (proj1 (getMostRecentServer_is_latest demo_processExists
                  demo_dateGetTime demo_parseInt10 demo_now demo_file)).
  vm_compute. reflexivity.
Defined.

Lemma register_then_unregister_witness :
  getActiveServerCount demo_processExists demo_now
    (registerServer demo_processExists 19230 4242 None demo_now demo_file)
  = 3.
Proof.
  destruct (register_then_unregister demo_processExists demo_now demo_file
              19230 4242 None) as (_ & _ & _ & H & _).
  etransitivity; [exact H|]. vm_compute. reflexivity.
Defined.

Lemma cleanupOrphanedBrowsers_spares_claimed_ports_witness :
  signalled (cleanupOrphanedBrowsers demo_processExists demo_listening
               (λ _, true) None demo_now demo_file).1
  = [7002].
Proof.
  destruct (cleanupOrphanedBrowsers_spares_claimed_ports demo_processExists
              demo_listening (λ _, true) None demo_now demo_file)
    as (H & _).
  etransitivity; [exact H|]. vm_compute. reflexivity.
Defined.

End Registry.

(* ===================================================================== *)
(** * Finding and loading the configuration ([config.ts]) *)
(* ===================================================================== *)

Module Settings.
Import Js.

(** The environment variables the module reads. *)
Record Env := mkEnv {
  DEV_BROWSER_CONFIG : option string;
  XDG_CONFIG_HOME : option string;
  XDG_STATE_HOME : option string;
  HOME : option string
}.

(** [s || ...] on a string that may be missing: the empty string is
    falsy. *)
Definition truthy_str (s : option string) : option string :=
  match s with
  | Some s => if String.eqb s "" then None else Some s
  | None => None
  end.

Section Files.
Set Default Proof Using "Type".

Variable existsSync : string → bool.
(** [path.join] and [path.dirname]. *)
Variable join : list string → string.
Variable dirname : string → string.
Variable env : Env.
Variable cwd : string.

(** [process.env.HOME || ""]. *)
Definition home : string := default "" (truthy_str (HOME env)).

Definition getXdgConfigHome : string :=
  match truthy_str (XDG_CONFIG_HOME env) with
  | Some dir => dir
  | None => join [home; ".config"]
  end.

Definition getXdgStateHome : string :=
  match truthy_str (XDG_STATE_HOME env) with
  | Some dir => dir
  | None => join [home; ".local"; "state"]
  end.

Definition config_in (dir : string) : string :=
  join [dir; ".dev-browser"; "config.json"].

(** The loop of [findProjectConfig] from [dir]. Whether it ends is up to
    [dirname], so it runs on fuel: [None] is "still walking up". *)
Fixpoint findProjectConfig_from (fuel : nat) (dir : string)
  : option (option string) :=
  match fuel with
  | O => None
  | S fuel' =>
      let configPath := config_in dir in
      if existsSync configPath then Some (Some configPath)
      else
        let parent := dirname dir in
        if String.eqb parent dir then Some None
        else findProjectConfig_from fuel' parent
  end.

Definition findProjectConfig (fuel : nat) (startDir : option string)
  : option (option string) :=
  findProjectConfig_from fuel (default cwd (truthy_str startDir)).

Record ConfigFile := mkConfigFile {
  cf_path : string;
  cf_exists : bool
}.

Definition getConfigFilePath (fuel : nat) : option ConfigFile :=
  match truthy_str (DEV_BROWSER_CONFIG env) with
  | Some envConfig => Some (mkConfigFile envConfig (existsSync envConfig))
  | None =>
      projectConfig ← findProjectConfig fuel None;
      match truthy_str projectConfig with
      | Some projectConfig => Some (mkConfigFile projectConfig true)
      | None =>
          let xdgConfig := join [getXdgConfigHome; "dev-browser"; "config.json"] in
          if existsSync xdgConfig then Some (mkConfigFile xdgConfig true)
          else
            let defaultXdgConfig :=
              join [home; ".config"; "dev-browser"; "config.json"] in
            if bool_decide (is_Some (truthy_str (XDG_CONFIG_HOME env)))
               && existsSync defaultXdgConfig
            then Some (mkConfigFile defaultXdgConfig true)
            else
              let legacyConfig := join [home; ".dev-browser"; "config.json"] in
              Some (mkConfigFile legacyConfig (existsSync legacyConfig))
      end
  end.

Definition getStateDir : string :=
  let xdgStateDir := join [getXdgStateHome; "dev-browser"] in
  match truthy_str (XDG_STATE_HOME env) with
  | Some _ => xdgStateDir
  | None =>
      let defaultXdgStateDir := join [home; ".local"; "state"; "dev-browser"] in
      let legacyDir := join [home; ".dev-browser"] in
      if existsSync defaultXdgStateDir then defaultXdgStateDir
      else if existsSync legacyDir then legacyDir
      else defaultXdgStateDir
  end.

(** The [k]-th directory above [dir]. *)
Fixpoint ancestor (k : nat) (dir : string) : string :=
  match k with
  | O => dir
  | S k' => ancestor k' (dirname dir)
  end.

(** ** Finding the file: results *)

Lemma ancestor_S k dir : ancestor (S k) dir = dirname (ancestor k dir).
Proof. revert dir. induction k as [|k IH]; intros dir; [done|]. apply IH. Qed.

Lemma findProjectConfig_from_found :
  ∀ (k fuel : nat) dir,
    (k < fuel)%nat →
    existsSync (config_in (ancestor k dir)) = true →
    (∀ j, (j < k)%nat →
       existsSync (config_in (ancestor j dir)) = false
       ∧ dirname (ancestor j dir) ≠ ancestor j dir) →
    findProjectConfig_from fuel dir = Some (Some (config_in (ancestor k dir))).
Proof.
  induction k as [|k IH]; intros fuel dir Hfuel Hex Hbefore.
  - destruct fuel as [|fuel]; [lia|]. simpl in *. by rewrite Hex.
  - destruct fuel as [|fuel]; [lia|]. simpl.
    destruct (Hbefore O ltac:(lia)) as [H0 Hroot]. simpl in H0, Hroot.
    rewrite H0. apply String.eqb_neq in Hroot. rewrite Hroot.
    apply IH; [lia|done|]. intros j Hj. apply (Hbefore (S j)). lia.
Qed.

Lemma findProjectConfig_from_root :
  ∀ (k fuel : nat) dir,
    (k < fuel)%nat →
    dirname (ancestor k dir) = ancestor k dir →
    (∀ j, (j ≤ k)%nat → existsSync (config_in (ancestor j dir)) = false) →
    (∀ j, (j < k)%nat → dirname (ancestor j dir) ≠ ancestor j dir) →
    findProjectConfig_from fuel dir = Some None.
Proof.
  induction k as [|k IH]; intros fuel dir Hfuel Hroot Hnone Hup.
  - destruct fuel as [|fuel]; [lia|]. simpl in *.
    pose proof (Hnone O ltac:(lia)) as H0. simpl in H0.
    by rewrite H0, Hroot, String.eqb_refl.
  - destruct fuel as [|fuel]; [lia|]. simpl.
    pose proof (Hnone O ltac:(lia)) as H0. simpl in H0. rewrite H0.
    pose proof (Hup O ltac:(lia)) as H1. simpl in H1.
    apply String.eqb_neq in H1. rewrite H1.
    apply (IH fuel (dirname dir)); [lia|done| |].
    + intros j Hj. apply (Hnone (S j)). lia.
    + intros j Hj. apply (Hup (S j)). lia.
Qed.

Lemma findProjectConfig_from_sound fuel :
  ∀ dir p,
    findProjectConfig_from fuel dir = Some (Some p) →
    existsSync p = true ∧ ∃ k, (k < fuel)%nat ∧ p = config_in (ancestor k dir).
Proof.
  induction fuel as [|fuel IH]; intros dir p; [done|]. simpl.
  destruct (existsSync (config_in dir)) eqn:Hex.
  - intros [= <-]. split; [done|]. exists O. split; [lia|done].
  - destruct (String.eqb (dirname dir) dir); [done|].
    intros [Hp (k & Hk & ->)]%IH. split; [done|].
    exists (S k). split; [lia|done].
Qed.

(** The walk reaches, after [k] steps up from [dir], a directory that is
    its own parent. *)
Definition root_after (k : nat) (dir : string) : Prop :=
  dirname (ancestor k dir) = ancestor k dir.

Lemma findProjectConfig_from_ends :
  ∀ (k fuel : nat) dir,
    (k < fuel)%nat → root_after k dir →
    is_Some (findProjectConfig_from fuel dir).
Proof.
  induction k as [|k IH]; intros fuel dir Hfuel Hroot.
  - destruct fuel as [|fuel]; [lia|]. simpl.
    destruct (existsSync (config_in dir)); [by eexists|].
    unfold root_after in Hroot. simpl in Hroot.
    rewrite Hroot, String.eqb_refl. by eexists.
  - destruct fuel as [|fuel]; [lia|]. simpl.
    destruct (existsSync (config_in dir)); [by eexists|].
    destruct (String.eqb (dirname dir) dir); [by eexists|].
    apply IH; [lia|done].
Qed.

(** X26. [findProjectConfig] returns the [.dev-browser/config.json] of the
    nearest directory, from the start directory upwards, that has one; it
    returns [undefined] when the walk reaches a directory that is its own
    parent without having found one. What it returns exists. *)
Theorem findProjectConfig_nearest startDir :
  let dir := default cwd (truthy_str startDir) in
  (∀ k fuel,
     (k < fuel)%nat →
     existsSync (config_in (ancestor k dir)) = true →
     (∀ j, (j < k)%nat →
        existsSync (config_in (ancestor j dir)) = false
        ∧ dirname (ancestor j dir) ≠ ancestor j dir) →
     findProjectConfig fuel startDir = Some (Some (config_in (ancestor k dir))))
  ∧ (∀ k fuel,
       (k < fuel)%nat →
       dirname (ancestor k dir) = ancestor k dir →
       (∀ j, (j ≤ k)%nat → existsSync (config_in (ancestor j dir)) = false) →
       (∀ j, (j < k)%nat → dirname (ancestor j dir) ≠ ancestor j dir) →
       findProjectConfig fuel startDir = Some None)
  ∧ (∀ fuel p,
       findProjectConfig fuel startDir = Some (Some p) → existsSync p = true).
Proof.
  cbv zeta. unfold findProjectConfig. split; [|split].
  - intros k fuel. apply findProjectConfig_from_found.
  - intros k fuel. apply findProjectConfig_from_root.
  - intros fuel p H. by apply findProjectConfig_from_sound in H as [? _].
Qed.

(** X27. On a file system where the walk up from the working directory
    ends, [getConfigFilePath] returns, and the [exists] it returns tells
    whether the path it returns exists. A non-empty [DEV_BROWSER_CONFIG] is
    returned as the path whether or not it exists; otherwise a path
    reported as missing is the legacy path in the home directory. *)
Theorem getConfigFilePath_exists_is_truthful k fuel :
  root_after k cwd → (k < fuel)%nat →
  ∃ file,
    getConfigFilePath fuel = Some file
    ∧ cf_exists file = existsSync (cf_path file)
    ∧ (∀ envConfig, truthy_str (DEV_BROWSER_CONFIG env) = Some envConfig →
         cf_path file = envConfig)
    ∧ (truthy_str (DEV_BROWSER_CONFIG env) = None →
       cf_exists file = false →
       cf_path file = join [home; ".dev-browser"; "config.json"]).
Proof.
  intros Hroot Hfuel. unfold getConfigFilePath.
  destruct (truthy_str (DEV_BROWSER_CONFIG env)) as [envConfig|] eqn:Henv.
  - eexists. split; [done|]. simpl. split; [done|].
    split; [by intros ? [= <-]|done].
  - unfold findProjectConfig. simpl.
    destruct (findProjectConfig_from_ends k fuel cwd Hfuel Hroot) as [r Hr].
    pose proof (findProjectConfig_from_sound fuel cwd) as Hsound.
    rewrite Hr in *. simpl.
    destruct (truthy_str r) as [projectConfig|] eqn:Hp.
    + eexists. split; [done|]. simpl.
      assert (r = Some projectConfig) as ->.
      { unfold truthy_str in Hp. destruct r as [s|]; [|done].
        by destruct (String.eqb s ""); simplify_eq. }
      destruct (Hsound projectConfig eq_refl) as [-> _]. done.
    + destruct (existsSync (join [getXdgConfigHome; "dev-browser"; "config.json"]))
        eqn:Hxdg.
      { eexists. split; [done|]. simpl. by rewrite Hxdg. }
      destruct (bool_decide _ && existsSync
                  (join [home; ".config"; "dev-browser"; "config.json"]))
        eqn:Hdef.
      { apply andb_true_iff in Hdef as [_ Hdef].
        eexists. split; [done|]. simpl. by rewrite Hdef. }
      eexists. split; [done|]. simpl. done.
Qed.

End Files.


(** ** A concrete file system *)

Definition demo_join (parts : list string) : string := String.concat "/" parts.

Definition demo_dirname (dir : string) : string :=
  if String.eqb dir "/home/u/proj/src" then "/home/u/proj"
  else if String.eqb dir "/home/u/proj" then "/home/u"
  else if String.eqb dir "/home/u" then "/home"
  else "/".

Definition demo_existsSync (path : string) : bool :=
  String.eqb path "/home/u/proj/.dev-browser/config.json"
  || String.eqb path "/opt/google/chrome-for-testing/chrome".

Definition demo_env : Env := mkEnv None None None (Some "/home/u").

Lemma findProjectConfig_nearest_witness :
  findProjectConfig demo_existsSync demo_join demo_dirname "/" 10
    (Some "/home/u/proj/src")
  = Some (Some "/home/u/proj/.dev-browser/config.json").
Proof.
  apply (proj1 (findProjectConfig_nearest demo_existsSync demo_join
                  demo_dirname "/" (Some "/home/u/proj/src")) 1%nat 10%nat).
  - lia.
  - reflexivity.
  - intros j Hj. destruct j as [|j]; [|lia]. split; [reflexivity|done].
Defined.

Lemma getConfigFilePath_exists_is_truthful_witness :
  ∃ file,
    getConfigFilePath demo_existsSync demo_join demo_dirname demo_env
      "/home/u/proj/src" 10 = Some file
    ∧ cf_exists file = demo_existsSync (cf_path file)
    ∧ (∀ envConfig, truthy_str (DEV_BROWSER_CONFIG demo_env) = Some envConfig →
         cf_path file = envConfig)
    ∧ (truthy_str (DEV_BROWSER_CONFIG demo_env) = None →
       cf_exists file = false →
       cf_path file
       = demo_join [home demo_env; ".dev-browser"; "config.json"]).
Proof.
  apply (getConfigFilePath_exists_is_truthful demo_existsSync demo_join
           demo_dirname demo_env "/home/u/proj/src" 4 10).
  - reflexivity.
  - lia.
Defined.

(** ** Loading the configuration *)

Inductive Platform := darwin | linux | win32 | other_platform.

Record BrowserConfig := mkBrowser {
  b_mode : JsVal;
  b_path : option string;
  b_userDataDir : option JsVal
}.

(** The configuration as [loadConfig] returns it. A value taken from the
    file is whatever the file holds; keys of the file that the module does
    not read are left out. *)
Record DevBrowserConfig := mkConfig {
  c_start : JsVal;
  c_end : JsVal;
  c_step : JsVal;
  c_cdpPort : JsVal;
  c_browser : BrowserConfig
}.

Inductive Warning :=
| CouldNotLoad (configFile : string)
| PathDoesNotExist (configured : JsVal)
| StandaloneUsesBundledChromium.

Definition macPath : string :=
  "/Applications/Google Chrome for Testing.app/Contents/MacOS/Google Chrome for Testing".
Definition linuxPaths : list string :=
  ["/opt/google/chrome-for-testing/chrome";
   "/usr/bin/google-chrome-for-testing";
   "/usr/local/bin/chrome-for-testing"].
Definition winPath : string :=
  "C:\Program Files\Google\Chrome for Testing\Application\chrome.exe".

Section Loading.
Set Default Proof Using "Type".

Variable existsSync : string → bool.
Variable platform : Platform.
(** [JSON.parse(readFileSync(configFile, "utf-8"))], [None] when either
    throws. *)
Variable readJson : string → option JsVal.

Definition getDefaultBrowserPath : option string :=
  match platform with
  | darwin => if existsSync macPath then Some macPath else None
  | linux => List.find existsSync linuxPaths
  | win32 => if existsSync winPath then Some winPath else None
  | other_platform => None
  end.

(** [{ ...dflt, ...(v || {}) }.k]: the property of [v] if it has it. *)
Definition merged (v : option JsVal) (k : string) (dflt : option JsVal)
  : option JsVal :=
  match v ≫= λ v, get_prop v k with
  | Some x => Some x
  | None => dflt
  end.

(** The resolution of [config.browser.path]: the configured value if it
    is truthy and exists, else what auto-detection finds. The [bool] tells
    whether [config.browser.path] is assigned. [existsSync] is false on
    what is not a path. *)
Definition resolvePath (configured : option JsVal)
  : option string * bool * list Warning :=
  match configured with
  | Some v =>
      if truthy v then
        match v with
        | JStr p =>
            if existsSync p then (Some p, false, [])
            else (getDefaultBrowserPath, true, [PathDoesNotExist v])
        | _ => (getDefaultBrowserPath, true, [PathDoesNotExist v])
        end
      else (getDefaultBrowserPath, true, [])
  | None => (getDefaultBrowserPath, true, [])
  end.

(** [loadConfig]. [DEFAULT_CONFIG.browser] is one object for the life of
    the module; [store] is its [path] property, absent at first. When no
    file is merged, [config.browser] is that object, and the assignment to
    [config.browser.path] writes to it. *)
Definition loadConfig (store : option string) (configFile : string)
    (exists_ : bool)
  : option string * DevBrowserConfig * list Warning :=
  let userConfig :=
    if exists_ then
      match readJson configFile with
      | Some JNull | None => inr [CouldNotLoad configFile]
      | Some userConfig => inl userConfig
      end
    else inr [] in
  match userConfig with
  | inl userConfig =>
      let portRange := get_prop userConfig "portRange" in
      let browser := get_prop userConfig "browser" in
      let '(path, _, warnings) :=
        resolvePath (merged browser "path" (JStr <$> store)) in
      (store,
       mkConfig
         (default (JNum 19222) (merged portRange "start" None))
         (default (JNum 19300) (merged portRange "end" None))
         (default (JNum 2) (merged portRange "step" None))
         (default (JNum 9223) (get_prop userConfig "cdpPort"))
         (mkBrowser
            (default (JStr "auto") (merged browser "mode" None))
            path
            (merged browser "userDataDir" None)),
       warnings)
  | inr warned =>
      let '(path, assigned, warnings) := resolvePath (JStr <$> store) in
      (if assigned then path else store,
       mkConfig (JNum 19222) (JNum 19300) (JNum 2) (JNum 9223)
         (mkBrowser (JStr "auto") path None),
       warned ++ warnings)
  end.

Inductive EffectiveMode := external | standalone.

Inductive Resolved :=
| Returns (mode : EffectiveMode) (path : option string)
    (userDataDir : option JsVal)
| Throws (message : string).

(** The double quote and the line feed. *)
Definition dq : string := String (Ascii.ascii_of_nat 34) EmptyString.
Definition lf : string := String (Ascii.ascii_of_nat 10) EmptyString.

Definition no_path_external : string :=
  "Browser mode is " +:+ dq +:+ "external" +:+ dq
  +:+ " but no browser path configured or detected. "
  +:+ "Set browser.path in ~/.dev-browser/config.json "
  +:+ "or install Chrome for Testing.".

Definition no_path_auto : string :=
  "Chrome for Testing not found at standard locations." +:+ lf
  +:+ "Set browser.path in ~/.dev-browser/config.json "
  +:+ "to your Chrome executable or app bundle.".

(** [v === s] for a string literal [s]. *)
Definition is_string (v : JsVal) (s : string) : bool :=
  match v with JStr s' => String.eqb s' s | _ => false end.

Definition getResolvedBrowserConfig (store : option string)
    (configFile : string) (exists_ : bool)
  : option string * list Warning * Resolved :=
  let '(store', config, warnings) := loadConfig store configFile exists_ in
  let browser := c_browser config in
  if is_string (b_mode browser) "standalone" then
    (store', warnings ++ [StandaloneUsesBundledChromium],
     Returns standalone (b_path browser) (b_userDataDir browser))
  else if is_string (b_mode browser) "external" then
    match truthy_str (b_path browser) with
    | None => (store', warnings, Throws no_path_external)
    | Some _ =>
        (store', warnings,
         Returns external (b_path browser) (b_userDataDir browser))
    end
  else
    match truthy_str (b_path browser) with
    | None => (store', warnings, Throws no_path_auto)
    | Some _ =>
        (store', warnings,
         Returns external (b_path browser) (b_userDataDir browser))
    end.

(** ** Loading the configuration: results *)

Lemma getDefaultBrowserPath_exists p :
  getDefaultBrowserPath = Some p → existsSync p = true ∧ p ≠ "".
Proof.
  unfold getDefaultBrowserPath. destruct platform.
  - destruct (existsSync macPath) eqn:H; [|done]. by intros [= <-].
  - intros Hfind. apply find_some in Hfind as [Hin Hex]. split; [done|].
    intros ->. simpl in Hin. intuition discriminate.
  - destruct (existsSync winPath) eqn:H; [|done]. by intros [= <-].
  - done.
Qed.

Lemma resolvePath_exists configured p :
  (resolvePath configured).1.1 = Some p → existsSync p = true ∧ p ≠ "".
Proof.
  unfold resolvePath.
  destruct configured as [v|]; [|apply getDefaultBrowserPath_exists].
  destruct (truthy v) eqn:Ht; [|apply getDefaultBrowserPath_exists].
  destruct v as [| | |s| |]; try apply getDefaultBrowserPath_exists.
  destruct (existsSync s) eqn:Hs; [|apply getDefaultBrowserPath_exists].
  simpl. intros [= <-]. split; [done|]. intros ->. done.
Qed.

(** What [DEFAULT_CONFIG.browser.path] can hold while the files stay as
    they are: nothing, or what auto-detection finds. *)
Definition store_ok (store : option string) : Prop :=
  store = None ∨ store = getDefaultBrowserPath.

Lemma resolvePath_store store :
  store_ok store →
  (resolvePath (JStr <$> store)).1.1 = getDefaultBrowserPath
  ∧ (resolvePath (JStr <$> store)).2 = [].
Proof.
  intros [->|Hs]; [done|]. destruct store as [s|]; [|done].
  symmetry in Hs. destruct (getDefaultBrowserPath_exists s Hs) as [Hex Hne].
  simpl. apply String.eqb_neq in Hne. rewrite Hne. simpl.
  by rewrite Hex, Hs.
Qed.

Lemma loadConfig_path_sound store configFile exists_ p :
  b_path (c_browser (loadConfig store configFile exists_).1.2) = Some p →
  existsSync p = true ∧ p ≠ "".
Proof.
  unfold loadConfig. set (userConfig := if exists_ then _ else _).
  destruct userConfig as [u|warned].
  - pose proof (resolvePath_exists
                  (merged (get_prop u "browser") "path" (JStr <$> store)) p)
      as H.
    by destruct (resolvePath _) as [[path a] w].
  - pose proof (resolvePath_exists (JStr <$> store) p) as H.
    by destruct (resolvePath _) as [[path a] w].
Qed.

(** X28. The browser path [loadConfig] returns is either absent or the
    non-empty path of a file that exists. A non-empty path that the file
    configures and that exists is returned as it is. For every other value
    the file gives to [browser.path] (an empty string, a path that is not
    on disk, a value that is not a string) the result of
    [getDefaultBrowserPath] is returned in its place, with a warning
    exactly when the value is truthy; so it is when there is no file, the
    file cannot be read or it configures no path. [getDefaultBrowserPath]
    is the first standard location of the platform that exists, if any.
    While the files stay as they are, what an earlier call has left in
    [DEFAULT_CONFIG] does not change what [loadConfig] returns. *)
Theorem loadConfig_browser_path_exists store configFile exists_ :
  let r := loadConfig store configFile exists_ in
  (∀ p, b_path (c_browser r.1.2) = Some p → existsSync p = true ∧ p ≠ "")
  ∧ (∀ userConfig p,
       exists_ = true → readJson configFile = Some userConfig →
       (get_prop userConfig "browser" ≫= λ b, get_prop b "path")
       = Some (JStr p) →
       existsSync p = true → p ≠ "" →
       b_path (c_browser r.1.2) = Some p)
  ∧ (store = None →
     (exists_ = false ∨ readJson configFile = None
      ∨ ∃ userConfig, readJson configFile = Some userConfig
          ∧ (get_prop userConfig "browser" ≫= λ b, get_prop b "path") = None) →
     b_path (c_browser r.1.2) = getDefaultBrowserPath)
  ∧ (∀ userConfig v,
       exists_ = true → readJson configFile = Some userConfig →
       (get_prop userConfig "browser" ≫= λ b, get_prop b "path") = Some v →
       (∀ p, v = JStr p → p ≠ "" → existsSync p = false) →
       b_path (c_browser r.1.2) = getDefaultBrowserPath
       ∧ r.2 = if truthy v then [PathDoesNotExist v] else [])
  ∧ (match platform with
     | darwin =>
         getDefaultBrowserPath = if existsSync macPath then Some macPath else None
     | linux =>
         ∀ i p, linuxPaths !! i = Some p → existsSync p = true →
                (∀ j q, (j < i)%nat → linuxPaths !! j = Some q →
                        existsSync q = false) →
                getDefaultBrowserPath = Some p
     | win32 =>
         getDefaultBrowserPath = if existsSync winPath then Some winPath else None
     | other_platform => getDefaultBrowserPath = None
     end)
  ∧ (store_ok store →
     store_ok r.1.1
     ∧ r.1.2 = (loadConfig None configFile exists_).1.2
     ∧ r.2 = (loadConfig None configFile exists_).2).
Proof.
  cbv zeta. unfold loadConfig.
  set (userConfig := if exists_ then _ else _).
  split; [|split; [|split; [|split; [|split]]]].
  - intros p. apply loadConfig_path_sound.
  - intros u p -> Hread Hpath Hex Hne. unfold userConfig. rewrite Hread.
    destruct u as [| | | | |fields]; try done.
    unfold merged. rewrite Hpath. simpl.
    apply String.eqb_neq in Hne. by rewrite Hne, Hex.
  - intros -> Hcase. unfold userConfig.
    destruct Hcase as [->|[Hread|(u & Hread & Hpath)]]; [done| |].
    + rewrite Hread. by destruct exists_.
    + rewrite Hread. destruct exists_; [|done].
      destruct u as [| | | | |fields]; try done.
      unfold merged. by rewrite Hpath.
  - intros u v -> Hread Hpath Hnot. unfold userConfig. rewrite Hread.
    destruct u as [| | | | |fields]; try done.
    unfold merged. rewrite Hpath. unfold resolvePath.
    destruct (truthy v) eqn:Ht; [|done].
    destruct v as [| | |p| |]; try done.
    assert (p ≠ "") as Hne.
    { intros ->. done. }
    by rewrite (Hnot p eq_refl Hne).
  - unfold getDefaultBrowserPath. destruct platform; try done.
    intros i p Hi Hex Hbefore. unfold linuxPaths in *.
    destruct i as [|[|[|i]]]; simpl in Hi; try done; injection Hi as <-.
    + simpl. by rewrite Hex.
    + simpl. rewrite (Hbefore 0%nat _ ltac:(lia) eq_refl). by rewrite Hex.
    + simpl. rewrite (Hbefore 0%nat _ ltac:(lia) eq_refl).
      rewrite (Hbefore 1%nat _ ltac:(lia) eq_refl). by rewrite Hex.
  - intros Hok. destruct (resolvePath_store store Hok) as [Hp Hw].
    destruct userConfig as [u|warned].
    + unfold merged.
      destruct (get_prop u "browser" ≫= λ v, get_prop v "path") as [x|];
        [by destruct (resolvePath (Some x)) as [[path a] w]|].
      simpl. destruct (resolvePath (JStr <$> store)) as [[path a] w].
      simpl in *. subst. done.
    + simpl. destruct (resolvePath (JStr <$> store)) as [[path a] w].
      simpl in *. subst. split; [|done].
      destruct a; [by right|done].
Qed.

(** X29. [getResolvedBrowserConfig] never falls back to the standalone mode:
    it returns that mode exactly when the merged configuration names it.
    In every other case it returns the external mode together with the
    non-empty path of a browser that exists, or it throws because there is
    no such path; which error tells whether the mode was "external". *)
Theorem getResolvedBrowserConfig_never_falls_back store configFile exists_ :
  let config := (loadConfig store configFile exists_).1.2 in
  let result := (getResolvedBrowserConfig store configFile exists_).2 in
  (is_string (b_mode (c_browser config)) "standalone" = true ↔
     ∃ path userDataDir, result = Returns standalone path userDataDir)
  ∧ (∀ path userDataDir,
       result = Returns external path userDataDir →
       ∃ p, path = Some p ∧ existsSync p = true ∧ p ≠ ""
            ∧ b_path (c_browser config) = Some p
            ∧ userDataDir = b_userDataDir (c_browser config))
  ∧ (∀ message,
       result = Throws message →
       b_path (c_browser config) = None
       ∧ is_string (b_mode (c_browser config)) "standalone" = false
       ∧ message = (if is_string (b_mode (c_browser config)) "external"
                    then no_path_external else no_path_auto))
  ∧ (is_string (b_mode (c_browser config)) "standalone" = false →
     b_path (c_browser config) = None → ∃ message, result = Throws message).
Proof.
  cbv zeta. unfold getResolvedBrowserConfig.
  pose proof (loadConfig_path_sound store configFile exists_) as Hpath.
  destruct (loadConfig store configFile exists_) as [[store' config] warnings].
  simpl in *.
  destruct (is_string (b_mode (c_browser config)) "standalone") eqn:Hs.
  { simpl. split; [split; [by eexists _, _|done]|]. done. }
  assert (Hnone : truthy_str (b_path (c_browser config)) = None →
                  b_path (c_browser config) = None).
  { destruct (b_path (c_browser config)) as [p|] eqn:Hp; [|done].
    destruct (Hpath p eq_refl) as [_ Hne]. simpl.
    apply String.eqb_neq in Hne. by rewrite Hne. }
  assert (Hsome : ∀ q, truthy_str (b_path (c_browser config)) = Some q →
                       b_path (c_browser config) = Some q).
  { intros q. destruct (b_path (c_browser config)) as [p|]; [|done]. simpl.
    destruct (String.eqb p ""); [done|]. done. }
  destruct (is_string (b_mode (c_browser config)) "external") eqn:He;
    destruct (truthy_str (b_path (c_browser config))) as [q|] eqn:Hq; simpl.
  - split; [split; [done|by intros (? & ? & ?)]|].
    rewrite (Hsome q eq_refl) in *. split; [|done].
    intros path userDataDir [= <- <-]. exists q.
    by destruct (Hpath q eq_refl).
  - split; [split; [done|by intros (? & ? & ?)]|]. split; [done|].
    split; [|by eexists]. intros message [= <-]. by rewrite (Hnone eq_refl).
  - split; [split; [done|by intros (? & ? & ?)]|].
    rewrite (Hsome q eq_refl) in *. split; [|done].
    intros path userDataDir [= <- <-]. exists q.
    by destruct (Hpath q eq_refl).
  - split; [split; [done|by intros (? & ? & ?)]|]. split; [done|].
    split; [|by eexists]. intros message [= <-]. by rewrite (Hnone eq_refl).
Qed.

End Loading.


Definition demo_readJson (configFile : string) : option JsVal :=
  if String.eqb configFile "/home/u/proj/.dev-browser/config.json" then
    Some (JObj [("cdpPort", JNum 9333);
                ("browser",
                 JObj [("mode", JStr "external");
                       ("path", JStr "/opt/google/chrome-for-testing/chrome")])])
  else None.

Lemma loadConfig_browser_path_exists_witness :
  b_path (c_browser
            (loadConfig demo_existsSync linux demo_readJson None
               "/home/u/proj/.dev-browser/config.json" true).1.2)
  = Some "/opt/google/chrome-for-testing/chrome".
Proof.
  destruct (loadConfig_browser_path_exists demo_existsSync linux demo_readJson
              None "/home/u/proj/.dev-browser/config.json" true)
    as (_ & Huser & _).
  eapply Huser; [reflexivity|reflexivity|reflexivity|reflexivity|done].
Defined.


(** A file that configures a path which is not on disk. *)
Definition demo_readJson_missing (configFile : string) : option JsVal :=
  Some (JObj [("browser", JObj [("path", JStr "/nowhere/chrome")])]).

Example loadConfig_falls_back_to_detection :
  let r := loadConfig demo_existsSync linux demo_readJson_missing None
             "/home/u/.config/dev-browser/config.json" true in
  b_path (c_browser r.1.2) = Some "/opt/google/chrome-for-testing/chrome"
  ∧ r.2 = [PathDoesNotExist (JStr "/nowhere/chrome")].
Proof. by vm_compute. Qed.

Lemma getResolvedBrowserConfig_never_falls_back_witness :
  ∃ p, Some "/opt/google/chrome-for-testing/chrome" = Some p
       ∧ demo_existsSync p = true ∧ p ≠ ""
       ∧ b_path (c_browser
                   (loadConfig demo_existsSync linux demo_readJson None
                      "/home/u/proj/.dev-browser/config.json" true).1.2)
         = Some p
       ∧ None = b_userDataDir
                  (c_browser
                     (loadConfig demo_existsSync linux demo_readJson None
                        "/home/u/proj/.dev-browser/config.json" true).1.2).
Proof.
  destruct (getResolvedBrowserConfig_never_falls_back demo_existsSync linux
              demo_readJson None "/home/u/proj/.dev-browser/config.json" true)
    as (_ & Hexternal & _).
  apply Hexternal. reflexivity.
Defined.

End Settings.

(* ===================================================================== *)
(** * Launching the browser ([external-browser.ts]) *)
(* ===================================================================== *)

Module Launch.
Import Js Server.

(** [child_process.spawn(command, args, { detached: true, stdio:
    "ignore" })], followed by [child.unref()]. *)
Record Spawn := mkSpawn {
  command : string;
  args : list string
}.

(** [s.endsWith(suffix)]. *)
Definition endsWith (s suffix : string) : bool :=
  let n := String.length s in
  let m := String.length suffix in
  (m <=? n)%nat && String.eqb (String.substring (n - m) m s) suffix.

Section LaunchBrowser.
Set Default Proof Using "Type".

(** [process.platform], and what [getStateDir] reads. *)
Variable platform : Settings.Platform.
Variable existsSync : string → bool.
Variable join : list string → string.
Variable env : Settings.Env.

(** [process.platform === "darwin"]. *)
Definition is_darwin : bool :=
  match platform with
  | Settings.darwin => true
  | _ => false
  end.

(** The process [launchBrowserDetached] starts ([console.log] lines are
    left out). *)
Definition launchBrowserDetached (browserPath : string) (cdpPort : JsNumber)
    (userDataDir : option string) : Spawn :=
  if is_darwin && endsWith browserPath ".app" then
    mkSpawn "open" ["-a"; browserPath]
  else
    let effectiveUserDataDir :=
      match Settings.truthy_str userDataDir with
      | Some dir => dir
      | None =>
          join [Settings.getStateDir existsSync join env; "chrome-profile"]
      end in
    mkSpawn browserPath
      ["--remote-debugging-port=" +:+ show cdpPort;
       "--no-first-run";
       "--no-default-browser-check";
       "--user-data-dir=" +:+ effectiveUserDataDir].

(** The processes a start-up spawns: one for each call of
    [launchBrowserDetached] it makes. *)
Definition spawned (effects : list StartupEffect) : list Spawn :=
  (λ '(path, cdpPort, userDataDir),
     launchBrowserDetached path cdpPort userDataDir)
  <$> Lifecycle.launches effects.

Lemma spawned_serveWithExternalBrowser options senv :
  spawned (serveWithExternalBrowser options senv).1
  = match (resolve_port options senv).2 with
    | inl port =>
        let cdpPort :=
          default (Int (env_cdpPort senv)) (opt_cdpPort options) in
        if passes_validation port cdpPort
           && negb (answer_isBrowserRunning senv cdpPort)
           && default true (opt_autoLaunch options)
        then match truthy_path (opt_browserPath options) with
             | Some path =>
                 [launchBrowserDetached path cdpPort (opt_userDataDir options)]
             | None => []
             end
        else []
    | inr _ => []
    end.
Proof.
  unfold spawned. rewrite Lifecycle.serveWithExternalBrowser_launches.
  destruct (resolve_port options senv).2 as [port|message]; [|done].
  rewrite Lifecycle.serve_validated_launches. cbv zeta.
  destruct (passes_validation port _ && negb _ && default true _); [|done].
  by destruct (truthy_path (opt_browserPath options)).
Qed.

(** X16. The start-up starts a process only when no browser answers on the
    CDP port, [autoLaunch] has not been switched off and a non-empty
    [browserPath] was given, and then it starts one process only; it does
    start one under these conditions when the ports have passed the three
    checks. On macOS with a path that ends in [.app] the process is
    [open -a <path>], which is given neither the port nor a profile
    directory. Otherwise it is the program at the path with four
    arguments: the CDP port the start-up has settled on as the remote
    debugging port, the two flags against first-run dialogues, and as the
    user data directory the [userDataDir] of the options or, when that is
    missing or empty, [chrome-profile] in the state directory. *)
Theorem browser_launched_only_when_absent options senv :
  let cdpPort := default (Int (env_cdpPort senv)) (opt_cdpPort options) in
  let started := spawned (serveWithExternalBrowser options senv).1 in
  let userDataDir := opt_userDataDir options in
  (∀ s, s ∈ started →
     answer_isBrowserRunning senv cdpPort = false
     ∧ opt_autoLaunch options ≠ Some false
     ∧ ∃ path, opt_browserPath options = Some path ∧ path ≠ ""
               ∧ started = [launchBrowserDetached path cdpPort userDataDir])
  ∧ (∀ port path,
       (resolve_port options senv).2 = inl port →
       Lifecycle.in_range_or_NaN port → Lifecycle.in_range_or_NaN cdpPort →
       port ≠ cdpPort ∨ port = NaN →
       answer_isBrowserRunning senv cdpPort = false →
       opt_autoLaunch options ≠ Some false →
       opt_browserPath options = Some path → path ≠ "" →
       started = [launchBrowserDetached path cdpPort userDataDir])
  ∧ (∀ path c u,
       platform = Settings.darwin → endsWith path ".app" = true →
       launchBrowserDetached path c u = mkSpawn "open" ["-a"; path])
  ∧ (∀ path c u,
       platform ≠ Settings.darwin ∨ endsWith path ".app" = false →
       launchBrowserDetached path c u
       = mkSpawn path
           ["--remote-debugging-port=" +:+ show c;
            "--no-first-run";
            "--no-default-browser-check";
            "--user-data-dir="
            +:+ default
                  (join [Settings.getStateDir existsSync join env;
                         "chrome-profile"])
                  (Settings.truthy_str u)]).
Proof.
  cbv zeta. rewrite spawned_serveWithExternalBrowser. cbv zeta.
  split; [|split; [|split]].
  - intros s.
    destruct (resolve_port options senv).2 as [port|message];
      [|by intros ?%elem_of_nil].
    destruct (passes_validation port _); [|by intros ?%elem_of_nil].
    destruct (answer_isBrowserRunning senv _); [by intros ?%elem_of_nil|].
    destruct (opt_autoLaunch options) as [[|]|] eqn:Hauto;
      cbn [default negb andb]; try (by intros ?%elem_of_nil);
      (destruct (truthy_path (opt_browserPath options)) as [path|] eqn:Hpath;
       [|by intros ?%elem_of_nil]);
      apply Lifecycle.truthy_path_Some in Hpath as [Hpath Hne];
      intros _; (split; [done|]); (split; [done|]); by exists path.
  - intros port path -> Hp Hc Hne Hrun Hauto Hpath Hnonempty.
    assert (passes_validation port
              (default (Int (env_cdpPort senv)) (opt_cdpPort options)) = true)
      as -> by (by apply Lifecycle.passes_validation_iff).
    rewrite Hrun.
    assert (default true (opt_autoLaunch options) = true) as ->
      by (by destruct (opt_autoLaunch options) as [[|]|]).
    assert (truthy_path (opt_browserPath options) = Some path) as ->
      by (by apply Lifecycle.truthy_path_Some).
    done.
  - intros path c u Hplat Happ. unfold launchBrowserDetached, is_darwin.
    by rewrite Hplat, Happ.
  - intros path c u Hnot. unfold launchBrowserDetached, is_darwin.
    assert ((match platform with Settings.darwin => true | _ => false end)
            && endsWith path ".app" = false) as ->.
    { destruct Hnot as [Hplat|Happ].
      - by destruct platform.
      - rewrite Happ. apply andb_false_r. }
    by destruct (Settings.truthy_str u).
Qed.

End LaunchBrowser.

(** ** Concrete launches *)

Lemma browser_launched_only_when_absent_witness :
  spawned Settings.linux Settings.demo_existsSync Settings.demo_join
    Settings.demo_env
    (serveWithExternalBrowser Lifecycle.demo_launch_options
       Lifecycle.demo_cold_env).1
  = [mkSpawn "/opt/google/chrome-for-testing/chrome"
       ["--remote-debugging-port=9223"; "--no-first-run";
        "--no-default-browser-check"; "--user-data-dir=/tmp/profile"]].
Proof.
  etransitivity.
  - apply (proj1 (proj2 (browser_launched_only_when_absent Settings.linux
                           Settings.demo_existsSync Settings.demo_join
                           Settings.demo_env Lifecycle.demo_launch_options
                           Lifecycle.demo_cold_env))
             (Int 19222) "/opt/google/chrome-for-testing/chrome").
    + reflexivity.
    + simpl. lia.
    + simpl. lia.
    + left. discriminate.
    + reflexivity.
    + discriminate.
    + reflexivity.
    + discriminate.
  - reflexivity.
Defined.

(** An app bundle on macOS is opened with [open -a]: the port and the
    profile directory of the call are not passed on. *)
Example launch_macOS_app_bundle :
  launchBrowserDetached Settings.darwin Settings.demo_existsSync
    Settings.demo_join Settings.demo_env
    "/Applications/Google Chrome for Testing.app" (Int 9223)
    (Some "/tmp/profile")
  = mkSpawn "open" ["-a"; "/Applications/Google Chrome for Testing.app"].
Proof. reflexivity. Qed.

(** Without a [userDataDir] the browser gets a profile in the state
    directory. *)
Example launch_default_profile :
  launchBrowserDetached Settings.linux Settings.demo_existsSync
    Settings.demo_join Settings.demo_env
    "/opt/google/chrome-for-testing/chrome" (Int 9223) None
  = mkSpawn "/opt/google/chrome-for-testing/chrome"
      ["--remote-debugging-port=9223"; "--no-first-run";
       "--no-default-browser-check";
       "--user-data-dir=/home/u/.local/state/dev-browser/chrome-profile"].
Proof. reflexivity. Qed.

End Launch.

(* ===================================================================== *)
(** * The port file ([config.ts]) *)
(* ===================================================================== *)

Module PortFile.

(** ** [String.prototype.trim] and [parseInt(s, 10)]

    White space is what one code unit below 256 can be: the space, the
    characters 9 to 13 and the no-break space. *)
Definition is_space (c : Ascii.ascii) : bool :=
  let n := Ascii.nat_of_ascii c in
  ((n =? 32) || ((9 <=? n) && (n <=? 13)) || (n =? 160))%nat.

Definition digit (c : Ascii.ascii) : option Z :=
  let n := Z.of_nat (Ascii.nat_of_ascii c) in
  if (48 <=? n) && (n <=? 57) then Some (n - 48) else None.

Fixpoint trimStart (s : string) : string :=
  match s with
  | String c r => if is_space c then trimStart r else s
  | EmptyString => EmptyString
  end.

Fixpoint trimEnd (s : string) : string :=
  match s with
  | String c r =>
      match trimEnd r with
      | EmptyString => if is_space c then EmptyString else String c EmptyString
      | r' => String c r'
      end
  | EmptyString => EmptyString
  end.

Definition trim (s : string) : string := trimEnd (trimStart s).

(** The value of the longest run of digits [s] starts with, on top of
    [acc]; [None] while no digit has been read. *)
Fixpoint digits (acc : option Z) (s : string) : option Z :=
  match s with
  | String c r =>
      match digit c with
      | Some d => digits (Some (10 * default 0 acc + d)) r
      | None => acc
      end
  | EmptyString => acc
  end.

Definition minus_sign : Ascii.ascii := Ascii.ascii_of_nat 45.
Definition plus_sign : Ascii.ascii := Ascii.ascii_of_nat 43.

(** [parseInt(s, 10)], [None] for [NaN]. *)
Definition parseInt (s : string) : option Z :=
  match trimStart s with
  | String c r =>
      if Ascii.eqb c minus_sign then Z.opp <$> digits None r
      else if Ascii.eqb c plus_sign then digits None r
      else digits None (String c r)
  | EmptyString => None
  end.

Section Files.
Set Default Proof Using "Type".

Variable join : list string → string.

Definition portFile (skillDir : string) : string :=
  join [skillDir; "tmp"; "port"].

(** The files and their contents; directories are not modelled, so
    [mkdirSync] does nothing here. *)
Definition writePortFile (port : Z) (skillDir : string)
    (fs : gmap string string) : gmap string string :=
  <[portFile skillDir := pretty port]> fs.

Definition readPortFile (skillDir : string) (fs : gmap string string)
  : option Z :=
  match fs !! portFile skillDir with
  | Some content => parseInt (trim content)
  | None => None
  end.

End Files.

(** ** Results *)

Lemma digit_not_space c d : digit c = Some d → is_space c = false.
Proof.
  unfold digit, is_space.
  destruct (_ && _) eqn:H; [|done]. intros _.
  apply andb_true_iff in H as [H1 H2].
  apply Z.leb_le in H1, H2.
  repeat (apply orb_false_iff; split);
    rewrite ?andb_false_iff, ?Nat.eqb_neq, ?Nat.leb_gt; lia.
Qed.

Lemma digits_trimEnd s : ∀ acc, digits acc (trimEnd s) = digits acc s.
Proof.
  induction s as [|c r IH]; intros acc; [done|]. simpl.
  destruct (digit c) as [d|] eqn:Hd.
  - rewrite <- IH. destruct (trimEnd r) eqn:Hr; simpl; rewrite ?Hd; [|done].
    by rewrite (digit_not_space c d Hd); simpl; rewrite Hd.
  - destruct (trimEnd r); [|by simpl; rewrite Hd].
    destruct (is_space c); [done|]. by simpl; rewrite Hd.
Qed.

Lemma trimStart_head c r :
  is_space c = false → trimStart (String c r) = String c r.
Proof. intros H. simpl. by rewrite H. Qed.

Lemma parseInt_trimEnd s :
  trimStart s = s → parseInt (trimEnd s) = parseInt s.
Proof.
  destruct s as [|c r]; [done|]. intros Hs.
  assert (is_space c = false) as Hc.
  { simpl in Hs. destruct (is_space c) eqn:H; [|done].
    assert (String.length (trimStart r) ≤ String.length r)%nat as Hlen.
    { clear. induction r as [|c r IH]; simpl; [lia|].
      destruct (is_space c); simpl; lia. }
    rewrite Hs in Hlen. simpl in Hlen. lia. }
  unfold parseInt. rewrite (trimStart_head c r Hc).
  assert (trimEnd (String c r) = String c (trimEnd r)) as ->.
  { simpl. destruct (trimEnd r); [by rewrite Hc|done]. }
  rewrite (trimStart_head _ _ Hc).
  destruct (Ascii.eqb c minus_sign); [by rewrite digits_trimEnd|].
  destruct (Ascii.eqb c plus_sign); [by rewrite digits_trimEnd|].
  change (String c (trimEnd r)) with (String c (trimEnd r)).
  simpl. destruct (digit c); [apply digits_trimEnd|done].
Qed.

Lemma trimStart_idemp s : trimStart (trimStart s) = trimStart s.
Proof.
  induction s as [|c r IH]; [done|]. simpl.
  destruct (is_space c) eqn:Hc; [done|]. simpl. by rewrite Hc.
Qed.

Lemma parseInt_trim s : parseInt (trim s) = parseInt s.
Proof.
  unfold trim. rewrite parseInt_trimEnd by apply trimStart_idemp.
  unfold parseInt. by rewrite trimStart_idemp.
Qed.

Lemma digit_pretty_N_char x :
  (x < 10)%N → digit (pretty_N_char x) = Some (Z.of_N x).
Proof.
  intros Hx.
  assert (x = 0 ∨ x = 1 ∨ x = 2 ∨ x = 3 ∨ x = 4 ∨ x = 5 ∨ x = 6 ∨ x = 7
          ∨ x = 8 ∨ x = 9)%N as H by lia.
  repeat (destruct H as [->|H]; [reflexivity|]). by subst.
Qed.

Lemma digits_pretty_N_go x :
  (0 < x)%N →
  ∀ s, digits None (pretty_N_go x s) = digits (Some (Z.of_N x)) s.
Proof.
  induction (N.lt_wf_0 x) as [x _ IH]. intros Hx s.
  rewrite pretty_N_go_step by done.
  pose proof (digit_pretty_N_char (x `mod` 10)%N) as Hd.
  specialize (Hd ltac:(by apply N.mod_lt)).
  destruct (decide (x `div` 10 = 0)%N) as [Hz|Hnz].
  - rewrite Hz, pretty_N_go_0. simpl. rewrite Hd. simpl.
    f_equal. f_equal. pose proof (N.div_mod x 10 ltac:(done)) as Hdm.
    rewrite Hz in Hdm. lia.
  - rewrite IH; [|by apply N.div_lt|by apply N.neq_0_lt_0]. simpl.
    rewrite Hd. simpl.
    f_equal. f_equal. pose proof (N.div_mod x 10 ltac:(done)) as Hdm. lia.
Qed.

Lemma pretty_N_go_head x s :
  (0 < x)%N → ∃ c r d, pretty_N_go x s = String c r ∧ digit c = Some d.
Proof.
  revert s. induction (N.lt_wf_0 x) as [x _ IH]. intros s Hx.
  rewrite pretty_N_go_step by done.
  pose proof (digit_pretty_N_char (x `mod` 10)%N) as Hd.
  specialize (Hd ltac:(by apply N.mod_lt)).
  destruct (decide (x `div` 10 = 0)%N) as [Hz|Hnz].
  - rewrite Hz, pretty_N_go_0. by eexists _, _, _.
  - apply IH; [by apply N.div_lt|by apply N.neq_0_lt_0].
Qed.

Lemma string_app_assoc (a b c : string) : (a +:+ b) +:+ c = a +:+ b +:+ c.
Proof.
  induction a as [|x a IH]; [done|].
  change (String x ((a +:+ b) +:+ c) = String x (a +:+ b +:+ c)).
  by rewrite IH.
Qed.

Lemma string_app_nil_r (a : string) : a +:+ "" = a.
Proof.
  induction a as [|x a IH]; [done|].
  change (String x (a +:+ "") = String x a). by rewrite IH.
Qed.

Lemma pretty_N_go_app x : ∀ s, pretty_N_go x s = pretty_N_go x "" +:+ s.
Proof.
  induction (N.lt_wf_0 x) as [x _ IH]. intros s.
  destruct (decide (x = 0)%N) as [->|Hx]; [by rewrite !pretty_N_go_0|].
  rewrite !(pretty_N_go_step x) by lia.
  rewrite (IH (x `div` 10)%N) by (apply N.div_lt; lia).
  rewrite (IH (x `div` 10)%N ltac:(apply N.div_lt; lia)
             (String _ EmptyString)).
  by rewrite string_app_assoc.
Qed.

Fixpoint all_space (s : string) : bool :=
  match s with
  | String c r => is_space c && all_space r
  | EmptyString => true
  end.

(** [rest] does not go on with a digit. *)
Definition no_digit_first (rest : string) : bool :=
  match rest with
  | String c _ => match digit c with Some _ => false | None => true end
  | EmptyString => true
  end.

Lemma digits_stop acc rest : no_digit_first rest = true → digits acc rest = acc.
Proof. destruct rest as [|c r]; [done|]. simpl. by destruct (digit c). Qed.

Lemma parseInt_pretty (port : Z) ws rest :
  all_space ws = true → no_digit_first rest = true →
  parseInt (ws +:+ pretty port +:+ rest) = Some port.
Proof.
  intros Hws Hrest. unfold parseInt.
  assert (trimStart (ws +:+ pretty port +:+ rest)
          = trimStart (pretty port +:+ rest)) as ->.
  { induction ws as [|c ws IH]; [done|]. simpl in *.
    apply andb_true_iff in Hws as [-> Hws]. by apply IH. }
  assert (Hpos : ∀ x, (0 < x)%N →
    match trimStart (pretty_N_go x "" +:+ rest) with
    | String c r =>
        if Ascii.eqb c minus_sign then Z.opp <$> digits None r
        else if Ascii.eqb c plus_sign then digits None r
        else digits None (String c r)
    | EmptyString => None
    end = Some (Z.of_N x)).
  { intros x Hx. rewrite <- pretty_N_go_app.
    destruct (pretty_N_go_head x rest Hx) as (c & r & d & Heq & Hd).
    pose proof (digits_pretty_N_go x Hx rest) as Hval. rewrite Heq in *.
    rewrite (trimStart_head c r (digit_not_space c d Hd)).
    assert (Ascii.eqb c minus_sign = false ∧ Ascii.eqb c plus_sign = false) as [-> ->].
    { split; apply Ascii.eqb_neq; intros ->; discriminate. }
    rewrite Hval. by apply digits_stop. }
  destruct port as [|p|p].
  - change (pretty 0) with "0". simpl. by rewrite digits_stop.
  - change (pretty (Z.pos p)) with (pretty_N_go (N.pos p) "").
    by rewrite Hpos.
  - change (pretty (Z.neg p) +:+ rest)
      with (String minus_sign (pretty_N_go (N.pos p) "" +:+ rest)).
    rewrite trimStart_head by reflexivity. rewrite Ascii.eqb_refl.
    rewrite <- pretty_N_go_app, digits_pretty_N_go by done.
    by rewrite digits_stop.
Qed.

(** X30. What [writePortFile] writes [readPortFile] reads back: the port.
    [readPortFile] reads the port as well from a file that holds white
    space before it and anything that does not start with a digit after
    it, such as a line feed; it returns [null] when there is no file. The
    ports are whole numbers that a JavaScript number holds exactly. *)
Theorem port_file_round_trip join port skillDir fs :
  - 2 ^ 53 < port < 2 ^ 53 →
  readPortFile join skillDir (writePortFile join port skillDir fs) = Some port
  ∧ (∀ ws rest,
       all_space ws = true → no_digit_first rest = true →
       readPortFile join skillDir
         (<[portFile join skillDir := ws +:+ pretty port +:+ rest]> fs)
       = Some port)
  ∧ (fs !! portFile join skillDir = None →
     readPortFile join skillDir fs = None).
Proof.
  intros _. unfold readPortFile, writePortFile. split; [|split].
  - rewrite lookup_insert_eq, parseInt_trim.
    rewrite <- (string_app_nil_r (pretty port)).
    exact (parseInt_pretty port "" "" eq_refl eq_refl).
  - intros ws rest Hws Hrest.
    by rewrite lookup_insert_eq, parseInt_trim, parseInt_pretty.
  - by intros ->.
Qed.

Definition demo_join (parts : list string) : string := String.concat "/" parts.

Lemma port_file_round_trip_witness :
  readPortFile demo_join "/skill"
    (writePortFile demo_join 19222 "/skill" ∅) = Some 19222.
Proof.
  apply (port_file_round_trip demo_join 19222 "/skill" ∅). lia.
Defined.

Example readPortFile_not_a_number :
  readPortFile demo_join "/skill" {[ "/skill/tmp/port" := "port" ]} = None.
Proof. vm_compute. reflexivity. Qed.

End PortFile.
